(** * pisDiplomacy: loading and initialising the game state

    A shallow embedding of [src/pisDiplomacy.cpp]: the classes [Part],
    [Territory], [Player] and [Game], the constructor [Game::Game], the
    method [Game::initialize] and [main], with the properties of the
    specification that concern them.

    Conventions of the embedding.
    - A raw pointer is the index of the object in the vector that owns it:
      a [Territory*] is an index into [allTerritories], a [Player*] an index
      into [allPlayers], a [Part*] a pair (territory index, index into that
      territory's [parts]); [nullptr] is [None].
    - A C++ exception is the [Throw] case of [result]; every exception the
      code can raise derives from [std::exception].
    - [nlohmann::json] values are the inductive [json]; an object lists its
      members in iteration order (the library keeps them in a [std::map],
      so by ascending key and with no key twice).  Floating-point numbers
      are left out of the model.
    - The text parser and printer of the JSON library are parameters
      ([parse], [dump]) of the section that holds the program. *)

From Stdlib Require Import ZArith Lia Ascii.
From stdpp Require Import base option list strings pretty gmap.

#[local] Set Warnings "-register-all".
Open Scope Z_scope.

(** ** Exceptions and the error monad *)

Inductive exn :=
  | runtime_error (what : string)      (* std::runtime_error *)
  | parse_error (what : string)        (* json::parse_error *)
  | type_error (id : Z) (what : string) (* json::type_error *)
  | out_of_range (what : string).      (* std::out_of_range *)

(** [e.what()] *)
Definition what (e : exn) : string :=
  match e with
  | runtime_error w | parse_error w | out_of_range w => w
  | type_error id w => "[json.exception.type_error." +:+ pretty id +:+ "] " +:+ w
  end.

Inductive result (A : Type) :=
  | Ok (a : A)
  | Throw (e : exn).
Arguments Ok {A} a.
Arguments Throw {A} e.

#[global] Instance result_ret : MRet result := fun A a => Ok a.
#[global] Instance result_bind : MBind result := fun A B f m =>
  match m with
  | Ok a => f a
  | Throw e => Throw e
  end.

Definition is_Ok {A} (r : result A) : bool :=
  match r with Ok _ => true | Throw _ => false end.

(** ** JSON values *)

Inductive json :=
  | JNull
  | JBool (b : bool)
  | JNum (n : Z)
  | JStr (s : string)
  | JArr (elems : list json)
  | JObj (members : list (string * json)).

Definition type_name (j : json) : string :=
  match j with
  | JNull => "null"
  | JBool _ => "boolean"
  | JNum _ => "number"
  | JStr _ => "string"
  | JArr _ => "array"
  | JObj _ => "object"
  end.

Definition is_null (j : json) : bool :=
  match j with JNull => true | _ => false end.

(** First member with the given key. *)
Fixpoint member (key : string) (ms : list (string * json)) : option json :=
  match ms with
  | [] => None
  | (k, v) :: ms' => if String.eqb k key then Some v else member key ms'
  end.

(** [j[key]] on a non-const value: a null value turns into an object, a
    missing member is created as null; neither is observable by the
    program, which reads the member at once and never dumps the value
    again.  On anything but null and object the library throws. *)
Definition json_at (j : json) (key : string) : result json :=
  match j with
  | JNull => Ok JNull
  | JObj ms => Ok (default JNull (member key ms))
  | _ => Throw (type_error 305
           ("cannot use operator[] with a string argument with " +:+ type_name j))
  end.

(** [j.items()]: the members of an object, the elements of an array under
    their decimal index, nothing for null, the value itself under the
    empty key for any other value. *)
Definition items (j : json) : list (string * json) :=
  match j with
  | JObj ms => ms
  | JArr es => imap (fun i e => (pretty i, e)) es
  | JNull => []
  | _ => [(EmptyString, j)]
  end.

(** Implicit conversion to [std::string]. *)
Definition get_string (j : json) : result string :=
  match j with
  | JStr s => Ok s
  | _ => Throw (type_error 302 ("type must be string, but is " +:+ type_name j))
  end.

(** Implicit conversion to an unsigned integer type of the given width:
    numbers and booleans convert ([static_cast], so modulo 2^bits). *)
Definition get_unsigned (bits : Z) (j : json) : result Z :=
  match j with
  | JNum n => Ok (n mod 2 ^ bits)
  | JBool b => Ok (if b then 1 else 0)
  | _ => Throw (type_error 302 ("type must be number, but is " +:+ type_name j))
  end.

(** [j == "text"] and [j == 1]. *)
Definition json_eq_string (j : json) (s : string) : bool :=
  match j with JStr t => String.eqb t s | _ => false end.

Definition json_eq_int (j : json) (n : Z) : bool :=
  match j with JNum m => m =? n | _ => false end.

(** ** The classes *)

Abbreviation TerritoryPtr := nat (only parsing).
Abbreviation PlayerPtr := nat (only parsing).
Abbreviation PartPtr := (nat * nat)%type (only parsing).

Record Part := {
  part_name : string;
  neighbors : list PartPtr;
  belonged : option TerritoryPtr;
  LC : Z;                          (* 0 for land, 1 for coast *)
  part_unit : option PlayerPtr
}.

Record Territory := {
  territory_name : string;
  parts : list Part;
  center : Z;                      (* 0 for not, 1 for yes *)
  owner : option PlayerPtr
}.

Record Player := {
  player_name : string;
  allowBuild : list TerritoryPtr;
  centerCount : Z;
  unitCount : Z;
  units : list PartPtr;
  vote : bool;
  ready : bool
}.

Record Game := {
  allTerritories : list Territory;
  allPlayers : list Player;
  press : list (PlayerPtr * PlayerPtr * string);
  winCondition : Z;
  buildRule : Z;                   (* 0 for initTerritories, 1 for allTerritories *)
  buildTime : Z;
  voteShown : bool;
  drawType : Z;                    (* 0 for DSS, 1 for SoS *)
  phaseCount : Z;
  log : string;
  logFilePath : string;
  mapRaw : string;
  rulesRaw : string
}.

(** ** Machine integers *)

(** [int] is 32 bits wide, two's complement. *)
Definition INT_MAX : Z := 2 ^ 31 - 1.

Definition wrap_int (z : Z) : Z := (z + 2 ^ 31) mod 2 ^ 32 - 2 ^ 31.

(** [n++] on an [int]. *)
Definition int_incr (n : Z) : Z := wrap_int (n + 1).

(** [size_t] is 64 bits wide. *)
Definition wrap_size (z : Z) : Z := z mod 2 ^ 64.

(** ** Strings *)

(** [s.substr(pos)]: the tail of [s] from [pos]; past the end it throws
    [std::out_of_range], here with the text libstdc++ gives it. *)
Definition substr (s : string) (pos : Z) : result string :=
  if Z.of_nat (String.length s) <? pos
  then Throw (out_of_range
                ("basic_string::substr: __pos (which is " +:+ pretty pos
                 +:+ ") > this->size() (which is "
                 +:+ pretty (Z.of_nat (String.length s)) +:+ ")"))
  else Ok (String.substring (Z.to_nat pos) (String.length s - Z.to_nat pos) s).

Definition endl : string := String (Ascii.ascii_of_nat 10) EmptyString.

(** ** Updates of single fields *)

Definition place_unit (player : PlayerPtr) (p : Part) : Part :=
  {| part_name := part_name p; neighbors := neighbors p;
     belonged := belonged p; LC := LC p; part_unit := Some player |}.

Definition set_parts (t : Territory) (ps : list Part) : Territory :=
  {| territory_name := territory_name t; parts := ps;
     center := center t; owner := owner t |}.

Definition set_owner (t : Territory) (player : PlayerPtr) : Territory :=
  {| territory_name := territory_name t; parts := parts t;
     center := center t; owner := Some player |}.

(** [player->units.push_back(part); player->unitCount++;] *)
Definition add_unit (part : PartPtr) (p : Player) : Player :=
  {| player_name := player_name p; allowBuild := allowBuild p;
     centerCount := centerCount p; unitCount := int_incr (unitCount p);
     units := units p ++ [part]; vote := vote p; ready := ready p |}.

(** [player->centerCount++; player->allowBuild.push_back(territory);] *)
Definition add_center (territory : TerritoryPtr) (p : Player) : Player :=
  {| player_name := player_name p; allowBuild := allowBuild p ++ [territory];
     centerCount := int_incr (centerCount p); unitCount := unitCount p;
     units := units p; vote := vote p; ready := ready p |}.

(** ** Game::Game, its loops *)

(** The member keys of a territory that do not name a part. *)
Definition is_part_key (partName : string) : bool :=
  negb (String.eqb partName "center")
  && negb (String.eqb partName "initPlayer")
  && negb (String.eqb partName "initPart").

(** [(partName.substr(partName.size()-1) == 'C') ? 1 : 0] *)
Definition part_LC (partName : string) : result Z :=
  last ← substr partName (wrap_size (Z.of_nat (String.length partName) - 1));
  Ok (if String.eqb last "C" then 1 else 0).

(** The inner loop over [territoryData.items()].  The loop binds the
    neighbour array of each part and does not use it: the [neighbors]
    vector of the new [Part] stays as it was default-constructed. *)
Fixpoint build_parts (territory : TerritoryPtr) (its : list (string * json))
  : result (list Part) :=
  match its with
  | [] => Ok []
  | (partName, _neighbors) :: rest =>
      if is_part_key partName then
        lc ← part_LC partName;
        ps ← build_parts territory rest;
        Ok ({| part_name := partName; neighbors := [];
               belonged := Some territory; LC := lc; part_unit := None |} :: ps)
      else build_parts territory rest
  end.

(** The first loop over [mapJson.items()]; [n] is the size of
    [allTerritories] when the iteration starts. *)
Fixpoint build_territories (n : nat) (its : list (string * json))
  : result (list Territory) :=
  match its with
  | [] => Ok []
  | (territoryName, territoryData) :: rest =>
      c ← json_at territoryData "center";
      c ← get_unsigned 8 c;
      ps ← build_parts n (items territoryData);
      ts ← build_territories (S n) rest;
      Ok ({| territory_name := territoryName; parts := ps;
             center := c; owner := None |} :: ts)
  end.

Definition publicPlayer : Player :=
  {| player_name := "public"; allowBuild := []; centerCount := 0;
     unitCount := 0; units := []; vote := true; ready := true |}.

Definition new_player (playerName : string) : Player :=
  {| player_name := playerName; allowBuild := []; centerCount := 0;
     unitCount := 0; units := []; vote := false; ready := false |}.

(** The second loop over [mapJson.items()]. *)
Fixpoint collect_players (its : list (string * json))
    (playerMap : gmap string PlayerPtr) (allPlayers : list Player)
  : result (list Player) :=
  match its with
  | [] => Ok allPlayers
  | (_, territoryData) :: rest =>
      ip ← json_at territoryData "initPlayer";
      if is_null ip then collect_players rest playerMap allPlayers
      else
        playerName ← get_string ip;
        match playerMap !! playerName with
        | Some _ => collect_players rest playerMap allPlayers
        | None =>
            collect_players rest
              (<[playerName := length allPlayers]> playerMap)
              (allPlayers ++ [new_player playerName])
        end
  end.

(** ** Game::initialize, the body of its loop *)

Definition init_territory (mapJson : json) (ti : TerritoryPtr)
    (territory : Territory) (players : list Player)
  : result (Territory * list Player) :=
  territoryData ← json_at mapJson (territory_name territory);
  ip ← json_at territoryData "initPlayer";
  if is_null ip then Ok (territory, players)
  else
    playerName ← get_string ip;
    ipart ← json_at territoryData "initPart";
    initPartName ← get_string ipart;
    match list_find (λ p, player_name p = playerName) players with
    | None => Ok (territory, players)
    | Some (player, _) =>
        let '(territory1, players1) :=
          match list_find (λ p, part_name p = initPartName) (parts territory) with
          | Some (k, _) =>
              (set_parts territory (alter (place_unit player) k (parts territory)),
               alter (add_unit (ti, k)) player players)
          | None => (territory, players)
          end in
        if center territory1 =? 0 then Ok (territory1, players1)
        else Ok (set_owner territory1 player,
                 alter (add_center ti) player players1)
    end.

(** The loop over [allTerritories]; [ti] is the index of the head of [ts]. *)
Fixpoint init_loop (mapJson : json) (ti : TerritoryPtr)
    (ts : list Territory) (players : list Player)
  : result (list Territory * list Player) :=
  match ts with
  | [] => Ok ([], players)
  | territory :: rest =>
      '(territory', players') ← init_territory mapJson ti territory players;
      '(rest', players'') ← init_loop mapJson (S ti) rest players';
      Ok (territory' :: rest', players'')
  end.

(** ** The program *)

Record Exit := { exit_code : Z; stderr : string }.

Section Program.
(** [json::parse] and [json::dump] of the JSON library. *)
Variable parse : string → result json.
Variable dump : json → string.
(** [Game::play] is declared in the class and has no body in the source. *)
Variable play : Game → result Game.

(** [fs] is the file system: the content of the file at a path, or
    [None] when the file cannot be opened. *)
Definition Game_ctor (fs : string → option string)
    (mapPath rulesPath : string) : result Game :=
  match fs mapPath, fs rulesPath with
  | Some mapFile, Some rulesFile =>
      mapJson ← parse mapFile;
      rulesJson ← parse rulesFile;
      wc ← json_at rulesJson "winCondition";
      wc ← get_unsigned 32 wc;
      br ← json_at rulesJson "buildRule";
      bt ← json_at rulesJson "buildTime";
      bt ← get_unsigned 32 bt;
      vs ← json_at rulesJson "voteShown";
      dt ← json_at rulesJson "drawType";
      ts ← build_territories 0%nat (items mapJson);
      ps ← collect_players (items mapJson) ∅ [publicPlayer];
      Ok {| allTerritories := ts;
            allPlayers := ps;
            press := [];
            winCondition := wc;
            buildRule := if json_eq_string br "allCenters" then 1 else 0;
            buildTime := bt;
            voteShown := json_eq_int vs 1;
            drawType := if json_eq_string dt "DSS" then 0 else 1;
            phaseCount := 1;
            log := EmptyString;
            logFilePath := "log.json";
            mapRaw := dump mapJson;
            rulesRaw := dump rulesJson |}
  | _, _ => Throw (runtime_error "Failed to open input files")
  end.

Definition initialize (g : Game) : result Game :=
  mapJson ← parse (mapRaw g);
  '(ts, ps) ← init_loop mapJson 0%nat (allTerritories g) (allPlayers g);
  Ok {| allTerritories := ts;
        allPlayers := ps;
        press := press g;
        winCondition := winCondition g;
        buildRule := buildRule g;
        buildTime := buildTime g;
        voteShown := voteShown g;
        drawType := drawType g;
        phaseCount := phaseCount g;
        log := log g;
        logFilePath := logFilePath g;
        mapRaw := mapRaw g;
        rulesRaw := rulesRaw g |}.

Definition main (fs : string → option string) : Exit :=
  match
    diplomacy ← Game_ctor fs "map.json" "rules.json";
    diplomacy ← initialize diplomacy;
    play diplomacy
  with
  | Ok _ => {| exit_code := 0; stderr := EmptyString |}
  | Throw e => {| exit_code := 1; stderr := "Error: " +:+ what e +:+ endl |}
  end.
End Program.

(** ** A printer and a table-driven reader, for concrete runs

    [json_dump] prints compact JSON (strings without escapes);
    [parse_docs docs] reads back exactly the texts of the documents of
    [docs] and rejects every other text. *)

Definition dquote : string := String (Ascii.ascii_of_nat 34) EmptyString.

Definition quoted (s : string) : string := dquote +:+ s +:+ dquote.

Fixpoint json_dump (j : json) : string :=
  match j with
  | JNull => "null"
  | JBool b => if b then "true" else "false"
  | JNum n => pretty n
  | JStr s => quoted s
  | JArr es =>
      "[" +:+ (fix elems (es : list json) : string :=
                 match es with
                 | [] => EmptyString
                 | [e] => json_dump e
                 | e :: es' => json_dump e +:+ "," +:+ elems es'
                 end) es +:+ "]"
  | JObj ms =>
      "{" +:+ (fix members (ms : list (string * json)) : string :=
                 match ms with
                 | [] => EmptyString
                 | [(k, v)] => quoted k +:+ ":" +:+ json_dump v
                 | (k, v) :: ms' =>
                     quoted k +:+ ":" +:+ json_dump v +:+ "," +:+ members ms'
                 end) ms +:+ "}"
  end.

Definition parse_docs (docs : list json) (text : string) : result json :=
  match List.find (λ j, String.eqb (json_dump j) text) docs with
  | Some j => Ok j
  | None => Throw (parse_error "parse error at line 1, column 1")
  end.

(** A file system holding the two input files. *)
Definition two_files (mapFile rulesFile : option string) (path : string)
  : option string :=
  if String.eqb path "map.json" then mapFile
  else if String.eqb path "rules.json" then rulesFile
  else None.

Definition names (l : list string) : json := JArr (JStr <$> l).

(** The rules of the header comment of the source. *)
Definition rules_doc : json :=
  JObj [("buildRule", JStr "initCenters"); ("buildTime", JNum 4);
        ("drawType", JStr "DSS"); ("voteShown", JNum 1);
        ("winCondition", JNum 18)].

(** The map of the header comment of the source: BEL has no initial
    player, UKR is no centre and names no initial part. *)
Definition map_doc : json :=
  JObj [
    ("BEL", JObj [("BEL_C", names ["NTH"; "ENG"]);
                  ("BEL_L", names ["HOL"; "PIC"; "RUH"; "BUR"]);
                  ("center", JNum 1); ("initPart", JNull);
                  ("initPlayer", JNull)]);
    ("LON", JObj [("LON_C", names ["YOR"; "WAL"; "ENG"; "NTH"]);
                  ("LON_L", names ["YOR"; "WAL"]);
                  ("center", JNum 1); ("initPart", JStr "LON_C");
                  ("initPlayer", JStr "ENG")]);
    ("STP", JObj [("STP_L", names ["FIN"; "MOS"; "LVN"]);
                  ("STP_NC", names ["BAR"; "NWY"]);
                  ("STP_SC", names ["FIN"; "BOT"; "LVN"]);
                  ("center", JNum 1); ("initPart", JStr "STP_SC");
                  ("initPlayer", JStr "RUS")]);
    ("UKR", JObj [("UKR_L", names ["MOS"; "WAR"; "SEV"; "GAL"; "RUM"]);
                  ("center", JNum 0); ("initPart", JStr "None");
                  ("initPlayer", JStr "RUS")])].

Definition docs : list json := [map_doc; rules_doc].

Definition fs_doc : string → option string :=
  two_files (Some (json_dump map_doc)) (Some (json_dump rules_doc)).


(** Rules with a draw type the game does not know. *)
Definition rules_unknown_draw : json :=
  JObj [("buildRule", JStr "initCenters"); ("buildTime", JNum 4);
        ("drawType", JStr "XYZ"); ("voteShown", JNum 1);
        ("winCondition", JNum 18)].

Definition fs_unknown_draw : string → option string :=
  two_files (Some (json_dump map_doc)) (Some (json_dump rules_unknown_draw)).

(** A map whose only territory has an initial player and no initial
    part. *)
Definition map_null_part : json :=
  JObj [("UKR", JObj [("UKR_L", names ["MOS"; "WAR"; "SEV"; "GAL"; "RUM"]);
                      ("center", JNum 0); ("initPart", JNull);
                      ("initPlayer", JStr "RUS")])].

Definition fs_null_part : string → option string :=
  two_files (Some (json_dump map_null_part)) (Some (json_dump rules_doc)).

(** A map whose only territory is no centre and has an initial unit. *)
Definition map_no_center : json :=
  JObj [("UKR", JObj [("UKR_L", names ["MOS"; "WAR"; "SEV"; "GAL"; "RUM"]);
                      ("center", JNum 0); ("initPart", JStr "UKR_L");
                      ("initPlayer", JStr "RUS")])].

Definition fs_no_center : string → option string :=
  two_files (Some (json_dump map_no_center)) (Some (json_dump rules_doc)).

(** ** The move adjudicator

    [Game::movePhase] is declared in the class ([void movePhase();]) and
    has no body in the source.  The definitions of this module follow the
    design of the specification: support strength, support cutting and the
    contest for a destination Part.  Convoys and the detection of chains
    of moves are not part of it: an order set is taken as validated, with
    one order for every unit, so that the units on the board are the Parts
    that carry an order. *)
Module MovePhase.

(** Modelled from the spec: the Order variant of the data model. *)
Inductive Order :=
  | Hold
  | Move (dest : PartPtr)
  | SupportHold (target : PartPtr)
  | SupportMove (target from : PartPtr)
  | Convoy (target from : PartPtr)
  | Retreat (dest : PartPtr)
  | Build
  | Disband.

(** Modelled from the spec: an order is attached to exactly one Part and
    issued by exactly one Player. *)
Record Issued := {
  at_part : PartPtr;
  issuer : PlayerPtr;
  order : Order
}.

#[global] Instance Order_eq_dec : EqDecision Order.
Proof. solve_decision. Defined.

#[global] Instance Issued_eq_dec : EqDecision Issued.
Proof. solve_decision. Defined.

(** Modelled from the spec: the order of the unit on Part [p], if a unit
    is there (one order per unit). *)
Definition order_at (os : list Issued) (p : PartPtr) : option Issued :=
  List.find (λ o, bool_decide (at_part o = p)) os.

(** Modelled from the spec: the occupancy before resolution. *)
Definition occupant (os : list Issued) (p : PartPtr) : option PlayerPtr :=
  issuer <$> order_at os p.

(** Modelled from the spec: a Move order that targets Part [p]. *)
Definition moves_to (p : PartPtr) (o : Issued) : bool :=
  match order o with
  | Move d => bool_decide (d = p)
  | _ => false
  end.

(** Modelled from the spec: all Move orders targeting Part [p]. *)
Definition entrants (os : list Issued) (p : PartPtr) : list Issued :=
  List.filter (moves_to p) os.

(** Modelled from the spec: the Player a Support order is aiding. *)
Definition beneficiary (os : list Issued) (sup : Issued) : option PlayerPtr :=
  match order sup with
  | SupportMove _ from => occupant os from
  | SupportHold target => occupant os target
  | _ => None
  end.

(** Modelled from the spec: the Part the supported action is against. *)
Definition against (sup : Issued) : option PartPtr :=
  match order sup with
  | SupportMove target _ => Some target
  | _ => None
  end.

(** Modelled from the spec: support cutting.  A Support order is cut if
    the supporting unit's own Part is the target of a Move order from a
    Player other than the one the support is aiding, except when the
    move originates from the Part the supported action is against;
    order intents decide, not the success of the move. *)
Definition cuts (os : list Issued) (sup m : Issued) : bool :=
  moves_to (at_part sup) m
  && negb (bool_decide (Some (issuer m) = beneficiary os sup))
  && negb (bool_decide (Some (at_part m) = against sup)).

(** Modelled from the spec: a Support order is cut when some order of the
    set cuts it. *)
Definition is_cut (os : list Issued) (sup : Issued) : bool :=
  existsb (cuts os sup) os.

(** Modelled from the spec: a Support order naming the move from [from]
    to [dest]. *)
Definition supports_move (from dest : PartPtr) (o : Issued) : bool :=
  match order o with
  | SupportMove target f => bool_decide (target = dest ∧ f = from)
  | _ => false
  end.

(** Modelled from the spec: a Support order naming the hold on [p]. *)
Definition supports_hold (p : PartPtr) (o : Issued) : bool :=
  match order o with
  | SupportHold target => bool_decide (target = p)
  | _ => false
  end.

(** Modelled from the spec: support strength.  1 for the unit itself
    plus the uncut Support orders naming it for that specific action. *)
Definition move_strength (os : list Issued) (m : Issued) : nat :=
  match order m with
  | Move d =>
      S (length (List.filter
           (λ o, supports_move (at_part m) d o && negb (is_cut os o)) os))
  | _ => 0
  end.

(** Modelled from the spec: the hold strength of the unit on [p]. *)
Definition hold_strength (os : list Issued) (p : PartPtr) : nat :=
  S (length (List.filter
       (λ o, supports_hold p o && negb (is_cut os o)) os)).

(** Modelled from the spec: the incumbent of a contest is holding, or
    moving elsewhere and thus vacating. *)
Definition vacating (os : list Issued) (p : PartPtr) : bool :=
  match order_at os p with
  | Some o => match order o with
              | Move d => negb (bool_decide (d = p))
              | _ => false
              end
  | None => false
  end.

(** Modelled from the spec: the strength an entrant has to exceed, the
    hold strength of a holding incumbent, nothing for a vacating or absent
    one. *)
Definition defence (os : list Issued) (p : PartPtr) : nat :=
  match order_at os p with
  | Some _ => if vacating os p then 0 else hold_strength os p
  | None => 0
  end.

(** Modelled from the spec: the greatest strength among the entrants. *)
Definition top_strength (os : list Issued) (es : list Issued) : nat :=
  foldr (λ e m, Nat.max (move_strength os e) m) 0%nat es.

(** Modelled from the spec: the entrants of maximal strength. *)
Definition leaders (os : list Issued) (p : PartPtr) : list Issued :=
  List.filter
    (λ e, Nat.eqb (move_strength os e) (top_strength os (entrants os p)))
    (entrants os p).

(** Modelled from the spec: the outcomes of a contest. *)
Inductive Contest :=
  | Uncontested                (* no Move order targets the Part *)
  | Taken (by_ : Issued)       (* the strictly strongest entrant wins *)
  | Repelled                   (* no entrant exceeds the defender *)
  | Standoff.                  (* two or more entrants tie for the maximum *)

(** Modelled from the spec: contest resolution per destination Part.
    The entrant with strictly greatest strength wins the Part, unless
    the incumbent has equal or greater strength; if two or more
    entrants tie for the maximum, the Part is a standoff. *)
Definition contest (os : list Issued) (p : PartPtr) : Contest :=
  match leaders os p with
  | [] => Uncontested
  | [e] => if Nat.ltb (defence os p) (move_strength os e)
           then Taken e else Repelled
  | _ :: _ :: _ => Standoff
  end.

(** Modelled from the spec: an entrant succeeds when it wins the
    contest of its destination. *)
Definition move_succeeds (os : list Issued) (m : Issued) : bool :=
  match order m with
  | Move d => match contest os d with
              | Taken e => bool_decide (e = m)
              | _ => false
              end
  | _ => false
  end.

(** Modelled from the spec: the prior occupant moved away. *)
Definition moved_away (os : list Issued) (p : PartPtr) : bool :=
  match order_at os p with
  | Some o => vacating os p && move_succeeds os o
  | None => false
  end.


(** Modelled from the spec: the occupancy after resolution.  The winner
    of the contest enters; otherwise the prior occupant remains if it
    did not itself move away. *)
Definition occupant_after (os : list Issued) (p : PartPtr)
  : option PlayerPtr :=
  match contest os p with
  | Taken e => Some (issuer e)
  | _ => if moved_away os p then None else occupant os p
  end.

End MovePhase.

(** Two armies of equal support attack the empty Part BUR: player 1 moves
    PAR to BUR with support from GAS, player 2 moves MUN to BUR with
    support from RUH. *)
Definition PAR : PartPtr := (0, 0)%nat.
Definition GAS : PartPtr := (1, 0)%nat.
Definition MUN : PartPtr := (2, 0)%nat.
Definition RUH : PartPtr := (3, 0)%nat.
Definition BUR : PartPtr := (4, 0)%nat.
Definition MAR : PartPtr := (5, 0)%nat.

Definition bounce_in_BUR : list MovePhase.Issued :=
  [ MovePhase.Build_Issued PAR 1%nat (MovePhase.Move BUR);
    MovePhase.Build_Issued GAS 1%nat (MovePhase.SupportMove BUR PAR);
    MovePhase.Build_Issued MUN 2%nat (MovePhase.Move BUR);
    MovePhase.Build_Issued RUH 2%nat (MovePhase.SupportMove BUR MUN) ].


(** A unit of player 3 holds BUR instead. *)
Definition bounce_on_held_BUR : list MovePhase.Issued :=
  bounce_in_BUR ++ [ MovePhase.Build_Issued BUR 3%nat MovePhase.Hold ].

(** The unit of player 3 in BUR moves on to the empty MAR instead. *)
Definition bounce_behind_leaver : list MovePhase.Issued :=
  bounce_in_BUR ++ [ MovePhase.Build_Issued BUR 3%nat (MovePhase.Move MAR) ].

(** ** Vocabulary of the properties *)

(** [s] ends with [suffix]. *)
Fixpoint has_suffix (suffix s : string) : bool :=
  String.eqb s suffix
  || match s with
     | EmptyString => false
     | String _ s' => has_suffix suffix s'
     end.

Definition land_suffix (s : string) : bool := has_suffix "_L" s.

Definition coast_suffix (s : string) : bool :=
  has_suffix "_C" s || has_suffix "_NC" s || has_suffix "_SC" s.

(** The identifier follows the suffix convention of the map description. *)
Definition suffix_convention (s : string) : bool :=
  land_suffix s || coast_suffix s.

(** The name of the initial player of a territory entry, when not null. *)
Definition initPlayer_of (territoryData : json) : option string :=
  match json_at territoryData "initPlayer" with
  | Ok (JStr s) => Some s
  | _ => None
  end.

(** The non-null [initPlayer] names of the map, in iteration order. *)
Definition initPlayers (mapJson : json) : list string :=
  omap (λ it : string * json, initPlayer_of it.2) (items mapJson).

(** The part keys of a territory entry, in iteration order. *)
Definition part_keys (territoryData : json) : list string :=
  List.filter is_part_key (items territoryData).*1.

(** Dereferencing a [Part*]. *)
Definition part_at (g : Game) (ptr : PartPtr) : option Part :=
  t ← allTerritories g !! ptr.1; parts t !! ptr.2.

Definition occupies (player : PlayerPtr) (p : Part) : bool :=
  bool_decide (part_unit p = Some player).

Definition owns (player : PlayerPtr) (t : Territory) : bool :=
  bool_decide (owner t = Some player).

(** The number of Parts a player occupies. *)
Definition parts_occupied (g : Game) (player : PlayerPtr) : nat :=
  sum_list ((λ t, length (List.filter (occupies player) (parts t)))
              <$> allTerritories g).

(** The number of Territories a player owns. *)
Definition territories_owned (g : Game) (player : PlayerPtr) : nat :=
  length (List.filter (owns player) (allTerritories g)).

(** The Parts of a player, as pointers, in the order of the vectors; [k]
    and [ti] are the indices of the heads of the lists. *)
Fixpoint occupied_from (player : PlayerPtr) (ti k : nat) (ps : list Part)
  : list PartPtr :=
  match ps with
  | [] => []
  | p :: ps' =>
      (if occupies player p then [(ti, k)] else [])
      ++ occupied_from player ti (S k) ps'
  end.

Fixpoint occupied_list (player : PlayerPtr) (ti : nat) (ts : list Territory)
  : list PartPtr :=
  match ts with
  | [] => []
  | t :: ts' =>
      occupied_from player ti 0 (parts t) ++ occupied_list player (S ti) ts'
  end.

Fixpoint owned_list (player : PlayerPtr) (ti : nat) (ts : list Territory)
  : list TerritoryPtr :=
  match ts with
  | [] => []
  | t :: ts' =>
      (if owns player t then [ti] else []) ++ owned_list player (S ti) ts'
  end.

(** A territory as the constructor leaves it: no unit, no owner. *)
Definition fresh_territory (t : Territory) : Prop :=
  owner t = None ∧ Forall (λ p, part_unit p = None) (parts t).

(** A player whose counters agree with its vectors, as [int]s. *)
Definition counts_ok (p : Player) : Prop :=
  unitCount p = wrap_int (Z.of_nat (length (units p)))
  ∧ centerCount p = wrap_int (Z.of_nat (length (allowBuild p))).

(** What the inner loop gives every [Part]. *)
Definition built_part (ti : TerritoryPtr) (p : Part) : Prop :=
  neighbors p = [] ∧ belonged p = Some ti ∧ part_unit p = None
  ∧ part_LC (part_name p) = Ok (LC p).

(** What the outer loop gives every [Territory], entry by entry. *)
Definition built_territory (it : string * json) (t : Territory) : Prop :=
  territory_name t = it.1 ∧ owner t = None
  ∧ json_at it.2 "center" ≫= get_unsigned 8 = Ok (center t)
  ∧ part_name <$> parts t = part_keys it.2
  ∧ ∃ ti, Forall (built_part ti) (parts t).

(** A player as the second loop of the constructor creates it. *)
Definition newly_created (p : Player) : Prop :=
  vote p = false ∧ ready p = false ∧ unitCount p = 0 ∧ centerCount p = 0
  ∧ units p = [] ∧ allowBuild p = [].

(** How one iteration of the loop of [initialize], on the territory at
    index [ti] that it leaves as [t'], changes the player at index [i]. *)
Definition player_grows (i : PlayerPtr) (ti : TerritoryPtr) (t' : Territory)
    (pl pl' : Player) : Prop :=
  player_name pl' = player_name pl ∧ vote pl' = vote pl ∧ ready pl' = ready pl
  ∧ units pl' = units pl ++ occupied_from i ti 0 (parts t')
  ∧ allowBuild pl' = allowBuild pl ++ (if owns i t' then [ti] else [])
  ∧ (counts_ok pl → counts_ok pl').

(** What one iteration leaves of a territory, with [n] players in the
    roster. *)
Definition territory_stepped (n : nat) (t t' : Territory) : Prop :=
  territory_name t' = territory_name t ∧ center t' = center t
  ∧ length (parts t') = length (parts t)
  ∧ (owner t' ≠ None → center t' ≠ 0)
  ∧ (∀ i, owner t' = Some i → (i < n)%nat)
  ∧ Forall (λ p, ∀ i, part_unit p = Some i → (i < n)%nat) (parts t')
  ∧ ∀ i ti, (length (occupied_from i ti 0 (parts t')) ≤ 1)%nat.

(** [n] further calls of [initialize], one after the other. *)
Fixpoint initialize_times (parse : string → result json) (n : nat) (g : Game)
  : result Game :=
  match n with
  | O => Ok g
  | S n' => g' ← initialize parse g; initialize_times parse n' g'
  end.

(** ** Vocabulary of the further properties *)

(** The data of a Part that placing a unit does not touch. *)
Definition same_part_data (p p' : Part) : Prop :=
  part_name p' = part_name p ∧ neighbors p' = neighbors p
  ∧ belonged p' = belonged p ∧ LC p' = LC p.

(** The data of a Territory that [initialize] does not touch. *)
Definition same_territory_data (t t' : Territory) : Prop :=
  territory_name t' = territory_name t ∧ center t' = center t
  ∧ Forall2 same_part_data (parts t) (parts t').

(** A player that kept its name and flags and whose vectors only grew at
    the back. *)
Definition player_extends (pl pl' : Player) : Prop :=
  player_name pl' = player_name pl ∧ vote pl' = vote pl ∧ ready pl' = ready pl
  ∧ units pl `prefix_of` units pl'
  ∧ allowBuild pl `prefix_of` allowBuild pl'.

(** The values that convert to an integer type. *)
Definition is_number (j : json) : bool :=
  match j with
  | JNum _ | JBool _ => true
  | _ => false
  end.

Definition is_string (j : json) : bool :=
  match j with
  | JStr _ => true
  | _ => false
  end.

(** [j[key]] can be read and converts to an integer type. *)
Definition numeric_field (j : json) (key : string) : bool :=
  match json_at j key with
  | Ok v => is_number v
  | Throw _ => false
  end.

(** The rules descriptions the constructor accepts. *)
Definition rules_loadable (rulesJson : json) : bool :=
  numeric_field rulesJson "winCondition" && numeric_field rulesJson "buildTime".

(** The territory entries the constructor accepts: a numeric centre flag,
    no empty part key, an initial player that is null or a string. *)
Definition entry_loadable (territoryData : json) : bool :=
  numeric_field territoryData "center"
  && forallb (λ k, negb (String.eqb k EmptyString)) (part_keys territoryData)
  && match json_at territoryData "initPlayer" with
     | Ok JNull | Ok (JStr _) => true
     | _ => false
     end.

Definition map_loadable (mapJson : json) : bool :=
  forallb (λ it : string * json, entry_loadable it.2) (items mapJson).

(** The territory entries [initialize] accepts: no initial player, or an
    initial player and an initial part that are both strings. *)
Definition entry_initialisable (territoryData : json) : bool :=
  match json_at territoryData "initPlayer" with
  | Ok JNull => true
  | Ok (JStr _) =>
      match json_at territoryData "initPart" with
      | Ok v => is_string v
      | Throw _ => false
      end
  | _ => false
  end.

(** The names of [l] that are not in [seen] and not earlier in [l], in
    the order of their first occurrence. *)
Fixpoint first_occurrences (seen l : list string) : list string :=
  match l with
  | [] => []
  | x :: l' =>
      if decide (x ∈ seen) then first_occurrences seen l'
      else x :: first_occurrences (seen ++ [x]) l'
  end.

(** A map with no territory. *)
Definition map_empty : json := JObj [].

Definition fs_empty_map : string → option string :=
  two_files (Some (json_dump map_empty)) (Some (json_dump rules_doc)).

(** A map that names the pseudo-player as the initial player of a centre. *)
Definition map_public : json :=
  JObj [("LON", JObj [("LON_C", names ["NTH"]);
                      ("center", JNum 1); ("initPart", JStr "LON_C");
                      ("initPlayer", JStr "public")])].

Definition fs_public : string → option string :=
  two_files (Some (json_dump map_public)) (Some (json_dump rules_doc)).

(** * Properties *)

(** ** The error monad *)

Lemma bind_Ok {A B} (m : result A) (f : A → result B) (b : B) :
  m ≫= f = Ok b → ∃ a, m = Ok a ∧ f a = Ok b.
Proof. destruct m as [a|e]; [eauto | discriminate]. Qed.

Lemma bind_Throw {A B} (m : result A) (f : A → result B) (e : exn) :
  m = Throw e → m ≫= f = Throw e.
Proof. now intros ->. Qed.

Lemma bind_Ok_eq {A B} (m : result A) (f : A → result B) (a : A) :
  m = Ok a → m ≫= f = f a.
Proof. now intros ->. Qed.

Ltac bind_inv H x Hx :=
  apply bind_Ok in H; destruct H as (x & Hx & H).

(** ** Fatal start-up errors *)

Section Startup.
Variable parse : string → result json.
Variable dump : json → string.
Variable play : Game → result Game.

Lemma main_reports (fs : string → option string) (e : exn) :
  Game_ctor parse dump fs "map.json" "rules.json" = Throw e →
  main parse dump play fs
  = {| exit_code := 1; stderr := "Error: " +:+ what e +:+ endl |}.
Proof. unfold main. now intros ->. Qed.

Lemma ctor_missing_file (fs : string → option string) (mapPath rulesPath : string) :
  fs mapPath = None ∨ fs rulesPath = None →
  Game_ctor parse dump fs mapPath rulesPath
  = Throw (runtime_error "Failed to open input files").
Proof.
  unfold Game_ctor. intros [-> | ->]; [reflexivity|].
  now destruct (fs mapPath).
Qed.

Lemma ctor_unparseable (fs : string → option string) (mapPath rulesPath : string) :
  (∃ t e, fs mapPath = Some t ∧ parse t = Throw e)
  ∨ (∃ t e, fs rulesPath = Some t ∧ parse t = Throw e) →
  ∃ e, Game_ctor parse dump fs mapPath rulesPath = Throw e.
Proof.
  unfold Game_ctor.
  intros [(t & e & -> & Ht) | (t & e & -> & Ht)].
  - destruct (fs rulesPath); [rewrite Ht|]; eauto.
  - destruct (fs mapPath) as [m|]; [|eauto].
    destruct (parse m); [rewrite Ht|]; eauto.
Qed.

(** C3: when the map file or the rules file cannot be opened or cannot be
    parsed, the constructor throws, and [main] prints the message of the
    exception after "Error: " on the standard error stream and returns 1. *)
Theorem startup_error_aborts (fs : string → option string) :
  fs "map.json" = None ∨ fs "rules.json" = None
  ∨ (∃ t e, fs "map.json" = Some t ∧ parse t = Throw e)
  ∨ (∃ t e, fs "rules.json" = Some t ∧ parse t = Throw e) →
  ∃ e, Game_ctor parse dump fs "map.json" "rules.json" = Throw e
       ∧ main parse dump play fs
         = {| exit_code := 1; stderr := "Error: " +:+ what e +:+ endl |}
       ∧ exit_code (main parse dump play fs) ≠ 0.
Proof.
  intros H.
  assert (∃ e, Game_ctor parse dump fs "map.json" "rules.json" = Throw e)
    as [e He].
  { destruct H as [H | [H | H]].
    - eexists. apply ctor_missing_file. now left.
    - eexists. apply ctor_missing_file. now right.
    - now apply ctor_unparseable. }
  exists e. split; [exact He|].
  rewrite (main_reports _ _ He). split; [reflexivity | discriminate].
Qed.

End Startup.

(** A run with no map file, and a run whose map file holds text that is
    not JSON. *)
Lemma startup_error_aborts_witness :
  ∃ e, Game_ctor (parse_docs docs) json_dump
         (two_files None (Some (json_dump rules_doc))) "map.json" "rules.json"
       = Throw e
       ∧ main (parse_docs docs) json_dump Ok
           (two_files None (Some (json_dump rules_doc)))
         = {| exit_code := 1; stderr := "Error: " +:+ what e +:+ endl |}
       ∧ exit_code (main (parse_docs docs) json_dump Ok
                      (two_files None (Some (json_dump rules_doc)))) ≠ 0.
Proof.
  apply (startup_error_aborts (parse_docs docs) json_dump Ok).
  left. reflexivity.
Defined.

Example missing_map_message :
  main (parse_docs docs) json_dump Ok
    (two_files None (Some (json_dump rules_doc)))
  = {| exit_code := 1;
       stderr := "Error: Failed to open input files" +:+ endl |}.
Proof. reflexivity. Qed.

Example garbled_map_message :
  main (parse_docs docs) json_dump Ok
    (two_files (Some "{LON:") (Some (json_dump rules_doc)))
  = {| exit_code := 1;
       stderr := "Error: parse error at line 1, column 1" +:+ endl |}.
Proof. vm_compute. reflexivity. Qed.

(** ** The constructor *)

Section Constructor.
Variable parse : string → result json.
Variable dump : json → string.

Lemma ctor_Ok_inv (fs : string → option string) (mapPath rulesPath : string)
    (g : Game) :
  Game_ctor parse dump fs mapPath rulesPath = Ok g →
  ∃ mapFile rulesFile mapJson rulesJson dt,
    fs mapPath = Some mapFile ∧ fs rulesPath = Some rulesFile
    ∧ parse mapFile = Ok mapJson ∧ parse rulesFile = Ok rulesJson
    ∧ build_territories 0 (items mapJson) = Ok (allTerritories g)
    ∧ collect_players (items mapJson) ∅ [publicPlayer] = Ok (allPlayers g)
    ∧ mapRaw g = dump mapJson
    ∧ json_at rulesJson "drawType" = Ok dt
    ∧ drawType g = (if json_eq_string dt "DSS" then 0 else 1).
Proof.
  unfold Game_ctor. intros H.
  destruct (fs mapPath) as [mapFile|]; [|discriminate].
  destruct (fs rulesPath) as [rulesFile|]; [|discriminate].
  bind_inv H mapJson Hm. bind_inv H rulesJson Hr.
  bind_inv H wc0 Hwc0. bind_inv H wc Hwc. bind_inv H br Hbr.
  bind_inv H bt0 Hbt0. bind_inv H bt Hbt. bind_inv H vs Hvs.
  bind_inv H dt Hdt. bind_inv H ts Hts. bind_inv H ps Hps.
  injection H as <-. cbn.
  exists mapFile, rulesFile, mapJson, rulesJson, dt. repeat split; assumption.
Qed.

(** C4, as the code has it: a [drawType] that is not "DSS" never makes the
    constructor fail.  Whenever the two files parse, the two numeric rules
    convert and the map loads, construction succeeds, and every value of
    [drawType] other than "DSS" (unknown names, "SoS", values that are no
    strings) is stored as 1, the code of SoS. *)
Theorem unknown_drawType_loads_as_SoS (fs : string → option string)
    (mapPath rulesPath mapFile rulesFile : string) (mapJson rulesJson : json)
    (wc bt : Z) (dt : json) (ts : list Territory) (ps : list Player) :
  fs mapPath = Some mapFile → fs rulesPath = Some rulesFile →
  parse mapFile = Ok mapJson → parse rulesFile = Ok rulesJson →
  json_at rulesJson "winCondition" ≫= get_unsigned 32 = Ok wc →
  json_at rulesJson "buildTime" ≫= get_unsigned 32 = Ok bt →
  build_territories 0 (items mapJson) = Ok ts →
  collect_players (items mapJson) ∅ [publicPlayer] = Ok ps →
  json_at rulesJson "drawType" = Ok dt →
  dt ≠ JStr "DSS" →
  ∃ g, Game_ctor parse dump fs mapPath rulesPath = Ok g
       ∧ drawType g = 1
       ∧ allTerritories g = ts ∧ allPlayers g = ps.
Proof.
  intros Hfm Hfr Hpm Hpr Hwc Hbt Hts Hps Hdt Hne.
  unfold Game_ctor. rewrite Hfm, Hfr, Hpm, Hpr. cbn.
  bind_inv Hwc wc0 Hwc0. rewrite Hwc0. cbn. rewrite Hwc. cbn.
  assert (∃ br, json_at rulesJson "buildRule" = Ok br) as [br Hbr].
  { destruct rulesJson; try discriminate; cbn; eauto. }
  assert (∃ vs, json_at rulesJson "voteShown" = Ok vs) as [vs Hvs].
  { destruct rulesJson; try discriminate; cbn; eauto. }
  rewrite Hbr. cbn.
  bind_inv Hbt bt0 Hbt0. rewrite Hbt0. cbn. rewrite Hbt. cbn.
  rewrite Hvs. cbn. rewrite Hdt. cbn. rewrite Hts. cbn. rewrite Hps. cbn.
  eexists. split; [reflexivity|]. cbn. repeat split.
  destruct dt as [| | |s| |]; try reflexivity. cbn.
  destruct (String.eqb_spec s "DSS") as [->|]; [congruence | reflexivity].
Qed.

End Constructor.

(** The draw type "XYZ" is neither "DSS" nor "SoS", and the constructor
    returns a game, with draw policy 1. *)
Lemma unknown_drawType_does_not_fail :
  json_at rules_unknown_draw "drawType" = Ok (JStr "XYZ")
  ∧ ¬ (∃ e, Game_ctor (parse_docs [map_doc; rules_unknown_draw]) json_dump
              fs_unknown_draw "map.json" "rules.json" = Throw e)
  ∧ drawType <$> (match Game_ctor (parse_docs [map_doc; rules_unknown_draw])
                          json_dump fs_unknown_draw "map.json" "rules.json"
                  with Ok g => Some g | Throw _ => None end) = Some 1.
Proof.
  split; [reflexivity|]. split.
  - intros [e He]. vm_compute in He. discriminate.
  - vm_compute. reflexivity.
Qed.

Lemma unknown_drawType_loads_as_SoS_witness :
  ∃ ts ps g,
    Game_ctor (parse_docs [map_doc; rules_unknown_draw]) json_dump
      fs_unknown_draw "map.json" "rules.json" = Ok g
    ∧ drawType g = 1 ∧ allTerritories g = ts ∧ allPlayers g = ps.
Proof.
  do 2 eexists.
  eapply (unknown_drawType_loads_as_SoS
            (parse_docs [map_doc; rules_unknown_draw]) json_dump
            fs_unknown_draw "map.json" "rules.json"
            (json_dump map_doc) (json_dump rules_unknown_draw)
            map_doc rules_unknown_draw 18 4 (JStr "XYZ"));
    try (vm_compute; reflexivity).
  discriminate.
Defined.

(** ** The territories and parts the constructor builds *)

Lemma build_parts_spec (ti : TerritoryPtr) (its : list (string * json))
    (ps : list Part) :
  build_parts ti its = Ok ps →
  part_name <$> ps = List.filter is_part_key its.*1
  ∧ Forall (built_part ti) ps.
Proof.
  revert ps. induction its as [|[partName nb] rest IH]; intros ps H; cbn in H.
  - injection H as <-. split; [reflexivity | constructor].
  - cbn. destruct (is_part_key partName).
    + bind_inv H lc Hlc. bind_inv H ps' Hps'. injection H as <-.
      destruct (IH _ Hps') as [Hn Hf]. split.
      * cbn. now rewrite Hn.
      * constructor; [|exact Hf]. repeat split; assumption.
    + now apply IH.
Qed.

Lemma build_territories_spec (n : nat) (its : list (string * json))
    (ts : list Territory) :
  build_territories n its = Ok ts → Forall2 built_territory its ts.
Proof.
  revert n ts. induction its as [|[name data] rest IH]; intros n ts H; cbn in H.
  - injection H as <-. constructor.
  - bind_inv H c0 Hc0. bind_inv H c Hc. bind_inv H ps Hps.
    bind_inv H ts' Hts'. injection H as <-.
    destruct (build_parts_spec _ _ _ Hps) as [Hn Hf].
    constructor; [|now apply (IH (S n))].
    repeat split; cbn; try assumption.
    + now rewrite Hc0.
    + now exists n.
Qed.

Section Loaded.
Variable parse : string → result json.
Variable dump : json → string.

(** Every [Part] of a constructed game is as the inner loop built it. *)
Lemma ctor_parts_built (fs : string → option string) (mapPath rulesPath : string)
    (g : Game) (ti k : nat) (t : Territory) (p : Part) :
  Game_ctor parse dump fs mapPath rulesPath = Ok g →
  allTerritories g !! ti = Some t → parts t !! k = Some p →
  ∃ ti', built_part ti' p.
Proof.
  intros Hg Ht Hp.
  destruct (ctor_Ok_inv _ _ _ _ _ _ Hg)
    as (mf & rf & mj & rj & dt & _ & _ & _ & _ & Hts & _).
  apply build_territories_spec in Hts.
  destruct (Forall2_lookup_r _ _ _ _ _ Hts Ht) as (it & _ & Hb).
  destruct Hb as (_ & _ & _ & _ & ti' & Hf).
  exists ti'. rewrite Forall_lookup in Hf. now apply (Hf k).
Qed.

(** After construction no [Part] has a neighbour, whatever the map lists. *)
Lemma ctor_neighbors_empty (fs : string → option string)
    (mapPath rulesPath : string) (g : Game) (ptr : PartPtr) (p : Part) :
  Game_ctor parse dump fs mapPath rulesPath = Ok g →
  part_at g ptr = Some p → neighbors p = [].
Proof.
  intros Hg Hp. unfold part_at in Hp.
  destruct (allTerritories g !! ptr.1) as [t|] eqn:Ht; [|discriminate].
  cbn in Hp. destruct (ctor_parts_built _ _ _ _ _ _ _ _ Hg Ht Hp) as (? & H & _).
  exact H.
Qed.

End Loaded.

(** C1, on the map of the header comment: the map gives LON_C the four
    neighbours YOR, WAL, ENG and NTH, and the constructed game holds the
    Part LON_C with an empty neighbour list. *)
Theorem neighbors_not_loaded :
  (json_at map_doc "LON" ≫= λ d, json_at d "LON_C")
  = Ok (names ["YOR"; "WAL"; "ENG"; "NTH"])
  ∧ ∃ g, Game_ctor (parse_docs docs) json_dump fs_doc "map.json" "rules.json"
         = Ok g
    ∧ part_name <$> part_at g (1, 0)%nat = Some "LON_C"
    ∧ neighbors <$> part_at g (1, 0)%nat = Some [].
Proof.
  split; [reflexivity|]. eexists. split; [vm_compute; reflexivity|].
  split; reflexivity.
Qed.

(** ** Coast and land *)

Lemma append_assoc (a b c : string) : (a +:+ b) +:+ c = a +:+ (b +:+ c).
Proof.
  induction a as [|x a IH]; [reflexivity|].
  change (String x ((a +:+ b) +:+ c) = String x (a +:+ (b +:+ c))).
  now rewrite IH.
Qed.

Lemma length_append (a b : string) :
  String.length (a +:+ b) = (String.length a + String.length b)%nat.
Proof.
  induction a as [|x a IH]; [reflexivity|].
  change (S (String.length (a +:+ b)) = S (String.length a + String.length b)).
  now rewrite IH.
Qed.

Lemma substring_append (a b : string) (n : nat) :
  String.substring (String.length a) n (a +:+ b) = String.substring 0 n b.
Proof. induction a as [|x a IH]; [reflexivity | exact IH]. Qed.

Lemma has_suffix_nil (suffix : string) :
  has_suffix suffix EmptyString = String.eqb EmptyString suffix.
Proof. cbn [has_suffix]. apply orb_false_r. Qed.

Lemma has_suffix_cons (suffix : string) (c : Ascii.ascii) (s : string) :
  has_suffix suffix (String c s)
  = String.eqb (String c s) suffix || has_suffix suffix s.
Proof. reflexivity. Qed.

Lemma has_suffix_spec (suffix s : string) :
  has_suffix suffix s = true ↔ ∃ stem, s = stem +:+ suffix.
Proof.
  induction s as [|c s IH].
  - rewrite has_suffix_nil, String.eqb_eq. split.
    + intros <-. now exists EmptyString.
    + intros [[|c stem] H]; cbn in H; [exact H | discriminate].
  - rewrite has_suffix_cons, orb_true_iff, String.eqb_eq, IH. split.
    + intros [<- | [stem ->]]; [now exists EmptyString|].
      now exists (String c stem).
    + intros [[|c' stem] H]; [now left|].
      change (String c s = String c' (stem +:+ suffix)) in H.
      injection H as -> ->. right. now exists stem.
Qed.

(** The classification looks at the last character of the identifier. *)
Lemma part_LC_last (stem : string) (c : Ascii.ascii) :
  Z.of_nat (String.length (stem +:+ String c EmptyString)) < 2 ^ 64 →
  part_LC (stem +:+ String c EmptyString)
  = Ok (if Ascii.eqb c "C"%char then 1 else 0).
Proof.
  intros Hlen. unfold part_LC, substr, wrap_size.
  rewrite length_append in *. cbn [String.length] in *.
  rewrite Z.mod_small by lia.
  destruct (Z.ltb_spec (Z.of_nat (String.length stem + 1))
              (Z.of_nat (String.length stem + 1) - 1)) as [?|_]; [lia|].
  replace (Z.to_nat (Z.of_nat (String.length stem + 1) - 1))
    with (String.length stem) by lia.
  replace (String.length stem + 1 - String.length stem)%nat with 1%nat by lia.
  rewrite substring_append. cbn.
  now destruct (Ascii.eqb c "C"%char).
Qed.

Lemma part_LC_suffix (suffix s : string) (c : Ascii.ascii) :
  Z.of_nat (String.length s) < 2 ^ 64 →
  has_suffix (suffix +:+ String c EmptyString) s = true →
  part_LC s = Ok (if Ascii.eqb c "C"%char then 1 else 0).
Proof.
  intros Hlen [stem ->]%has_suffix_spec.
  rewrite <- append_assoc in *. now apply part_LC_last.
Qed.

Lemma coast_suffix_LC (s : string) :
  Z.of_nat (String.length s) < 2 ^ 64 →
  coast_suffix s = true → part_LC s = Ok 1.
Proof.
  intros Hlen. unfold coast_suffix. rewrite !orb_true_iff.
  intros [[H | H] | H].
  - exact (part_LC_suffix "_" s "C"%char Hlen H).
  - exact (part_LC_suffix "_N" s "C"%char Hlen H).
  - exact (part_LC_suffix "_S" s "C"%char Hlen H).
Qed.

Lemma land_suffix_LC (s : string) :
  Z.of_nat (String.length s) < 2 ^ 64 →
  land_suffix s = true → part_LC s = Ok 0.
Proof. intros Hlen H. exact (part_LC_suffix "_" s "L"%char Hlen H). Qed.

(** C8: the constructor classifies every loaded Part whose identifier
    carries a coast suffix ([_C], [_NC], [_SC]) as coast, [LC = 1], and
    every Part whose identifier carries [_L] as land, [LC = 0]; for the
    identifiers of the suffix convention of the map description (those
    that end in one of the four suffixes) the Part is coast exactly when
    the suffix is a coast suffix and land exactly when it is [_L]. *)
Theorem coast_agrees_with_suffix (parse : string → result json)
    (dump : json → string) (fs : string → option string)
    (mapPath rulesPath : string) (g : Game) (ptr : PartPtr) (p : Part) :
  Game_ctor parse dump fs mapPath rulesPath = Ok g →
  part_at g ptr = Some p →
  Z.of_nat (String.length (part_name p)) < 2 ^ 64 →
  (coast_suffix (part_name p) = true → LC p = 1)
  ∧ (land_suffix (part_name p) = true → LC p = 0)
  ∧ (suffix_convention (part_name p) = true →
     (LC p = 1 ↔ coast_suffix (part_name p) = true)
     ∧ (LC p = 0 ↔ land_suffix (part_name p) = true)).
Proof.
  intros Hg Hp Hlen. unfold part_at in Hp.
  destruct (allTerritories g !! ptr.1) as [t|] eqn:Ht; [|discriminate].
  cbn in Hp.
  destruct (ctor_parts_built _ _ _ _ _ _ _ _ _ _ Hg Ht Hp)
    as (ti & _ & _ & _ & HLC).
  assert (coast_suffix (part_name p) = true → LC p = 1) as Hcoast.
  { intros H. pose proof (coast_suffix_LC _ Hlen H). congruence. }
  assert (land_suffix (part_name p) = true → LC p = 0) as Hland.
  { intros H. pose proof (land_suffix_LC _ Hlen H). congruence. }
  split; [exact Hcoast|]. split; [exact Hland|].
  intros Hconv. unfold suffix_convention in Hconv.
  apply orb_true_iff in Hconv as [H | H].
  - pose proof (Hland H) as H0.
    split; split; intros H'; try assumption; [lia|].
    specialize (Hcoast H'). lia.
  - pose proof (Hcoast H) as H1.
    split; split; intros H'; try assumption; [lia|].
    specialize (Hland H'). lia.
Qed.

Lemma coast_agrees_with_suffix_witness :
  ∃ g p,
    Game_ctor (parse_docs docs) json_dump fs_doc "map.json" "rules.json" = Ok g
    ∧ part_at g (2, 1)%nat = Some p
    ∧ part_name p = "STP_NC"
    ∧ (coast_suffix (part_name p) = true → LC p = 1)
    ∧ (land_suffix (part_name p) = true → LC p = 0)
    ∧ (suffix_convention (part_name p) = true →
       (LC p = 1 ↔ coast_suffix (part_name p) = true)
       ∧ (LC p = 0 ↔ land_suffix (part_name p) = true)).
Proof.
  eexists. eexists.
  split; [vm_compute; reflexivity|].
  split; [reflexivity|]. split; [reflexivity|].
  eapply (coast_agrees_with_suffix (parse_docs docs) json_dump fs_doc
            "map.json" "rules.json" _ (2, 1)%nat).
  - vm_compute. reflexivity.
  - reflexivity.
  - vm_compute. reflexivity.
Defined.

(** Outside the convention the last character alone decides. *)
Example coast_without_suffix :
  part_LC "ABC" = Ok 1 ∧ coast_suffix "ABC" = false
  ∧ part_LC "NTH" = Ok 0 ∧ land_suffix "NTH" = false
  ∧ ∃ e, part_LC EmptyString = Throw e.
Proof. vm_compute. repeat split; eauto. Qed.

(** A part with the empty key: [size() - 1] wraps to the greatest
    [size_t], and [substr] throws. *)
Example empty_part_key_message :
  part_LC EmptyString
  = Throw (out_of_range
             ("basic_string::substr: __pos (which is 18446744073709551615)"
              +:+ " > this->size() (which is 0)")).
Proof. vm_compute. reflexivity. Qed.

(** ** The roster *)

Lemma collect_players_spec (its : list (string * json))
    (playerMap : gmap string PlayerPtr) (acc ps : list Player) :
  collect_players its playerMap (publicPlayer :: acc) = Ok ps →
  (∀ n, is_Some (playerMap !! n) ↔ n ∈ player_name <$> acc) →
  NoDup (player_name <$> acc) →
  ∃ more,
    ps = publicPlayer :: acc ++ more
    ∧ NoDup (player_name <$> acc ++ more)
    ∧ (∀ n, n ∈ player_name <$> acc ++ more
            ↔ n ∈ player_name <$> acc
              ∨ n ∈ omap (λ it : string * json, initPlayer_of it.2) its)
    ∧ Forall newly_created more.
Proof.
  revert playerMap acc.
  induction its as [|[name data] rest IH]; intros pm acc H Hpm Hnd; cbn in H.
  - injection H as <-. exists []. rewrite app_nil_r. cbn.
    repeat split; [assumption | tauto | | constructor].
    intros [?|Hin]; [assumption | inversion Hin].
  - bind_inv H ip Hip. cbn [omap list_omap]. unfold initPlayer_of at 1.
    cbn [snd]. rewrite Hip.
    destruct (is_null ip) eqn:Hnull.
    { destruct ip; try discriminate. exact (IH _ _ H Hpm Hnd). }
    bind_inv H playerName Hname.
    destruct ip as [| | |s| |]; try discriminate. injection Hname as ->.
    destruct (pm !! playerName) as [i|] eqn:Hlook.
    + destruct (IH _ _ H Hpm Hnd) as (more & -> & Hnd' & Hin & Hnew).
      exists more. repeat split; try assumption.
      * intros Hn. apply Hin in Hn as [?|?]; [now left|].
        right. now apply list_elem_of_further.
      * intros [?|Hn]; [apply Hin; now left|].
        apply elem_of_cons in Hn as [->|?]; apply Hin; [left | now right].
        apply Hpm. now exists i.
    + assert (playerName ∉ player_name <$> acc) as Hfresh.
      { intros Hn. apply Hpm in Hn as [? ?]. congruence. }
      change (publicPlayer :: acc ++ [new_player playerName])
        with (publicPlayer :: (acc ++ [new_player playerName])) in H.
      change (length (publicPlayer :: acc)) with (S (length acc)) in H.
      destruct (IH _ (acc ++ [new_player playerName]) H)
        as (more & -> & Hnd' & Hin & Hnew).
      * intros n. rewrite fmap_app, elem_of_app. cbn.
        rewrite list_elem_of_singleton, lookup_insert_is_Some. split.
        -- intros [->|[_ Hs]]; [now right | left; now apply Hpm].
        -- intros [Hn | ->]; [|now left].
           destruct (decide (playerName = n)) as [->|Hne]; [now left|].
           right. split; [assumption | now apply Hpm].
      * rewrite fmap_app. apply NoDup_app. repeat split; try assumption.
        -- intros n Hn Hn'. cbn in Hn'. apply list_elem_of_singleton in Hn'.
           now subst.
        -- cbn. apply NoDup_singleton.
      * exists (new_player playerName :: more).
        rewrite <- app_assoc in *. cbn [app] in *.
        repeat split; try assumption.
        -- intros Hn. apply Hin in Hn as [Hn|Hn].
           ++ rewrite fmap_app, elem_of_app in Hn. cbn in Hn.
              rewrite list_elem_of_singleton in Hn.
              destruct Hn as [?| ->]; [now left | right; left].
           ++ right. now right.
        -- intros Hn. apply Hin. rewrite fmap_app, elem_of_app. cbn.
           rewrite list_elem_of_singleton.
           destruct Hn as [?|Hn]; [now left; left|].
           apply elem_of_cons in Hn as [->|?]; [left; now right | now right].
        -- constructor; [|assumption]. now repeat split.
Qed.

(** The roster of a constructed game, in the terms of the second loop. *)
Lemma ctor_players (parse : string → result json) (dump : json → string)
    (fs : string → option string) (mapPath rulesPath : string) (g : Game) :
  Game_ctor parse dump fs mapPath rulesPath = Ok g →
  ∃ mapFile mapJson more,
    fs mapPath = Some mapFile ∧ parse mapFile = Ok mapJson
    ∧ allPlayers g = publicPlayer :: more
    ∧ NoDup (player_name <$> more)
    ∧ (∀ n, n ∈ player_name <$> more
            ↔ n ∈ omap (λ it : string * json, initPlayer_of it.2)
                    (items mapJson))
    ∧ Forall newly_created more.
Proof.
  intros Hg.
  destruct (ctor_Ok_inv _ _ _ _ _ _ Hg)
    as (mf & rf & mj & rj & dt & Hfm & _ & Hpm & _ & _ & Hps & _).
  destruct (collect_players_spec _ ∅ [] _ Hps) as (more & Heq & Hnd & Hin & Hnew).
  - intros n. rewrite lookup_empty. cbn. split.
    + intros [? ?]. discriminate.
    + intros Hn. inversion Hn.
  - constructor.
  - exists mf, mj, more. cbn [app] in *. repeat split; try assumption.
    + intros Hn. apply Hin in Hn as [Hn|Hn]; [inversion Hn | exact Hn].
    + intros Hn. apply Hin. now right.
Qed.

(** C9: the constructor puts the pseudo-player "public" first in the
    roster, with no unit, no centre, and both its vote and its ready flag
    set; the rest of the roster holds exactly one player for every
    distinct non-null [initPlayer] name of the map, each with vote and
    ready flag cleared and no unit and no centre yet. *)
Theorem ctor_roster (parse : string → result json) (dump : json → string)
    (fs : string → option string) (mapPath rulesPath : string) (g : Game) :
  Game_ctor parse dump fs mapPath rulesPath = Ok g →
  ∃ mapFile mapJson players,
    fs mapPath = Some mapFile ∧ parse mapFile = Ok mapJson
    ∧ allPlayers g
      = {| player_name := "public"; allowBuild := []; centerCount := 0;
           unitCount := 0; units := []; vote := true; ready := true |}
        :: players
    ∧ NoDup (player_name <$> players)
    ∧ (∀ n, n ∈ player_name <$> players ↔ n ∈ initPlayers mapJson)
    ∧ Forall newly_created players.
Proof.
  intros Hg.
  destruct (ctor_players _ _ _ _ _ _ Hg)
    as (mf & mj & more & Hfm & Hpm & Heq & Hnd & Hin & Hnew).
  exists mf, mj, more. unfold initPlayers.
  split; [exact Hfm|]. split; [exact Hpm|].
  split; [rewrite Heq; reflexivity|].
  split; [exact Hnd|]. split; [exact Hin | exact Hnew].
Qed.

Lemma ctor_roster_witness :
  ∃ mapFile mapJson players,
    fs_doc "map.json" = Some mapFile ∧ parse_docs docs mapFile = Ok mapJson
    ∧ (∃ g, Game_ctor (parse_docs docs) json_dump fs_doc "map.json" "rules.json"
            = Ok g
         ∧ allPlayers g
           = {| player_name := "public"; allowBuild := []; centerCount := 0;
                unitCount := 0; units := []; vote := true; ready := true |}
             :: players)
    ∧ NoDup (player_name <$> players)
    ∧ (∀ n, n ∈ player_name <$> players ↔ n ∈ initPlayers mapJson)
    ∧ Forall newly_created players.
Proof.
  destruct (Game_ctor (parse_docs docs) json_dump fs_doc "map.json" "rules.json")
    as [g|e] eqn:Hg; [|vm_compute in Hg; discriminate].
  destruct (ctor_roster _ _ _ _ _ _ Hg)
    as (mf & mj & players & H1 & H2 & H3 & H4 & H5 & H6).
  exists mf, mj, players. repeat split; try assumption.
  - now exists g.
  - now apply H5.
  - now apply H5.
Defined.

Example roster_of_the_header_map :
  (allPlayers <$> match Game_ctor (parse_docs docs) json_dump fs_doc
                          "map.json" "rules.json"
                  with Ok g => Some g | Throw _ => None end)
  = Some [publicPlayer; new_player "ENG"; new_player "RUS"]
  ∧ initPlayers map_doc = ["ENG"; "RUS"; "RUS"].
Proof. vm_compute. split; reflexivity. Qed.

(** ** Machine integers *)

Lemma wrap_int_small (z : Z) : - 2 ^ 31 ≤ z ≤ INT_MAX → wrap_int z = z.
Proof. unfold wrap_int, INT_MAX. intros H. rewrite Z.mod_small; lia. Qed.

Lemma int_incr_wrap (z : Z) : int_incr (wrap_int z) = wrap_int (z + 1).
Proof.
  unfold int_incr, wrap_int. f_equal.
  replace ((z + 2 ^ 31) mod 2 ^ 32 - 2 ^ 31 + 1 + 2 ^ 31)
    with ((z + 2 ^ 31) mod 2 ^ 32 + 1) by lia.
  replace (z + 1 + 2 ^ 31) with (z + 2 ^ 31 + 1) by lia.
  rewrite Zplus_mod_idemp_l. reflexivity.
Qed.

(** ** The Parts a player occupies, the Territories it owns *)

Lemma occupies_true (i : PlayerPtr) (p : Part) :
  occupies i p = true ↔ part_unit p = Some i.
Proof. apply bool_decide_eq_true. Qed.

Lemma owns_true (i : PlayerPtr) (t : Territory) :
  owns i t = true ↔ owner t = Some i.
Proof. apply bool_decide_eq_true. Qed.

Lemma elem_of_occupied_from (i : PlayerPtr) (ti k : nat) (ps : list Part)
    (ptr : PartPtr) :
  ptr ∈ occupied_from i ti k ps
  ↔ ∃ j p, ptr = (ti, (k + j)%nat) ∧ ps !! j = Some p ∧ part_unit p = Some i.
Proof.
  revert k. induction ps as [|p ps IH]; intros k; cbn [occupied_from].
  - split; [intros H; inversion H | intros (j & p & _ & H & _); discriminate].
  - rewrite elem_of_app, IH. split.
    + intros [H | (j & q & -> & Hq & Hu)].
      * destruct (occupies i p) eqn:Ho; [|inversion H].
        apply list_elem_of_singleton in H as ->.
        exists 0%nat, p. rewrite Nat.add_0_r. repeat split.
        now apply occupies_true.
      * exists (S j), q. repeat split; try assumption. f_equal. lia.
    + intros ([|j] & q & -> & Hq & Hu).
      * left. injection Hq as ->. apply occupies_true in Hu. rewrite Hu.
        rewrite Nat.add_0_r. apply list_elem_of_here.
      * right. exists j, q. repeat split; try assumption. f_equal. lia.
Qed.


Lemma length_occupied_from (i : PlayerPtr) (ti k : nat) (ps : list Part) :
  length (occupied_from i ti k ps) = length (List.filter (occupies i) ps).
Proof.
  revert k. induction ps as [|p ps IH]; intros k; cbn; [reflexivity|].
  rewrite length_app, IH. now destruct (occupies i p).
Qed.

Lemma elem_of_occupied_list (i : PlayerPtr) (ti : nat) (ts : list Territory)
    (ptr : PartPtr) :
  ptr ∈ occupied_list i ti ts
  ↔ ∃ j t p, ptr.1 = (ti + j)%nat ∧ ts !! j = Some t
             ∧ parts t !! ptr.2 = Some p ∧ part_unit p = Some i.
Proof.
  revert ti. induction ts as [|t ts IH]; intros ti; cbn [occupied_list].
  - split; [intros H; inversion H | intros (j & ? & ? & _ & H & _); discriminate].
  - rewrite elem_of_app, IH, elem_of_occupied_from. split.
    + intros [(j & p & -> & Hp & Hu) | (j & t' & p & Hj & Ht & Hp & Hu)].
      * exists 0%nat, t, p. cbn. rewrite Nat.add_0_r. now repeat split.
      * exists (S j), t', p. repeat split; try assumption. lia.
    + intros ([|j] & t' & p & Hj & Ht & Hp & Hu).
      * left. injection Ht as ->. exists ptr.2, p.
        destruct ptr as [a b]. cbn in *. repeat split; try assumption.
        f_equal. lia.
      * right. exists j, t', p. repeat split; try assumption. lia.
Qed.


Lemma length_occupied_list (i : PlayerPtr) (ti : nat) (ts : list Territory) :
  length (occupied_list i ti ts)
  = sum_list ((λ t, length (List.filter (occupies i) (parts t))) <$> ts).
Proof.
  revert ti. induction ts as [|t ts IH]; intros ti; cbn; [reflexivity|].
  now rewrite length_app, IH, length_occupied_from.
Qed.

Lemma elem_of_owned_list (i : PlayerPtr) (ti : nat) (ts : list Territory)
    (a : TerritoryPtr) :
  a ∈ owned_list i ti ts
  ↔ ∃ j t, a = (ti + j)%nat ∧ ts !! j = Some t ∧ owner t = Some i.
Proof.
  revert ti. induction ts as [|t ts IH]; intros ti; cbn [owned_list].
  - split; [intros H; inversion H | intros (j & ? & _ & H & _); discriminate].
  - rewrite elem_of_app, IH. split.
    + intros [H | (j & t' & -> & Ht & Ho)].
      * destruct (owns i t) eqn:Ho; [|inversion H].
        apply list_elem_of_singleton in H as ->.
        exists 0%nat, t. rewrite Nat.add_0_r. repeat split.
        now apply owns_true.
      * exists (S j), t'. repeat split; try assumption. lia.
    + intros ([|j] & t' & -> & Ht & Ho).
      * left. injection Ht as ->. apply owns_true in Ho. rewrite Ho.
        rewrite Nat.add_0_r. apply list_elem_of_here.
      * right. exists j, t'. repeat split; try assumption. lia.
Qed.

Lemma length_owned_list (i : PlayerPtr) (ti : nat) (ts : list Territory) :
  length (owned_list i ti ts) = length (List.filter (owns i) ts).
Proof.
  revert ti. induction ts as [|t ts IH]; intros ti; cbn; [reflexivity|].
  rewrite length_app, IH. now destruct (owns i t).
Qed.

Lemma occupied_from_fresh (i : PlayerPtr) (ti k : nat) (ps : list Part) :
  Forall (λ p, part_unit p = None) ps → occupied_from i ti k ps = [].
Proof.
  intros H. revert k. induction H as [|p ps Hp _ IH]; intros k; cbn.
  - reflexivity.
  - rewrite IH. unfold occupies. rewrite Hp.
    now rewrite bool_decide_eq_false_2 by discriminate.
Qed.

(** Placing one unit in a territory that holds none. *)
Lemma occupied_from_place (i player : PlayerPtr) (ti k0 k : nat)
    (ps : list Part) (part : Part) :
  Forall (λ p, part_unit p = None) ps → ps !! k = Some part →
  occupied_from i ti k0 (alter (place_unit player) k ps)
  = if decide (i = player) then [(ti, (k0 + k)%nat)] else [].
Proof.
  intros H. revert k0 k. induction H as [|p ps Hp Hps IH]; intros k0 k Hk.
  - discriminate.
  - destruct k as [|k]; cbn.
    + rewrite (occupied_from_fresh _ _ _ _ Hps), app_nil_r, Nat.add_0_r.
      unfold occupies. cbn.
      destruct (decide (i = player)) as [->|Hne].
      * now rewrite bool_decide_eq_true_2.
      * rewrite bool_decide_eq_false_2; [reflexivity | congruence].
    + cbn in Hk. rewrite (IH (S k0) k Hk).
      unfold occupies. rewrite Hp.
      rewrite bool_decide_eq_false_2 by discriminate. cbn [app].
      destruct (decide (i = player)); [|reflexivity].
      now replace (S k0 + k)%nat with (k0 + S k)%nat by lia.
Qed.

(** ** One iteration of the loop of [initialize] *)

Lemma counts_ok_add_unit (ptr : PartPtr) (pl : Player) :
  counts_ok pl → counts_ok (add_unit ptr pl).
Proof.
  intros [Hu Hc]. split; cbn; [|exact Hc].
  rewrite Hu, int_incr_wrap, length_app. cbn. f_equal. lia.
Qed.

Lemma counts_ok_add_center (ti : TerritoryPtr) (pl : Player) :
  counts_ok pl → counts_ok (add_center ti pl).
Proof.
  intros [Hu Hc]. split; cbn; [exact Hu|].
  rewrite Hc, int_incr_wrap, length_app. cbn. f_equal. lia.
Qed.

Lemma place_players (player : PlayerPtr) (ptr : PartPtr) (ps : list Player)
    (i : PlayerPtr) (pl : Player) :
  ps !! i = Some pl →
  ∃ pl1, alter (add_unit ptr) player ps !! i = Some pl1
    ∧ player_name pl1 = player_name pl ∧ vote pl1 = vote pl
    ∧ ready pl1 = ready pl
    ∧ units pl1 = units pl ++ (if decide (i = player) then [ptr] else [])
    ∧ allowBuild pl1 = allowBuild pl
    ∧ (counts_ok pl → counts_ok pl1).
Proof.
  intros Hi. destruct (decide (i = player)) as [->|Hne].
  - exists (add_unit ptr pl). rewrite list_lookup_alter_eq, Hi.
    do 6 (split; [reflexivity|]). apply counts_ok_add_unit.
  - exists pl. rewrite list_lookup_alter_ne by congruence.
    rewrite app_nil_r. do 6 (split; [first [reflexivity | assumption]|]). auto.
Qed.

Lemma centre_players (player : PlayerPtr) (ti : TerritoryPtr)
    (ps : list Player) (i : PlayerPtr) (pl : Player) :
  ps !! i = Some pl →
  ∃ pl1, alter (add_center ti) player ps !! i = Some pl1
    ∧ player_name pl1 = player_name pl ∧ vote pl1 = vote pl
    ∧ ready pl1 = ready pl
    ∧ units pl1 = units pl
    ∧ allowBuild pl1 = allowBuild pl ++ (if decide (i = player) then [ti] else [])
    ∧ (counts_ok pl → counts_ok pl1).
Proof.
  intros Hi. destruct (decide (i = player)) as [->|Hne].
  - exists (add_center ti pl). rewrite list_lookup_alter_eq, Hi.
    do 6 (split; [reflexivity|]). apply counts_ok_add_center.
  - exists pl. rewrite list_lookup_alter_ne by congruence.
    rewrite app_nil_r. do 6 (split; [first [reflexivity | assumption]|]). auto.
Qed.

Lemma owns_decide (i player : PlayerPtr) (t : Territory) :
  owner t = Some player →
  owns i t = if decide (i = player) then true else false.
Proof.
  intros H. unfold owns. rewrite H. destruct (decide (i = player)) as [->|Hne].
  - now rewrite bool_decide_eq_true_2.
  - rewrite bool_decide_eq_false_2; [reflexivity | congruence].
Qed.

Lemma owns_None (i : PlayerPtr) (t : Territory) :
  owner t = None → owns i t = false.
Proof.
  intros H. unfold owns. rewrite H. now rewrite bool_decide_eq_false_2.
Qed.

Lemma player_grows_refl (i : PlayerPtr) (ti : TerritoryPtr) (t : Territory)
    (pl : Player) :
  fresh_territory t → player_grows i ti t pl pl.
Proof.
  intros [Ho Hp]. unfold player_grows.
  rewrite (occupied_from_fresh _ _ _ _ Hp), (owns_None _ _ Ho), !app_nil_r.
  do 5 (split; [reflexivity|]). auto.
Qed.

Lemma territory_stepped_refl (n : nat) (t : Territory) :
  fresh_territory t → territory_stepped n t t.
Proof.
  intros [Ho Hp]. repeat split; try congruence.
  - eapply Forall_impl; [exact Hp|]. cbn. congruence.
  - intros i ti. rewrite (occupied_from_fresh _ _ _ _ Hp). cbn. lia.
Qed.

(** The unit placement of one iteration, on its own. *)
Lemma place_step (ti : TerritoryPtr) (t : Territory) (ps : list Player)
    (player : PlayerPtr) (plr : Player) (found : option (nat * Part))
    (t1 : Territory) (ps1 : list Player) :
  fresh_territory t → ps !! player = Some plr →
  (∀ k part, found = Some (k, part) → parts t !! k = Some part) →
  match found with
  | Some (k, _) =>
      (set_parts t (alter (place_unit player) k (parts t)),
       alter (add_unit (ti, k)) player ps)
  | None => (t, ps)
  end = (t1, ps1) →
  owner t1 = None ∧ territory_stepped (length ps) t t1
  ∧ length ps1 = length ps
  ∧ ∀ i pl, ps !! i = Some pl →
      ∃ pl1, ps1 !! i = Some pl1
        ∧ player_name pl1 = player_name pl ∧ vote pl1 = vote pl
        ∧ ready pl1 = ready pl
        ∧ units pl1 = units pl ++ occupied_from i ti 0 (parts t1)
        ∧ allowBuild pl1 = allowBuild pl
        ∧ (counts_ok pl → counts_ok pl1).
Proof.
  intros Hfresh Hplr Hfound Heq. pose proof Hfresh as [Ho Hp].
  destruct found as [[k part]|]; injection Heq as <- <-.
  - specialize (Hfound _ _ eq_refl).
    split; [exact Ho|]. split; [|split; [apply length_alter|]].
    + repeat split; cbn; try congruence.
      * apply length_alter.
      * apply Forall_lookup. intros j q Hq i Hi.
        rewrite list_lookup_alter in Hq. destruct (decide (k = j)) as [->|].
        -- rewrite Hfound in Hq. injection Hq as <-. cbn in Hi.
           injection Hi as <-. now apply lookup_lt_Some in Hplr.
        -- rewrite Forall_lookup in Hp. rewrite (Hp _ _ Hq) in Hi. discriminate.
      * intros i ti'. rewrite (occupied_from_place _ _ _ _ _ _ _ Hp Hfound).
        destruct (decide (i = player)); cbn; lia.
    + intros i pl Hi. cbn [parts set_parts].
      rewrite (occupied_from_place _ _ _ _ _ _ _ Hp Hfound).
      now apply place_players.
  - split; [exact Ho|]. split; [now apply territory_stepped_refl|].
    split; [reflexivity|]. intros i pl Hi. exists pl.
    rewrite (occupied_from_fresh _ _ _ _ Hp), app_nil_r.
    do 6 (split; [first [reflexivity | assumption]|]). auto.
Qed.

Lemma init_territory_spec (mapJson : json) (ti : TerritoryPtr)
    (t t' : Territory) (ps ps' : list Player) :
  init_territory mapJson ti t ps = Ok (t', ps') → fresh_territory t →
  territory_stepped (length ps) t t'
  ∧ length ps' = length ps
  ∧ ∀ i pl, ps !! i = Some pl →
      ∃ pl', ps' !! i = Some pl' ∧ player_grows i ti t' pl pl'.
Proof.
  intros H Hfresh. unfold init_territory in H.
  bind_inv H d Hd. bind_inv H ip Hip.
  assert (∀ i pl, ps !! i = Some pl →
            ∃ pl', ps !! i = Some pl' ∧ player_grows i ti t pl pl') as Hsame.
  { intros i pl Hi. exists pl. split; [exact Hi | now apply player_grows_refl]. }
  destruct (is_null ip).
  { cbv iota in H. injection H as Ht Hps. subst t' ps'.
    split; [now apply territory_stepped_refl|].
    split; [reflexivity | exact Hsame]. }
  bind_inv H playerName Hname. bind_inv H ipart Hipart.
  bind_inv H initPartName Hpart.
  destruct (list_find _ ps) as [[player plr]|] eqn:Hfind.
  2:{ injection H as <- <-. split; [now apply territory_stepped_refl|].
      split; [reflexivity | exact Hsame]. }
  apply list_find_Some in Hfind as (Hplr & _ & _).
  destruct (match list_find (λ p, part_name p = initPartName) (parts t) with
            | Some (k, _) =>
                (set_parts t (alter (place_unit player) k (parts t)),
                 alter (add_unit (ti, k)) player ps)
            | None => (t, ps)
            end) as [t1 ps1] eqn:Hplace.
  apply (place_step ti t ps player plr _ t1 ps1 Hfresh Hplr) in Hplace.
  2:{ intros k part Hk. now apply list_find_Some in Hk as (? & _). }
  destruct Hplace as (Ho1 & Hst & Hlen & Hgrow).
  destruct Hst as (Hn & Hc & Hl & _ & _ & Hunits & Hone).
  destruct (Z.eqb_spec (center t1) 0) as [Hz|Hnz]; injection H as <- <-.
  - split; [|split; [exact Hlen|]].
    + unfold territory_stepped. do 3 (split; [assumption|]).
      split; [congruence|]. split; [congruence|]. split; assumption.
    + intros i pl Hi. destruct (Hgrow i pl Hi) as (pl1 & ? & ? & ? & ? & ? & ? & ?).
      exists pl1. split; [assumption|]. unfold player_grows.
      rewrite (owns_None _ _ Ho1), app_nil_r.
      do 5 (split; [assumption|]). assumption.
  - split; [|split; [now rewrite length_alter|]].
    + unfold territory_stepped. cbn [set_owner territory_name center parts owner].
      do 3 (split; [assumption|]). split; [intros _; exact Hnz|].
      split; [|split; assumption].
      intros i Hi. injection Hi as <-. now apply lookup_lt_Some in Hplr.
    + intros i pl Hi.
      destruct (Hgrow i pl Hi) as (pl1 & Hi1 & Hn1 & Hv1 & Hr1 & Hu1 & Ha1 & Hc1).
      destruct (centre_players player ti ps1 i pl1 Hi1)
        as (pl2 & Hi2 & Hn2 & Hv2 & Hr2 & Hu2 & Ha2 & Hc2).
      exists pl2. split; [assumption|]. unfold player_grows. cbn [parts set_owner].
      rewrite (owns_decide i player (set_owner t1 player) eq_refl).
      do 3 (split; [congruence|]). split; [congruence|].
      split; [|auto].
      rewrite Ha2, Ha1. now destruct (decide (i = player)).
Qed.

(** ** The loop of [initialize] *)

Lemma init_loop_spec (mapJson : json) (ti : TerritoryPtr)
    (ts ts' : list Territory) (ps ps' : list Player) :
  init_loop mapJson ti ts ps = Ok (ts', ps') → Forall fresh_territory ts →
  Forall2 (territory_stepped (length ps)) ts ts'
  ∧ length ps' = length ps
  ∧ ∀ i pl, ps !! i = Some pl →
      ∃ pl', ps' !! i = Some pl'
        ∧ player_name pl' = player_name pl ∧ vote pl' = vote pl
        ∧ ready pl' = ready pl
        ∧ units pl' = units pl ++ occupied_list i ti ts'
        ∧ allowBuild pl' = allowBuild pl ++ owned_list i ti ts'
        ∧ (counts_ok pl → counts_ok pl').
Proof.
  revert ti ts' ps ps'.
  induction ts as [|t ts IH]; intros ti ts' ps ps' H Hfresh; cbn in H.
  - injection H as <- <-. split; [constructor|]. split; [reflexivity|].
    intros i pl Hi. exists pl. cbn. rewrite !app_nil_r.
    do 6 (split; [first [reflexivity | assumption]|]). auto.
  - bind_inv H r1 H1. destruct r1 as [t1 ps1].
    bind_inv H r2 H2. destruct r2 as [ts2 ps2]. injection H as <- <-.
    inversion Hfresh as [|? ? Ht Hts]; subst.
    destruct (init_territory_spec _ _ _ _ _ _ H1 Ht) as (Hst & Hlen1 & Hg1).
    destruct (IH _ _ _ _ H2 Hts) as (Hst2 & Hlen2 & Hg2).
    rewrite Hlen1 in Hst2.
    split; [now constructor|]. split; [congruence|].
    intros i pl Hi.
    destruct (Hg1 i pl Hi) as (pl1 & Hi1 & Hn1 & Hv1 & Hr1 & Hu1 & Ha1 & Hc1).
    destruct (Hg2 i pl1 Hi1) as (pl2 & Hi2 & Hn2 & Hv2 & Hr2 & Hu2 & Ha2 & Hc2).
    exists pl2. split; [assumption|]. do 3 (split; [congruence|]).
    cbn [occupied_list owned_list]. rewrite Hu2, Hu1, Ha2, Ha1, <- !app_assoc.
    do 2 (split; [reflexivity|]). auto.
Qed.

Lemma occupied_list_bound (i : PlayerPtr) (ti n : nat) (ts ts' : list Territory) :
  Forall2 (territory_stepped n) ts ts' →
  (length (occupied_list i ti ts') ≤ length ts')%nat.
Proof.
  intros H. revert ti. induction H as [|t t' ts ts' Hst _ IH]; intros ti; cbn.
  - lia.
  - rewrite length_app. destruct Hst as (_ & _ & _ & _ & _ & _ & Hone).
    specialize (Hone i ti). specialize (IH (S ti)). lia.
Qed.

Lemma owned_list_bound (i : PlayerPtr) (ti : nat) (ts : list Territory) :
  (length (owned_list i ti ts) ≤ length ts)%nat.
Proof.
  revert ti. induction ts as [|t ts IH]; intros ti; cbn; [lia|].
  rewrite length_app. specialize (IH (S ti)). destruct (owns i t); cbn; lia.
Qed.

(** ** The game after construction and after initialisation *)

Section Initialised.
Variable parse : string → result json.
Variable dump : json → string.

Lemma counts_ok_new (p : Player) : newly_created p → counts_ok p.
Proof.
  intros (_ & _ & Hu & Hc & Hus & Ha). unfold counts_ok.
  rewrite Hu, Hc, Hus, Ha. split; reflexivity.
Qed.

(** The constructor leaves no unit on the board and no owner. *)
Lemma ctor_fresh (fs : string → option string) (mapPath rulesPath : string)
    (g0 : Game) :
  Game_ctor parse dump fs mapPath rulesPath = Ok g0 →
  Forall fresh_territory (allTerritories g0)
  ∧ Forall (λ pl, units pl = [] ∧ allowBuild pl = [] ∧ counts_ok pl)
      (allPlayers g0).
Proof.
  intros Hg. split.
  - destruct (ctor_Ok_inv _ _ _ _ _ _ Hg)
      as (mf & rf & mj & rj & dt & _ & _ & _ & _ & Hts & _).
    apply build_territories_spec in Hts.
    apply Forall_lookup. intros j t Ht.
    destruct (Forall2_lookup_r _ _ _ _ _ Hts Ht) as (it & _ & Hb).
    destruct Hb as (_ & Ho & _ & _ & ti & Hf).
    split; [exact Ho|]. eapply Forall_impl; [exact Hf|].
    now intros p (_ & _ & Hu & _).
  - destruct (ctor_players _ _ _ _ _ _ Hg)
      as (mf & mj & players & _ & _ & -> & _ & _ & Hnew).
    constructor.
    + repeat split; reflexivity.
    + eapply Forall_impl; [exact Hnew|]. intros p Hp.
      pose proof (counts_ok_new _ Hp). destruct Hp as (_ & _ & _ & _ & ? & ?).
      split; [assumption|]. split; assumption.
Qed.

(** After [initialize] the vectors of every player list exactly the Parts
    that point to it and the Territories it owns. *)
Lemma initialize_spec (fs : string → option string) (mapPath rulesPath : string)
    (g0 g : Game) :
  Game_ctor parse dump fs mapPath rulesPath = Ok g0 →
  initialize parse g0 = Ok g →
  Forall2 (territory_stepped (length (allPlayers g)))
    (allTerritories g0) (allTerritories g)
  ∧ ∀ i pl, allPlayers g !! i = Some pl →
      units pl = occupied_list i 0 (allTerritories g)
      ∧ allowBuild pl = owned_list i 0 (allTerritories g)
      ∧ counts_ok pl.
Proof.
  intros Hg0 Hg. destruct (ctor_fresh _ _ _ _ Hg0) as [Hft Hfp].
  unfold initialize in Hg. bind_inv Hg mj Hmj. bind_inv Hg r Hloop.
  destruct r as [ts ps]. injection Hg as <-. cbn.
  destruct (init_loop_spec _ _ _ _ _ _ Hloop Hft) as (Hst & Hlen & Hgrow).
  split; [now rewrite Hlen|].
  intros i pl Hi.
  assert (is_Some (allPlayers g0 !! i)) as [pl0 Hi0].
  { apply lookup_lt_is_Some. rewrite <- Hlen. now apply lookup_lt_Some in Hi. }
  destruct (Hgrow i pl0 Hi0) as (pl' & Hi' & _ & _ & _ & Hu & Ha & Hc).
  assert (pl' = pl) as -> by congruence.
  rewrite Forall_lookup in Hfp. destruct (Hfp i pl0 Hi0) as (Hu0 & Ha0 & Hc0).
  rewrite Hu0 in Hu. rewrite Ha0 in Ha. auto.
Qed.

End Initialised.

(** ** Owners and centres *)

Lemma member_lookup (ms : list (string * json)) (ti : nat) (name : string)
    (data : json) :
  NoDup ms.*1 → ms !! ti = Some (name, data) → member name ms = Some data.
Proof.
  revert ti. induction ms as [|[k v] ms IH]; intros ti Hnd Hti.
  - discriminate.
  - cbn in Hnd. apply NoDup_cons in Hnd as [Hk Hnd]. destruct ti as [|ti]; cbn.
    + injection Hti as -> ->. now rewrite String.eqb_refl.
    + cbn in Hti. destruct (String.eqb_spec k name) as [->|_].
      * exfalso. apply Hk. apply list_elem_of_fmap.
        exists (name, data). split; [reflexivity|].
        now apply list_elem_of_lookup_2 in Hti.
      * now apply (IH ti).
Qed.

Lemma names_preserved (ps ps' : list Player) :
  length ps' = length ps →
  (∀ i pl, ps !! i = Some pl →
     ∃ pl', ps' !! i = Some pl' ∧ player_name pl' = player_name pl) →
  player_name <$> ps' = player_name <$> ps.
Proof.
  intros Hlen H. apply list_eq. intros i. rewrite !list_lookup_fmap.
  destruct (ps !! i) as [pl|] eqn:Hi.
  - destruct (H i pl Hi) as (pl' & -> & Hn). cbn. now rewrite Hn.
  - apply lookup_ge_None in Hi. rewrite <- Hlen in Hi.
    apply lookup_ge_None in Hi. now rewrite Hi.
Qed.

Lemma list_find_names (n : string) (ps ps' : list Player) :
  player_name <$> ps = player_name <$> ps' →
  fst <$> list_find (λ p, player_name p = n) ps
  = fst <$> list_find (λ p, player_name p = n) ps'.
Proof.
  revert ps'. induction ps as [|p ps IH]; intros [|p' ps'] H;
    try discriminate; [reflexivity|].
  cbn in H. injection H as Hn Hrest. cbn. rewrite Hn.
  destruct (decide (player_name p' = n)); [reflexivity|].
  specialize (IH _ Hrest).
  destruct (list_find _ ps) as [[? ?]|], (list_find _ ps') as [[? ?]|];
    cbn in *; congruence.
Qed.

(** Every territory is handled by one iteration, on a roster with the
    names of the roster the loop started with. *)
Lemma init_loop_step (mapJson : json) (ti : TerritoryPtr)
    (ts ts' : list Territory) (ps ps' : list Player) (j : nat) (t : Territory) :
  init_loop mapJson ti ts ps = Ok (ts', ps') → Forall fresh_territory ts →
  ts !! j = Some t →
  ∃ psj psj' t',
    ts' !! j = Some t'
    ∧ player_name <$> psj = player_name <$> ps
    ∧ init_territory mapJson (ti + j) t psj = Ok (t', psj').
Proof.
  revert ti ts' ps ps' j.
  induction ts as [|t0 ts IH]; intros ti ts' ps ps' j H Hfresh Hj; cbn in H.
  - discriminate.
  - bind_inv H r1 H1. destruct r1 as [t1 ps1].
    bind_inv H r2 H2. destruct r2 as [ts2 ps2]. injection H as <- <-.
    inversion Hfresh as [|? ? Ht Hts]; subst.
    destruct j as [|j].
    + injection Hj as ->. exists ps, ps1, t1. rewrite Nat.add_0_r. now repeat split.
    + destruct (IH _ _ _ _ _ H2 Hts Hj) as (psj & psj' & t' & Hl & Hn & Hs).
      exists psj, psj', t'. split; [exact Hl|]. split.
      * rewrite Hn.
        destruct (init_territory_spec _ _ _ _ _ _ H1 Ht) as (_ & Hlen & Hg).
        apply names_preserved; [exact Hlen|].
        intros i pl Hi. destruct (Hg i pl Hi) as (pl' & Hi' & Hn' & _).
        eauto.
      * now replace (ti + S j)%nat with (S ti + j)%nat by lia.
Qed.

(** An iteration on a territory whose entry names a player and a part. *)
Lemma init_territory_places (mapJson data : json) (ti : TerritoryPtr)
    (t t' : Territory) (ps ps' : list Player) (pn partn : string)
    (i k : nat) (plr : Player) (part : Part) :
  init_territory mapJson ti t ps = Ok (t', ps') →
  json_at mapJson (territory_name t) = Ok data →
  json_at data "initPlayer" = Ok (JStr pn) →
  json_at data "initPart" = Ok (JStr partn) →
  list_find (λ p, player_name p = pn) ps = Some (i, plr) →
  list_find (λ p, part_name p = partn) (parts t) = Some (k, part) →
  parts t' !! k = Some (place_unit i part).
Proof.
  intros H Hd Hip Hpart Hfp Hfk. unfold init_territory in H.
  rewrite Hd in H. cbn in H. rewrite Hip in H. cbn in H.
  rewrite Hpart in H. cbn in H. rewrite Hfp, Hfk in H.
  apply list_find_Some in Hfk as (Hk & _).
  cbn in H. destruct (center t =? 0); injection H as <- _; cbn;
    now rewrite list_lookup_alter_eq, Hk.
Qed.

(** An iteration on a territory that is no centre leaves every counter of
    centres and every build list as it was, and sets no owner. *)
Lemma init_territory_no_center (mapJson : json) (ti : TerritoryPtr)
    (t t' : Territory) (ps ps' : list Player) :
  init_territory mapJson ti t ps = Ok (t', ps') → center t = 0 →
  owner t' = owner t
  ∧ centerCount <$> ps' = centerCount <$> ps
  ∧ allowBuild <$> ps' = allowBuild <$> ps.
Proof.
  intros H Hc. unfold init_territory in H.
  bind_inv H d Hd. bind_inv H ip Hip.
  destruct (is_null ip); [injection H as <- <-; now repeat split|].
  bind_inv H playerName Hname. bind_inv H ipart Hipart.
  bind_inv H initPartName Hpart.
  destruct (list_find _ ps) as [[player plr]|];
    [|injection H as <- <-; now repeat split].
  destruct (list_find _ (parts t)) as [[k part]|]; cbn in H; rewrite Hc in H;
    cbn in H; injection H as <- <-; cbn; repeat split;
    try reflexivity; apply list_eq; intros j; rewrite !list_lookup_fmap,
      list_lookup_alter; destruct (decide (player = j)) as [->|]; try reflexivity;
    now destruct (ps !! j).
Qed.

Section Owners.
Variable parse : string → result json.
Variable dump : json → string.

(** The player an entry of the map names receives the unit on the part
    the entry names, whether the territory is a centre or not. *)
Lemma initial_unit_placed (fs : string → option string)
    (mapPath rulesPath mapFile : string) (g0 g : Game) (mapJson data : json)
    (ti : nat) (name pn partn : string) :
  Game_ctor parse dump fs mapPath rulesPath = Ok g0 →
  initialize parse g0 = Ok g →
  fs mapPath = Some mapFile → parse mapFile = Ok mapJson →
  parse (dump mapJson) = Ok mapJson →
  NoDup (items mapJson).*1 →
  items mapJson !! ti = Some (name, data) →
  initPlayer_of data = Some pn →
  json_at data "initPart" = Ok (JStr partn) →
  partn ∈ part_keys data →
  ∃ i pl k p t,
    list_find (λ q, player_name q = pn) (allPlayers g) = Some (i, pl)
    ∧ allTerritories g !! ti = Some t
    ∧ parts t !! k = Some p ∧ part_name p = partn
    ∧ part_unit p = Some i ∧ (ti, k) ∈ units pl.
Proof.
  intros Hg0 Hg Hfs Hparse Hround Hnd Hti Hpn Hpart Hkey.
  destruct (ctor_Ok_inv _ _ _ _ _ _ Hg0)
    as (mf & rf & mj & rj & dt & Hfm & _ & Hpm & _ & Hts & Hps & Hraw & _).
  assert (mf = mapFile) as -> by congruence.
  assert (mj = mapJson) as -> by congruence.
  destruct (ctor_fresh _ _ _ _ _ _ Hg0) as [Hfresh _].
  destruct (initialize_spec _ _ _ _ _ _ _ Hg0 Hg) as [Hst Hpl].
  (* the territory the constructor built for the entry *)
  apply build_territories_spec in Hts.
  destruct (Forall2_lookup_l _ _ _ _ _ Hts Hti) as (t0 & Ht0 & Hb).
  destruct Hb as (Hname & _ & _ & Hparts & _). cbn in Hname, Hparts.
  (* the iteration that handled it *)
  unfold initialize in Hg. rewrite Hraw, Hround in Hg. cbn in Hg.
  bind_inv Hg r Hloop. destruct r as [ts ps]. injection Hg as <-.
  cbn [allTerritories allPlayers] in *.
  destruct (init_loop_step _ _ _ _ _ _ _ _ Hloop Hfresh Ht0)
    as (psj & psj' & t & Ht & Hnames & Hstep).
  destruct (init_loop_spec _ _ _ _ _ _ Hloop Hfresh) as (_ & Hlen & Hgrow).
  assert (player_name <$> ps = player_name <$> allPlayers g0) as Hnames'.
  { apply names_preserved; [exact Hlen|]. intros i pl Hi.
    destruct (Hgrow i pl Hi) as (pl' & ? & ? & _). eauto. }
  (* the entry read back by name *)
  assert (json_at mapJson (territory_name t0) = Ok data) as Hdata.
  { rewrite Hname. destruct mapJson as [| | | | |ms]; cbn in Hti.
    - discriminate.
    - unfold init_territory in Hstep. discriminate.
    - unfold init_territory in Hstep. discriminate.
    - unfold init_territory in Hstep. discriminate.
    - unfold init_territory in Hstep. discriminate.
    - cbn. now rewrite (member_lookup ms ti name data Hnd Hti). }
  assert (json_at data "initPlayer" = Ok (JStr pn)) as Hip.
  { unfold initPlayer_of in Hpn.
    destruct (json_at data "initPlayer") as [[| | |s| |]|]; try discriminate.
    congruence. }
  (* the named player is in the roster *)
  assert (pn ∈ player_name <$> allPlayers g0) as Hin.
  { destruct (ctor_players _ _ _ _ _ _ Hg0)
      as (mf' & mj' & players & Hfm' & Hpm' & -> & _ & Hiff & _).
    assert (mj' = mapJson) as -> by congruence.
    cbn. right. apply Hiff.
    apply list_elem_of_omap. exists (name, data). split; [|exact Hpn].
    now apply list_elem_of_lookup_2 in Hti. }
  assert (∃ i pl, list_find (λ q, player_name q = pn) ps = Some (i, pl))
    as (i & pl & Hfind).
  { destruct (list_find (λ q, player_name q = pn) ps) as [[i pl]|] eqn:Hf;
      [eauto|].
    apply list_find_None in Hf. rewrite <- Hnames' in Hin.
    apply list_elem_of_fmap in Hin as (q & -> & Hq).
    rewrite Forall_forall in Hf. now destruct (Hf q Hq). }
  assert (∃ plr, list_find (λ q, player_name q = pn) psj = Some (i, plr))
    as (plr & Hfindj).
  { pose proof (list_find_names pn psj ps) as Heq.
    rewrite Hnames, Hnames', Hfind in Heq. specialize (Heq eq_refl).
    destruct (list_find _ psj) as [[i' plr]|]; [|discriminate].
    cbn in Heq. injection Heq as ->. eauto. }
  (* the named part is in the territory *)
  assert (∃ k part,
            list_find (λ q, part_name q = partn) (parts t0) = Some (k, part))
    as (k & part & Hfk).
  { destruct (list_find (λ q, part_name q = partn) (parts t0))
      as [[k part]|] eqn:Hf; [eauto|].
    apply list_find_None in Hf. rewrite <- Hparts in Hkey.
    apply list_elem_of_fmap in Hkey as (q & -> & Hq).
    rewrite Forall_forall in Hf. now destruct (Hf q Hq). }
  pose proof (init_territory_places _ _ _ _ _ _ _ _ _ _ _ _ _
                Hstep Hdata Hip Hpart Hfindj Hfk) as Hplaced.
  exists i, pl, k, (place_unit i part), t.
  split; [exact Hfind|]. split; [exact Ht|]. split; [exact Hplaced|].
  split; [now apply list_find_Some in Hfk as (_ & ? & _)|].
  split; [reflexivity|].
  apply list_find_Some in Hfind as (Hi & _).
  destruct (Hpl i pl Hi) as (-> & _).
  apply elem_of_occupied_list. exists ti, t, (place_unit i part).
  now repeat split.
Qed.

End Owners.

(** C10: after the constructor and [initialize] a Territory has an owner
    only if its centre flag is not 0.  A Territory whose flag is 0 has no
    owner, is in the build list of no player and is counted in no
    [centerCount]; when its entry in the map (read back from [mapRaw],
    territory names being distinct) names an initial player and one of its
    parts, the player of that name has the unit on that part all the
    same. *)
Theorem owner_only_if_center (parse : string → result json)
    (dump : json → string) (fs : string → option string)
    (mapPath rulesPath : string) (g0 g : Game) :
  Game_ctor parse dump fs mapPath rulesPath = Ok g0 →
  initialize parse g0 = Ok g →
  ∀ ti t, allTerritories g !! ti = Some t →
    (owner t ≠ None → center t ≠ 0)
    ∧ (center t = 0 →
       owner t = None
       ∧ (∀ i pl, allPlayers g !! i = Some pl →
            (ti ∉ allowBuild pl) ∧ owns i t = false
            ∧ centerCount pl = wrap_int (Z.of_nat (territories_owned g i)))
       ∧ (∀ mapFile mapJson name data pn partn,
            fs mapPath = Some mapFile → parse mapFile = Ok mapJson →
            parse (dump mapJson) = Ok mapJson →
            NoDup (items mapJson).*1 →
            items mapJson !! ti = Some (name, data) →
            initPlayer_of data = Some pn →
            json_at data "initPart" = Ok (JStr partn) →
            partn ∈ part_keys data →
            ∃ i pl k p,
              list_find (λ q, player_name q = pn) (allPlayers g) = Some (i, pl)
              ∧ parts t !! k = Some p ∧ part_name p = partn
              ∧ part_unit p = Some i ∧ (ti, k) ∈ units pl)).
Proof.
  intros Hg0 Hg ti t Ht.
  destruct (initialize_spec _ _ _ _ _ _ _ Hg0 Hg) as [Hst Hpl].
  destruct (Forall2_lookup_r _ _ _ _ _ Hst Ht) as (t0 & _ & Hs).
  destruct Hs as (_ & _ & _ & Hown & _).
  split; [exact Hown|]. intros Hc.
  assert (owner t = None) as Hno.
  { destruct (owner t) eqn:Ho; [|reflexivity].
    exfalso. apply Hown; [discriminate | exact Hc]. }
  split; [exact Hno|]. split.
  - intros i pl Hi. destruct (Hpl i pl Hi) as (_ & Ha & _ & Hcc).
    split; [|split].
    + rewrite Ha. intros Hin.
      apply elem_of_owned_list in Hin as (j & t' & Hj & Ht' & Ho).
      cbn in Hj. subst j. congruence.
    + now apply owns_None.
    + rewrite Hcc. unfold territories_owned.
      now rewrite Ha, length_owned_list.
  - intros mapFile mapJson name data pn partn
      Hfs Hparse Hround Hnd Hti Hpn Hpart Hkey.
    destruct (initial_unit_placed _ _ _ _ _ _ _ _ _ _ _ _ _ _
                Hg0 Hg Hfs Hparse Hround Hnd Hti Hpn Hpart Hkey)
      as (i & pl & k & p & t' & Hf & Ht' & Hp & Hn & Hu & Hin).
    assert (t' = t) as -> by congruence.
    exists i, pl, k, p. now repeat split.
Qed.

Lemma owner_only_if_center_witness :
  ∃ g0 g,
    Game_ctor (parse_docs [map_no_center; rules_doc]) json_dump fs_no_center
      "map.json" "rules.json" = Ok g0
    ∧ initialize (parse_docs [map_no_center; rules_doc]) g0 = Ok g
    ∧ ∃ t, allTerritories g !! 0%nat = Some t
      ∧ center t = 0 ∧ owner t = None
      ∧ ∃ i pl k p,
          list_find (λ q, player_name q = "RUS") (allPlayers g) = Some (i, pl)
          ∧ parts t !! k = Some p ∧ part_name p = "UKR_L"
          ∧ part_unit p = Some i ∧ (0%nat, k) ∈ units pl.
Proof.
  do 2 eexists. split; [vm_compute; reflexivity|].
  split; [vm_compute; reflexivity|].
  eexists. split; [reflexivity|]. split; [reflexivity|].
  edestruct (owner_only_if_center (parse_docs [map_no_center; rules_doc])
               json_dump fs_no_center "map.json" "rules.json" _ _
               ltac:(vm_compute; reflexivity) ltac:(vm_compute; reflexivity)
               0%nat _ eq_refl) as (_ & H).
  destruct (H eq_refl) as (Hno & _ & Hunit).
  split; [exact Hno|].
  apply (Hunit (json_dump map_no_center) map_no_center "UKR"
           (JObj [("UKR_L", names ["MOS"; "WAR"; "SEV"; "GAL"; "RUM"]);
                  ("center", JNum 0); ("initPart", JStr "UKR_L");
                  ("initPlayer", JStr "RUS")]) "RUS" "UKR_L");
    try (vm_compute; reflexivity).
  - cbn. apply NoDup_singleton.
  - cbn. apply list_elem_of_here.
Defined.

(** The game on [map_no_center], computed: RUS has the unit on UKR_L,
    UKR has no owner, RUS has no centre and an empty build list. *)
Example non_center_with_unit :
  (λ g, (allTerritories g, allPlayers g))
  <$> (match Game_ctor (parse_docs [map_no_center; rules_doc]) json_dump
               fs_no_center "map.json" "rules.json"
             ≫= initialize (parse_docs [map_no_center; rules_doc])
       with Ok g => Some g | Throw _ => None end)
  = Some ([{| territory_name := "UKR";
              parts := [{| part_name := "UKR_L"; neighbors := [];
                           belonged := Some 0%nat; LC := 0;
                           part_unit := Some 1%nat |}];
              center := 0; owner := None |}],
          [publicPlayer;
           {| player_name := "RUS"; allowBuild := []; centerCount := 0;
              unitCount := 1; units := [(0, 0)%nat];
              vote := false; ready := false |}]).
Proof. vm_compute. reflexivity. Qed.

(** ** A null initial part *)

(** [initialize] converts [initPart] to a string as soon as [initPlayer]
    is not null: a territory with an initial player and a null initial
    part makes the loop throw, at that territory or before. *)
Lemma init_loop_null_part (mapJson : json) (ti : TerritoryPtr)
    (ts : list Territory) (ps : list Player) (t : Territory) (d ip : json) :
  t ∈ ts →
  json_at mapJson (territory_name t) = Ok d →
  json_at d "initPlayer" = Ok ip → is_null ip = false →
  json_at d "initPart" = Ok JNull →
  ∃ e, init_loop mapJson ti ts ps = Throw e.
Proof.
  intros Hin Hd Hip Hnull Hpart. revert ti ps.
  induction ts as [|t0 ts IH]; intros ti ps; [inversion Hin|].
  cbn [init_loop].
  destruct (init_territory mapJson ti t0 ps) as [[t1 ps1]|e] eqn:Hstep;
    [|exists e; reflexivity].
  apply elem_of_cons in Hin as [<-|Hin].
  - exfalso. unfold init_territory in Hstep.
    rewrite Hd in Hstep. cbn in Hstep. rewrite Hip in Hstep. cbn in Hstep.
    rewrite Hnull in Hstep.
    destruct (get_string ip); [|discriminate].
    cbn in Hstep. rewrite Hpart in Hstep. discriminate.
  - destruct (IH Hin (S ti) ps1) as [e He]. exists e. cbn. now rewrite He.
Qed.

(** C5, on a map whose territory UKR has the initial player "RUS" and a
    null initial part: the constructor returns a game, [initialize] throws
    the type error of the conversion of null to a string, and [main]
    reports it and returns 1. *)
Theorem null_initPart_is_fatal :
  (json_at map_null_part "UKR" ≫= λ d, json_at d "initPart") = Ok JNull
  ∧ initPlayer_of (default JNull (member "UKR" (items map_null_part)))
    = Some "RUS"
  ∧ (∃ g0, Game_ctor (parse_docs [map_null_part; rules_doc]) json_dump
             fs_null_part "map.json" "rules.json" = Ok g0
        ∧ initialize (parse_docs [map_null_part; rules_doc]) g0
          = Throw (type_error 302 "type must be string, but is null"))
  ∧ main (parse_docs [map_null_part; rules_doc]) json_dump Ok fs_null_part
    = {| exit_code := 1;
         stderr := "Error: [json.exception.type_error.302] "
                   +:+ "type must be string, but is null" +:+ endl |}.
Proof.
  split; [reflexivity|]. split; [reflexivity|]. split.
  - eexists. split; [vm_compute; reflexivity|]. vm_compute. reflexivity.
  - vm_compute. reflexivity.
Qed.

(** The same entry with the string "None" for the part, as the header
    comment of the source writes it for UKR, is accepted. *)
Example string_None_initPart_is_accepted :
  is_Ok (Game_ctor (parse_docs docs) json_dump fs_doc "map.json" "rules.json"
         ≫= initialize (parse_docs docs)) = true.
Proof. vm_compute. reflexivity. Qed.

(** ** Standoffs *)

Section Standoff.
Import MovePhase.
Variable os : list Issued.







End Standoff.



(** Two units of equal support attack the empty BUR: both have strength
    2, BUR is a standoff and stays empty. *)
Example bounce_leaves_BUR_empty :
  MovePhase.occupant bounce_in_BUR BUR = None
  ∧ MovePhase.move_strength bounce_in_BUR
      (MovePhase.Build_Issued PAR 1%nat (MovePhase.Move BUR)) = 2%nat
  ∧ MovePhase.move_strength bounce_in_BUR
      (MovePhase.Build_Issued MUN 2%nat (MovePhase.Move BUR)) = 2%nat
  ∧ MovePhase.contest bounce_in_BUR BUR = MovePhase.Standoff
  ∧ MovePhase.occupant_after bounce_in_BUR BUR = None.
Proof. vm_compute. repeat split. Qed.

(** The same attack on a held BUR leaves the holder in place; behind a
    unit that moves on to MAR it leaves BUR empty. *)
Example bounce_on_occupied_BUR :
  MovePhase.contest bounce_on_held_BUR BUR = MovePhase.Standoff
  ∧ MovePhase.occupant bounce_on_held_BUR BUR = Some 3%nat
  ∧ MovePhase.occupant_after bounce_on_held_BUR BUR = Some 3%nat
  ∧ MovePhase.contest bounce_behind_leaver BUR = MovePhase.Standoff
  ∧ MovePhase.moved_away bounce_behind_leaver BUR = true
  ∧ MovePhase.occupant_after bounce_behind_leaver BUR = None
  ∧ MovePhase.occupant_after bounce_behind_leaver MAR = Some 3%nat.
Proof. vm_compute. repeat split. Qed.

(** * Further properties of the constructor and of [initialize] *)

(** ** The territories mirror the map *)

Lemma build_territories_index (n : nat) (its : list (string * json))
    (ts : list Territory) :
  build_territories n its = Ok ts →
  length ts = length its
  ∧ ∀ j it, its !! j = Some it →
      ∃ t, ts !! j = Some t ∧ built_territory it t
           ∧ Forall (built_part (n + j)) (parts t).
Proof.
  revert n ts. induction its as [|[name data] rest IH]; intros n ts H; cbn in H.
  - injection H as <-. split; [reflexivity|]. intros j it Hj. discriminate.
  - bind_inv H c0 Hc0. bind_inv H c Hc. bind_inv H ps Hps.
    bind_inv H ts' Hts'. injection H as <-.
    destruct (build_parts_spec _ _ _ Hps) as [Hn Hf].
    destruct (IH _ _ Hts') as [Hlen Hrest].
    split; [cbn; now rewrite Hlen|].
    intros [|j] it Hj.
    + injection Hj as <-. eexists. split; [reflexivity|].
      rewrite Nat.add_0_r. split; [|exact Hf].
      repeat split; cbn; try assumption.
      * now rewrite Hc0.
      * now exists n.
    + destruct (Hrest j it Hj) as (t & Ht & Hb & Hp).
      exists t. split; [exact Ht|]. split; [exact Hb|].
      now replace (n + S j)%nat with (S n + j)%nat by lia.
Qed.

(** X1: the constructor builds one Territory per entry of the map, in the
    iteration order of the map: the Territory at index [ti] has the key of
    the entry as its name, the converted [center] member as its flag, no
    owner, and one Part per member other than [center], [initPlayer] and
    [initPart], in member order, each without unit and with [belonged]
    pointing back to the Territory. *)
Theorem ctor_territories_mirror_map (parse : string → result json)
    (dump : json → string) (fs : string → option string)
    (mapPath rulesPath : string) (g : Game) :
  Game_ctor parse dump fs mapPath rulesPath = Ok g →
  ∃ mapFile mapJson,
    fs mapPath = Some mapFile ∧ parse mapFile = Ok mapJson
    ∧ length (allTerritories g) = length (items mapJson)
    ∧ ∀ ti name data, items mapJson !! ti = Some (name, data) →
        ∃ t, allTerritories g !! ti = Some t
          ∧ territory_name t = name ∧ owner t = None
          ∧ json_at data "center" ≫= get_unsigned 8 = Ok (center t)
          ∧ part_name <$> parts t = part_keys data
          ∧ Forall (λ p, belonged p = Some ti ∧ part_unit p = None) (parts t).
Proof.
  intros Hg.
  destruct (ctor_Ok_inv _ _ _ _ _ _ Hg)
    as (mf & rf & mj & rj & dt & Hfm & _ & Hpm & _ & Hts & _).
  destruct (build_territories_index _ _ _ Hts) as [Hlen Hidx].
  exists mf, mj. split; [exact Hfm|]. split; [exact Hpm|].
  split; [exact Hlen|].
  intros ti name data Hti.
  destruct (Hidx ti _ Hti) as (t & Ht & Hb & Hp).
  destruct Hb as (Hname & Ho & Hc & Hkeys & _).
  exists t. do 5 (split; [assumption|]).
  eapply Forall_impl; [exact Hp|].
  intros p (_ & Hbel & Hu & _). now split.
Qed.

Lemma ctor_territories_mirror_map_witness :
  ∃ g, Game_ctor (parse_docs docs) json_dump fs_doc "map.json" "rules.json"
       = Ok g
    ∧ ∃ mapFile mapJson,
        fs_doc "map.json" = Some mapFile
        ∧ parse_docs docs mapFile = Ok mapJson
        ∧ length (allTerritories g) = length (items mapJson)
        ∧ ∀ ti name data, items mapJson !! ti = Some (name, data) →
            ∃ t, allTerritories g !! ti = Some t
              ∧ territory_name t = name ∧ owner t = None
              ∧ json_at data "center" ≫= get_unsigned 8 = Ok (center t)
              ∧ part_name <$> parts t = part_keys data
              ∧ Forall (λ p, belonged p = Some ti ∧ part_unit p = None)
                  (parts t).
Proof.
  eexists. split; [vm_compute; reflexivity|].
  apply (ctor_territories_mirror_map (parse_docs docs) json_dump fs_doc
           "map.json" "rules.json").
  vm_compute. reflexivity.
Defined.

(** ** The board before [initialize] *)

Lemma no_part_occupied (i : PlayerPtr) (ts : list Territory) :
  Forall fresh_territory ts →
  sum_list ((λ t, length (List.filter (occupies i) (parts t))) <$> ts) = 0%nat.
Proof.
  intros H. rewrite <- (length_occupied_list i 0).
  assert (occupied_list i 0 ts = []) as ->; [|reflexivity].
  generalize 0%nat. induction H as [|t ts [_ Ht] _ IH]; intros n; cbn.
  - reflexivity.
  - now rewrite (occupied_from_fresh _ _ _ _ Ht), IH.
Qed.

Lemma no_territory_owned (i : PlayerPtr) (ts : list Territory) :
  Forall fresh_territory ts → List.filter (owns i) ts = [].
Proof.
  intros H. induction H as [|t ts [Ht _] _ IH]; cbn; [reflexivity|].
  now rewrite (owns_None _ _ Ht).
Qed.

(** X2: the constructor alone puts no unit on the board and gives no
    Territory an owner: every unit pointer and every owner is null, every
    player has empty vectors and counters 0, and occupies and owns
    nothing.  Units and owners come with [initialize] only. *)
Theorem ctor_leaves_board_empty (parse : string → result json)
    (dump : json → string) (fs : string → option string)
    (mapPath rulesPath : string) (g : Game) :
  Game_ctor parse dump fs mapPath rulesPath = Ok g →
  (∀ ti t, allTerritories g !! ti = Some t →
     owner t = None ∧ Forall (λ p, part_unit p = None) (parts t))
  ∧ (∀ i pl, allPlayers g !! i = Some pl →
       units pl = [] ∧ allowBuild pl = []
       ∧ unitCount pl = 0 ∧ centerCount pl = 0
       ∧ parts_occupied g i = 0%nat ∧ territories_owned g i = 0%nat).
Proof.
  intros Hg. destruct (ctor_fresh _ _ _ _ _ _ Hg) as [Hft Hfp]. split.
  - intros ti t Ht. rewrite Forall_lookup in Hft. exact (Hft ti t Ht).
  - intros i pl Hi. rewrite Forall_lookup in Hfp.
    destruct (Hfp i pl Hi) as (Hu & Ha & Hcu & Hcc).
    rewrite Hu in Hcu. rewrite Ha in Hcc.
    do 4 (split; [assumption|]). split.
    + unfold parts_occupied. now apply no_part_occupied.
    + unfold territories_owned. now rewrite no_territory_owned.
Qed.

Lemma ctor_leaves_board_empty_witness :
  ∃ g, Game_ctor (parse_docs docs) json_dump fs_doc "map.json" "rules.json"
       = Ok g
    ∧ (∀ ti t, allTerritories g !! ti = Some t →
         owner t = None ∧ Forall (λ p, part_unit p = None) (parts t))
    ∧ (∀ i pl, allPlayers g !! i = Some pl →
         units pl = [] ∧ allowBuild pl = []
         ∧ unitCount pl = 0 ∧ centerCount pl = 0
         ∧ parts_occupied g i = 0%nat ∧ territories_owned g i = 0%nat).
Proof.
  eexists. split; [vm_compute; reflexivity|].
  apply (ctor_leaves_board_empty (parse_docs docs) json_dump fs_doc
           "map.json" "rules.json").
  vm_compute. reflexivity.
Defined.

(** ** The rules the constructor reads *)

Lemma ctor_Ok_rules (parse : string → result json) (dump : json → string)
    (fs : string → option string) (mapPath rulesPath : string) (g : Game) :
  Game_ctor parse dump fs mapPath rulesPath = Ok g →
  ∃ rulesFile rulesJson wc bt br vs dt,
    fs rulesPath = Some rulesFile ∧ parse rulesFile = Ok rulesJson
    ∧ json_at rulesJson "winCondition" = Ok wc
    ∧ get_unsigned 32 wc = Ok (winCondition g)
    ∧ json_at rulesJson "buildTime" = Ok bt
    ∧ get_unsigned 32 bt = Ok (buildTime g)
    ∧ json_at rulesJson "buildRule" = Ok br
    ∧ buildRule g = (if json_eq_string br "allCenters" then 1 else 0)
    ∧ json_at rulesJson "voteShown" = Ok vs
    ∧ voteShown g = json_eq_int vs 1
    ∧ json_at rulesJson "drawType" = Ok dt
    ∧ drawType g = (if json_eq_string dt "DSS" then 0 else 1)
    ∧ phaseCount g = 1 ∧ logFilePath g = "log.json" ∧ press g = []
    ∧ rulesRaw g = dump rulesJson.
Proof.
  unfold Game_ctor. intros H.
  destruct (fs mapPath) as [mapFile|]; [|discriminate].
  destruct (fs rulesPath) as [rulesFile|]; [|discriminate].
  bind_inv H mapJson Hm. bind_inv H rulesJson Hr.
  bind_inv H wc0 Hwc0. bind_inv H wc Hwc. bind_inv H br Hbr.
  bind_inv H bt0 Hbt0. bind_inv H bt Hbt. bind_inv H vs Hvs.
  bind_inv H dt Hdt. bind_inv H ts Hts. bind_inv H ps Hps.
  injection H as <-. cbn.
  exists rulesFile, rulesJson, wc0, bt0, br, vs, dt.
  repeat split; assumption.
Qed.

Lemma json_eq_string_true (j : json) (s : string) :
  json_eq_string j s = true ↔ j = JStr s.
Proof.
  destruct j; cbn; try (split; [discriminate | intros H; discriminate]).
  rewrite String.eqb_eq. split; [now intros -> | now intros [= ->]].
Qed.

Lemma json_eq_int_true (j : json) (n : Z) :
  json_eq_int j n = true ↔ j = JNum n.
Proof.
  destruct j; cbn; try (split; [discriminate | intros H; discriminate]).
  rewrite Z.eqb_eq. split; [now intros -> | now intros [= ->]].
Qed.

(** X3: how the constructor reads the rules.  [winCondition] and
    [buildTime] are the members converted to 32-bit unsigned integers;
    [buildRule] is 1 exactly when the member is the string "allCenters"
    and 0 for every other value, a missing member included; [voteShown]
    holds exactly when the member is the number 1 (the JSON value [true]
    does not count); [drawType] is 0 exactly when the member is the
    string "DSS"; the phase counter starts at 1 and the log file is
    "log.json". *)
Theorem ctor_reads_rules (parse : string → result json)
    (dump : json → string) (fs : string → option string)
    (mapPath rulesPath : string) (g : Game) :
  Game_ctor parse dump fs mapPath rulesPath = Ok g →
  ∃ rulesFile rulesJson,
    fs rulesPath = Some rulesFile ∧ parse rulesFile = Ok rulesJson
    ∧ json_at rulesJson "winCondition" ≫= get_unsigned 32
      = Ok (winCondition g)
    ∧ json_at rulesJson "buildTime" ≫= get_unsigned 32 = Ok (buildTime g)
    ∧ (buildRule g = 1 ↔ json_at rulesJson "buildRule" = Ok (JStr "allCenters"))
    ∧ (buildRule g = 0 ↔ json_at rulesJson "buildRule" ≠ Ok (JStr "allCenters"))
    ∧ (voteShown g = true ↔ json_at rulesJson "voteShown" = Ok (JNum 1))
    ∧ (drawType g = 0 ↔ json_at rulesJson "drawType" = Ok (JStr "DSS"))
    ∧ (drawType g = 1 ↔ json_at rulesJson "drawType" ≠ Ok (JStr "DSS"))
    ∧ phaseCount g = 1 ∧ logFilePath g = "log.json"
    ∧ rulesRaw g = dump rulesJson.
Proof.
  intros Hg.
  destruct (ctor_Ok_rules _ _ _ _ _ _ Hg)
    as (rf & rj & wc & bt & br & vs & dt & Hfs & Hp & Hwc & Hwc' & Hbt & Hbt'
        & Hbr & Hbr' & Hvs & Hvs' & Hdt & Hdt' & Hph & Hlog & _ & Hraw).
  exists rf, rj. split; [exact Hfs|]. split; [exact Hp|].
  split; [now rewrite Hwc|]. split; [now rewrite Hbt|].
  rewrite Hbr, Hvs, Hdt, Hbr', Hvs', Hdt'.
  pose proof (json_eq_string_true br "allCenters") as Eb.
  pose proof (json_eq_string_true dt "DSS") as Ed.
  pose proof (json_eq_int_true vs 1) as Ev.
  repeat split; try assumption.
  - destruct (json_eq_string br "allCenters"); [intros _; f_equal; now apply Eb | discriminate].
  - intros [= ->]. now destruct Eb as [_ ->].
  - destruct (json_eq_string br "allCenters"); [discriminate|].
    intros _ [= ->]. destruct Eb as [_ Eb]. now specialize (Eb eq_refl).
  - intros Hne. destruct (json_eq_string br "allCenters"); [|reflexivity].
    destruct Eb as [Eb _]. destruct Hne. f_equal. now apply Eb.
  - intros H. f_equal. now apply Ev.
  - intros [= ->]. now apply Ev.
  - destruct (json_eq_string dt "DSS"); [intros _; f_equal; now apply Ed | discriminate].
  - intros [= ->]. now destruct Ed as [_ ->].
  - destruct (json_eq_string dt "DSS"); [discriminate|].
    intros _ [= ->]. destruct Ed as [_ Ed]. now specialize (Ed eq_refl).
  - intros Hne. destruct (json_eq_string dt "DSS"); [|reflexivity].
    destruct Ed as [Ed _]. destruct Hne. f_equal. now apply Ed.
Qed.

Lemma ctor_reads_rules_witness :
  ∃ g, Game_ctor (parse_docs docs) json_dump fs_doc "map.json" "rules.json"
       = Ok g
    ∧ ∃ rulesFile rulesJson,
        fs_doc "rules.json" = Some rulesFile
        ∧ parse_docs docs rulesFile = Ok rulesJson
        ∧ json_at rulesJson "winCondition" ≫= get_unsigned 32
          = Ok (winCondition g)
        ∧ json_at rulesJson "buildTime" ≫= get_unsigned 32 = Ok (buildTime g)
        ∧ (buildRule g = 1
           ↔ json_at rulesJson "buildRule" = Ok (JStr "allCenters"))
        ∧ (buildRule g = 0
           ↔ json_at rulesJson "buildRule" ≠ Ok (JStr "allCenters"))
        ∧ (voteShown g = true ↔ json_at rulesJson "voteShown" = Ok (JNum 1))
        ∧ (drawType g = 0 ↔ json_at rulesJson "drawType" = Ok (JStr "DSS"))
        ∧ (drawType g = 1 ↔ json_at rulesJson "drawType" ≠ Ok (JStr "DSS"))
        ∧ phaseCount g = 1 ∧ logFilePath g = "log.json"
        ∧ rulesRaw g = json_dump rulesJson.
Proof.
  eexists. split; [vm_compute; reflexivity|].
  apply (ctor_reads_rules (parse_docs docs) json_dump fs_doc
           "map.json" "rules.json").
  vm_compute. reflexivity.
Defined.

(** ** The ranges of the loaded values *)

Lemma get_unsigned_range (bits : Z) (j : json) (n : Z) :
  0 < bits → get_unsigned bits j = Ok n → 0 ≤ n < 2 ^ bits.
Proof.
  intros Hb H. assert (1 < 2 ^ bits) by (apply Z.pow_gt_1; lia).
  destruct j as [|[|]|m| | |]; cbn in H; try discriminate;
    injection H as <-; try lia.
  apply Z.mod_pos_bound. lia.
Qed.

(** X4: every number of a constructed game is in the range of its C++
    type: [winCondition] and [buildTime] are below 2^32 (a negative or
    larger member wraps around), [buildRule], [drawType] and the [LC] of
    every Part are 0 or 1, and the centre flag of every Territory is below
    256, so that a member such as 256 loads as "no centre". *)
Theorem loaded_values_in_range (parse : string → result json)
    (dump : json → string) (fs : string → option string)
    (mapPath rulesPath : string) (g : Game) :
  Game_ctor parse dump fs mapPath rulesPath = Ok g →
  0 ≤ winCondition g < 2 ^ 32 ∧ 0 ≤ buildTime g < 2 ^ 32
  ∧ (buildRule g = 0 ∨ buildRule g = 1)
  ∧ (drawType g = 0 ∨ drawType g = 1)
  ∧ ∀ ti t, allTerritories g !! ti = Some t →
      0 ≤ center t < 256
      ∧ ∀ k p, parts t !! k = Some p → LC p = 0 ∨ LC p = 1.
Proof.
  intros Hg.
  destruct (ctor_Ok_rules _ _ _ _ _ _ Hg)
    as (rf & rj & wc & bt & br & vs & dt & _ & _ & _ & Hwc & _ & Hbt
        & _ & Hbr & _ & _ & _ & Hdt & _).
  split; [exact (get_unsigned_range 32 _ _ ltac:(lia) Hwc)|].
  split; [exact (get_unsigned_range 32 _ _ ltac:(lia) Hbt)|].
  split; [rewrite Hbr; destruct (json_eq_string br _); auto|].
  split; [rewrite Hdt; destruct (json_eq_string dt _); auto|].
  intros ti t Ht.
  destruct (ctor_Ok_inv _ _ _ _ _ _ Hg)
    as (mf & rf' & mj & rj' & dt' & _ & _ & _ & _ & Hts & _).
  apply build_territories_spec in Hts.
  destruct (Forall2_lookup_r _ _ _ _ _ Hts Ht) as (it & _ & Hb).
  destruct Hb as (_ & _ & Hc & _ & ti' & Hparts). split.
  - bind_inv Hc c Hc0.
    exact (get_unsigned_range 8 _ _ ltac:(lia) Hc).
  - intros k p Hp. rewrite Forall_lookup in Hparts.
    destruct (Hparts k p Hp) as (_ & _ & _ & HLC).
    unfold part_LC in HLC. bind_inv HLC lastc Hlastc.
    injection HLC as <-. destruct (String.eqb lastc "C"); auto.
Qed.

Lemma loaded_values_in_range_witness :
  ∃ g, Game_ctor (parse_docs docs) json_dump fs_doc "map.json" "rules.json"
       = Ok g
    ∧ 0 ≤ winCondition g < 2 ^ 32 ∧ 0 ≤ buildTime g < 2 ^ 32
    ∧ (buildRule g = 0 ∨ buildRule g = 1)
    ∧ (drawType g = 0 ∨ drawType g = 1)
    ∧ ∀ ti t, allTerritories g !! ti = Some t →
        0 ≤ center t < 256
        ∧ ∀ k p, parts t !! k = Some p → LC p = 0 ∨ LC p = 1.
Proof.
  eexists. split; [vm_compute; reflexivity|].
  apply (loaded_values_in_range (parse_docs docs) json_dump fs_doc
           "map.json" "rules.json").
  vm_compute. reflexivity.
Defined.

(** Members out of the range of their type wrap around. *)
Example members_wrap_around :
  get_unsigned 8 (JNum 256) = Ok 0 ∧ get_unsigned 8 (JNum 257) = Ok 1
  ∧ get_unsigned 32 (JNum (-1)) = Ok 4294967295
  ∧ get_unsigned 8 (JBool true) = Ok 1.
Proof. repeat split. Qed.

(** ** When the constructor succeeds *)

Lemma is_Ok_bind {A B} (m : result A) (f : A → result B) :
  is_Ok (m ≫= f) = match m with Ok a => is_Ok (f a) | Throw _ => false end.
Proof. now destruct m. Qed.

Lemma is_Ok_true {A} (r : result A) : is_Ok r = true ↔ ∃ a, r = Ok a.
Proof.
  destruct r as [a|e]; cbn; split; eauto; try discriminate.
  intros [a H]. discriminate.
Qed.

Lemma get_unsigned_is_Ok (bits : Z) (j : json) :
  is_Ok (get_unsigned bits j) = is_number j.
Proof. destruct j as [|[|]| | | |]; reflexivity. Qed.

Lemma get_string_is_Ok (j : json) : is_Ok (get_string j) = is_string j.
Proof. now destruct j. Qed.

Lemma numeric_field_spec (bits : Z) (j : json) (key : string) :
  is_Ok (json_at j key ≫= get_unsigned bits) = numeric_field j key.
Proof.
  rewrite is_Ok_bind. unfold numeric_field.
  destruct (json_at j key); [apply get_unsigned_is_Ok | reflexivity].
Qed.

(** The classification of a part fails on the empty identifier only. *)
Lemma part_LC_is_Ok (partName : string) :
  is_Ok (part_LC partName) = negb (String.eqb partName EmptyString).
Proof.
  destruct partName as [|c s]; [reflexivity|].
  unfold part_LC, substr, wrap_size.
  change (String.length (String c s)) with (S (String.length s)).
  pose proof (Z.mod_le (Z.of_nat (S (String.length s)) - 1) (2 ^ 64)
                ltac:(lia) ltac:(lia)) as Hle.
  destruct (Z.ltb_spec (Z.of_nat (S (String.length s)))
              ((Z.of_nat (S (String.length s)) - 1) mod 2 ^ 64)) as [?|_];
    [lia | reflexivity].
Qed.

Lemma build_parts_is_Ok (ti : TerritoryPtr) (its : list (string * json)) :
  is_Ok (build_parts ti its)
  = forallb (λ k, negb (String.eqb k EmptyString))
      (List.filter is_part_key its.*1).
Proof.
  induction its as [|[partName nb] rest IH]; [reflexivity|].
  cbn. destruct (is_part_key partName); [|exact IH].
  cbn. rewrite <- IH, <- part_LC_is_Ok, is_Ok_bind.
  destruct (part_LC partName); [|reflexivity].
  cbn. now destruct (build_parts ti rest).
Qed.

Lemma build_territories_is_Ok (n : nat) (its : list (string * json)) :
  is_Ok (build_territories n its)
  = forallb (λ it : string * json,
               numeric_field it.2 "center"
               && forallb (λ k, negb (String.eqb k EmptyString))
                    (part_keys it.2)) its.
Proof.
  revert n. induction its as [|[name data] rest IH]; intros n; [reflexivity|].
  cbn [build_territories forallb snd].
  rewrite <- (IH (S n)), <- (numeric_field_spec 8).
  unfold part_keys. rewrite <- (build_parts_is_Ok n).
  rewrite !is_Ok_bind.
  destruct (json_at data "center") as [c|]; [|reflexivity].
  destruct (get_unsigned 8 c); [|reflexivity].
  rewrite is_Ok_bind.
  destruct (build_parts n (items data)); [|reflexivity].
  rewrite is_Ok_bind. now destruct (build_territories (S n) rest).
Qed.

Lemma collect_players_is_Ok (its : list (string * json))
    (playerMap : gmap string PlayerPtr) (acc : list Player) :
  is_Ok (collect_players its playerMap acc)
  = forallb (λ it : string * json,
               match json_at it.2 "initPlayer" with
               | Ok JNull | Ok (JStr _) => true
               | _ => false
               end) its.
Proof.
  revert playerMap acc.
  induction its as [|[name data] rest IH]; intros pm acc; [reflexivity|].
  cbn [collect_players forallb snd]. rewrite is_Ok_bind.
  destruct (json_at data "initPlayer") as [ip|]; [|reflexivity].
  destruct ip; cbn; try reflexivity; [apply IH|].
  destruct (pm !! s); apply IH.
Qed.

Lemma forallb_andb {A} (f g : A → bool) (l : list A) :
  forallb (λ x, f x && g x) l = forallb f l && forallb g l.
Proof.
  induction l as [|x l IH]; [reflexivity|]. cbn. rewrite IH.
  destruct (f x), (g x), (forallb f l); reflexivity.
Qed.

Lemma map_loadable_spec (mapJson : json) :
  map_loadable mapJson
  = is_Ok (build_territories 0 (items mapJson))
    && is_Ok (collect_players (items mapJson) ∅ [publicPlayer]).
Proof.
  rewrite build_territories_is_Ok, collect_players_is_Ok, <- forallb_andb.
  unfold map_loadable, entry_loadable. reflexivity.
Qed.

(** X5: the constructor returns a game exactly when both files can be
    opened and parsed, the rules document gives [winCondition] and
    [buildTime] as numbers or booleans, and every entry of the map can be
    indexed by a key and has a numeric or boolean [center], no part whose
    key is the empty string, and an [initPlayer] that is null, missing or
    a string.  Nothing else in the two documents can make it throw. *)
Theorem ctor_succeeds_iff (parse : string → result json)
    (dump : json → string) (fs : string → option string)
    (mapPath rulesPath : string) :
  (∃ g, Game_ctor parse dump fs mapPath rulesPath = Ok g)
  ↔ ∃ mapFile rulesFile mapJson rulesJson,
      fs mapPath = Some mapFile ∧ fs rulesPath = Some rulesFile
      ∧ parse mapFile = Ok mapJson ∧ parse rulesFile = Ok rulesJson
      ∧ rules_loadable rulesJson = true ∧ map_loadable mapJson = true.
Proof.
  split.
  - intros [g Hg].
    destruct (ctor_Ok_inv _ _ _ _ _ _ Hg)
      as (mf & rf & mj & rj & dt & Hfm & Hfr & Hpm & Hpr & Hts & Hps & _).
    destruct (ctor_Ok_rules _ _ _ _ _ _ Hg)
      as (rf' & rj' & wc & bt & br & vs & dt' & Hfr' & Hpr' & Hwc & Hwc'
          & Hbt & Hbt' & _).
    assert (rf' = rf) as -> by congruence.
    assert (rj' = rj) as -> by congruence.
    exists mf, rf, mj, rj. do 4 (split; [assumption|]). split.
    + unfold rules_loadable, numeric_field. rewrite Hwc, Hbt.
      rewrite <- (get_unsigned_is_Ok 32 wc), <- (get_unsigned_is_Ok 32 bt).
      now rewrite Hwc', Hbt'.
    + now rewrite map_loadable_spec, Hts, Hps.
  - intros (mf & rf & mj & rj & Hfm & Hfr & Hpm & Hpr & Hrules & Hmap).
    apply is_Ok_true. unfold Game_ctor. rewrite Hfm, Hfr, Hpm, Hpr.
    unfold rules_loadable, numeric_field in Hrules.
    apply andb_true_iff in Hrules as [Hwc Hbt].
    rewrite map_loadable_spec in Hmap.
    apply andb_true_iff in Hmap as [Hts Hps].
    apply is_Ok_true in Hts as [ts Hts]. apply is_Ok_true in Hps as [ps Hps].
    destruct rj as [| | | | |ms]; try discriminate.
    cbn in Hwc, Hbt. cbn.
    rewrite <- (get_unsigned_is_Ok 32) in Hwc, Hbt.
    apply is_Ok_true in Hwc as [wc Hwc]. apply is_Ok_true in Hbt as [bt Hbt].
    rewrite Hwc. cbn. rewrite Hbt. cbn. rewrite Hts. cbn. now rewrite Hps.
Qed.

Lemma ctor_succeeds_iff_witness :
  ∃ g, Game_ctor (parse_docs docs) json_dump fs_doc "map.json" "rules.json"
       = Ok g.
Proof.
  apply (ctor_succeeds_iff (parse_docs docs) json_dump fs_doc
           "map.json" "rules.json").
  exists (json_dump map_doc), (json_dump rules_doc), map_doc, rules_doc.
  repeat split; vm_compute; reflexivity.
Defined.

(** On the rules without [winCondition], on a territory without
    [center], on a part with the empty key and on a numeric [initPlayer]
    the constructor throws. *)
Example documents_the_constructor_rejects :
  rules_loadable (JObj [("buildTime", JNum 4)]) = false
  ∧ entry_loadable (JObj [("LON_C", names [])]) = false
  ∧ entry_loadable (JObj [(EmptyString, names []); ("center", JNum 1)]) = false
  ∧ entry_loadable (JObj [("center", JNum 1); ("initPlayer", JNum 7)]) = false
  ∧ entry_loadable (JArr []) = false
  ∧ entry_loadable (JObj [("center", JBool true)]) = true.
Proof. repeat split. Qed.

(** ** When [initialize] succeeds *)

Lemma init_territory_is_Ok (mapJson data : json) (ti : TerritoryPtr)
    (t : Territory) (ps : list Player) :
  json_at mapJson (territory_name t) = Ok data →
  is_Ok (init_territory mapJson ti t ps) = entry_initialisable data.
Proof.
  intros Hd. unfold init_territory, entry_initialisable.
  rewrite Hd. cbn.
  destruct (json_at data "initPlayer") as [ip|]; [|reflexivity].
  cbn. destruct ip as [| | |pn| |]; try reflexivity.
  cbn. destruct (json_at data "initPart") as [ipart|]; [|reflexivity].
  cbn. destruct ipart as [| | |partn| |]; try reflexivity.
  cbn. destruct (list_find _ ps) as [[player plr]|]; [|reflexivity].
  destruct (list_find _ (parts t)) as [[k part]|]; cbn;
    now destruct (center t =? 0).
Qed.

Lemma init_loop_is_Ok (mapJson : json) (its : list (string * json))
    (ts : list Territory) (ti : TerritoryPtr) (ps : list Player) :
  Forall2 (λ (it : string * json) t,
             json_at mapJson (territory_name t) = Ok it.2) its ts →
  is_Ok (init_loop mapJson ti ts ps)
  = forallb (λ it : string * json, entry_initialisable it.2) its.
Proof.
  intros H. revert ti ps.
  induction H as [|it t its ts Hd _ IH]; intros ti ps; [reflexivity|].
  cbn [init_loop forallb].
  rewrite <- (init_territory_is_Ok mapJson _ ti t ps Hd), is_Ok_bind.
  destruct (init_territory mapJson ti t ps) as [[t1 ps1]|]; [|reflexivity].
  cbn. rewrite <- (IH (S ti) ps1), is_Ok_bind.
  now destruct (init_loop mapJson (S ti) ts ps1) as [[? ?]|].
Qed.

Lemma Forall2_with_left {A B} (P : A → Prop) (R : A → B → Prop)
    (l : list A) (k : list B) :
  Forall P l → Forall2 R l k → Forall2 (λ x y, P x ∧ R x y) l k.
Proof.
  intros HP HR. induction HR as [|x y l k Hxy _ IH]; [constructor|].
  inversion HP; subst. constructor; auto.
Qed.

(** X6: for a map that is a JSON object, read back from [mapRaw] as the
    constructor parsed it, [initialize] succeeds exactly when every entry
    has either no initial player or an initial player and an initial part
    that are both strings; any other entry makes it throw. *)
Theorem initialize_succeeds_iff (parse : string → result json)
    (dump : json → string) (fs : string → option string)
    (mapPath rulesPath mapFile : string) (g0 : Game)
    (ms : list (string * json)) :
  Game_ctor parse dump fs mapPath rulesPath = Ok g0 →
  fs mapPath = Some mapFile → parse mapFile = Ok (JObj ms) →
  parse (dump (JObj ms)) = Ok (JObj ms) →
  NoDup ms.*1 →
  is_Ok (initialize parse g0)
  = forallb (λ it : string * json, entry_initialisable it.2) ms.
Proof.
  intros Hg0 Hfs Hparse Hround Hnd.
  destruct (ctor_Ok_inv _ _ _ _ _ _ Hg0)
    as (mf & rf & mj & rj & dt & Hfm & _ & Hpm & _ & Hts & _ & Hraw & _).
  assert (mf = mapFile) as -> by congruence.
  assert (mj = JObj ms) as -> by congruence.
  apply build_territories_spec in Hts. cbn [items] in Hts.
  assert (Forall (λ it : string * json, member it.1 ms = Some it.2) ms) as Hmem.
  { apply Forall_lookup. intros i [name data] Hi.
    exact (member_lookup ms i name data Hnd Hi). }
  pose proof (Forall2_with_left _ _ _ _ Hmem Hts) as Hboth.
  unfold initialize. rewrite Hraw, Hround. cbn.
  rewrite is_Ok_bind.
  rewrite <- (init_loop_is_Ok (JObj ms) ms (allTerritories g0) 0
                (allPlayers g0)).
  - now destruct (init_loop _ _ _ _) as [[? ?]|].
  - eapply Forall2_impl; [exact Hboth|].
    intros [name data] t [Hm (Hname & _)]. cbn in *.
    now rewrite Hname, Hm.
Qed.

Lemma initialize_succeeds_iff_witness :
  ∃ g0,
    Game_ctor (parse_docs docs) json_dump fs_doc "map.json" "rules.json" = Ok g0
    ∧ is_Ok (initialize (parse_docs docs) g0)
      = forallb (λ it : string * json, entry_initialisable it.2)
          (items map_doc).
Proof.
  eexists. split; [vm_compute; reflexivity|].
  apply (initialize_succeeds_iff (parse_docs docs) json_dump fs_doc
           "map.json" "rules.json" (json_dump map_doc)).
  - vm_compute. reflexivity.
  - reflexivity.
  - vm_compute. reflexivity.
  - vm_compute. reflexivity.
  - apply (bool_decide_unpack _). vm_compute. exact I.
Defined.

(** ** What one iteration of [initialize] can do *)

Lemma init_territory_cases (mapJson : json) (ti : TerritoryPtr)
    (t t' : Territory) (ps ps' : list Player) :
  init_territory mapJson ti t ps = Ok (t', ps') →
  (t' = t ∧ ps' = ps)
  ∨ ∃ n i plr t1 ps1,
      list_find (λ p, player_name p = n) ps = Some (i, plr)
      ∧ ((t1 = t ∧ ps1 = ps)
         ∨ ∃ k part,
             parts t !! k = Some part
             ∧ t1 = set_parts t (alter (place_unit i) k (parts t))
             ∧ ps1 = alter (add_unit (ti, k)) i ps)
      ∧ ((center t = 0 ∧ t' = t1 ∧ ps' = ps1)
         ∨ (center t ≠ 0 ∧ t' = set_owner t1 i
            ∧ ps' = alter (add_center ti) i ps1)).
Proof.
  intros H. unfold init_territory in H.
  bind_inv H d Hd. bind_inv H ip Hip.
  destruct (is_null ip); [injection H as <- <-; now left|].
  bind_inv H playerName Hname. bind_inv H ipart Hipart.
  bind_inv H initPartName Hpart.
  destruct (list_find _ ps) as [[i plr]|] eqn:Hfind;
    [|injection H as <- <-; now left].
  right. exists playerName, i, plr.
  destruct (list_find _ (parts t)) as [[k part]|] eqn:Hfk.
  - apply list_find_Some in Hfk as (Hk & _).
    exists (set_parts t (alter (place_unit i) k (parts t))),
      (alter (add_unit (ti, k)) i ps).
    split; [exact Hfind|]. split; [right; eauto|].
    cbn in H. destruct (Z.eqb_spec (center t) 0);
      injection H as <- <-; [left | right]; now repeat split.
  - exists t, ps. split; [exact Hfind|]. split; [now left|].
    destruct (Z.eqb_spec (center t) 0);
      injection H as <- <-; [left | right]; now repeat split.
Qed.

(** ** What [initialize] leaves alone *)

Lemma same_part_data_refl (p : Part) : same_part_data p p.
Proof. now repeat split. Qed.

Lemma same_parts_refl (ps : list Part) : Forall2 same_part_data ps ps.
Proof. apply Forall_Forall2_diag, Forall_forall. intros. apply same_part_data_refl. Qed.

Lemma same_parts_place (player : PlayerPtr) (k : nat) (ps : list Part) :
  Forall2 same_part_data ps (alter (place_unit player) k ps).
Proof.
  apply Forall2_alter_r; [apply same_parts_refl|].
  intros p q _ _ (? & ? & ? & ?). now repeat split.
Qed.

Lemma player_extends_refl (pl : Player) : player_extends pl pl.
Proof. now repeat split. Qed.

Lemma player_extends_trans (a b c : Player) :
  player_extends a b → player_extends b c → player_extends a c.
Proof.
  intros (? & ? & ? & Hu & Ha) (? & ? & ? & Hu' & Ha').
  repeat split; try congruence; etrans; eassumption.
Qed.

Lemma players_extend_refl (ps : list Player) : Forall2 player_extends ps ps.
Proof. apply Forall_Forall2_diag, Forall_forall. intros. apply player_extends_refl. Qed.

Lemma players_extend_add_unit (ptr : PartPtr) (i : PlayerPtr)
    (ps : list Player) :
  Forall2 player_extends ps (alter (add_unit ptr) i ps).
Proof.
  apply Forall2_alter_r; [apply players_extend_refl|].
  intros p q _ _ (? & ? & ? & Hu & Ha).
  repeat split; cbn; try assumption. now apply prefix_app_r.
Qed.

Lemma players_extend_add_center (ti : TerritoryPtr) (i : PlayerPtr)
    (ps : list Player) :
  Forall2 player_extends ps (alter (add_center ti) i ps).
Proof.
  apply Forall2_alter_r; [apply players_extend_refl|].
  intros p q _ _ (? & ? & ? & Hu & Ha).
  repeat split; cbn; try assumption. now apply prefix_app_r.
Qed.

Lemma players_extend_trans (ps1 ps2 ps3 : list Player) :
  Forall2 player_extends ps1 ps2 → Forall2 player_extends ps2 ps3 →
  Forall2 player_extends ps1 ps3.
Proof. apply Forall2_trans. exact player_extends_trans. Qed.

Lemma init_territory_static (mapJson : json) (ti : TerritoryPtr)
    (t t' : Territory) (ps ps' : list Player) :
  init_territory mapJson ti t ps = Ok (t', ps') →
  same_territory_data t t' ∧ Forall2 player_extends ps ps'.
Proof.
  intros H. apply init_territory_cases in H.
  destruct H as [[-> ->] | (n & i & plr & t1 & ps1 & _ & H1 & H2)].
  { split; [|apply players_extend_refl].
    repeat split. apply same_parts_refl. }
  assert (same_territory_data t t1 ∧ Forall2 player_extends ps ps1) as [Ht1 Hp1].
  { destruct H1 as [[-> ->] | (k & part & _ & -> & ->)].
    - split; [|apply players_extend_refl].
      repeat split. apply same_parts_refl.
    - split; [|apply players_extend_add_unit].
      repeat split. cbn. apply same_parts_place. }
  destruct H2 as [(_ & -> & ->) | (_ & -> & ->)]; [now split|].
  split.
  - destruct Ht1 as (? & ? & ?). now repeat split.
  - eapply players_extend_trans; [exact Hp1|].
    apply players_extend_add_center.
Qed.

Lemma init_loop_static (mapJson : json) (ti : TerritoryPtr)
    (ts ts' : list Territory) (ps ps' : list Player) :
  init_loop mapJson ti ts ps = Ok (ts', ps') →
  Forall2 same_territory_data ts ts' ∧ Forall2 player_extends ps ps'.
Proof.
  revert ti ts' ps ps'.
  induction ts as [|t ts IH]; intros ti ts' ps ps' H; cbn in H.
  - injection H as <- <-. split; [constructor | apply players_extend_refl].
  - bind_inv H r1 H1. destruct r1 as [t1 ps1].
    bind_inv H r2 H2. destruct r2 as [ts2 ps2]. injection H as <- <-.
    destruct (init_territory_static _ _ _ _ _ _ H1) as [Ht Hp].
    destruct (IH _ _ _ _ H2) as [Hts Hps].
    split; [now constructor|]. eapply players_extend_trans; eassumption.
Qed.

(** X7: [initialize], on any game, changes nothing but unit pointers,
    owners and the vectors and counters of the players: every Territory
    keeps its name and centre flag, every Part its name, neighbours,
    territory and coast flag, every player its name, vote and ready flag,
    and the game its rules, phase counter, log and raw documents; the
    [units] and [allowBuild] of a player are only extended at the back. *)
Theorem initialize_keeps_static_data (parse : string → result json)
    (g0 g : Game) :
  initialize parse g0 = Ok g →
  Forall2 same_territory_data (allTerritories g0) (allTerritories g)
  ∧ Forall2 player_extends (allPlayers g0) (allPlayers g)
  ∧ winCondition g = winCondition g0 ∧ buildRule g = buildRule g0
  ∧ buildTime g = buildTime g0 ∧ voteShown g = voteShown g0
  ∧ drawType g = drawType g0 ∧ phaseCount g = phaseCount g0
  ∧ press g = press g0 ∧ log g = log g0 ∧ logFilePath g = logFilePath g0
  ∧ mapRaw g = mapRaw g0 ∧ rulesRaw g = rulesRaw g0.
Proof.
  intros Hg. unfold initialize in Hg. bind_inv Hg mj Hmj.
  bind_inv Hg r Hloop. destruct r as [ts ps]. injection Hg as <-. cbn.
  destruct (init_loop_static _ _ _ _ _ _ Hloop) as [Hts Hps].
  now repeat split.
Qed.

Lemma initialize_keeps_static_data_witness :
  ∃ g0 g,
    Game_ctor (parse_docs docs) json_dump fs_doc "map.json" "rules.json" = Ok g0
    ∧ initialize (parse_docs docs) g0 = Ok g
    ∧ Forall2 same_territory_data (allTerritories g0) (allTerritories g)
    ∧ Forall2 player_extends (allPlayers g0) (allPlayers g)
    ∧ winCondition g = winCondition g0 ∧ buildRule g = buildRule g0
    ∧ buildTime g = buildTime g0 ∧ voteShown g = voteShown g0
    ∧ drawType g = drawType g0 ∧ phaseCount g = phaseCount g0
    ∧ press g = press g0 ∧ log g = log g0 ∧ logFilePath g = logFilePath g0
    ∧ mapRaw g = mapRaw g0 ∧ rulesRaw g = rulesRaw g0.
Proof.
  do 2 eexists. split; [vm_compute; reflexivity|].
  split; [vm_compute; reflexivity|].
  apply (initialize_keeps_static_data (parse_docs docs)).
  vm_compute. reflexivity.
Defined.

(** ** The iteration that handled a territory *)

Lemma initialize_step (parse : string → result json) (dump : json → string)
    (fs : string → option string) (mapPath rulesPath : string) (g0 g : Game)
    (ti : nat) (t : Territory) :
  Game_ctor parse dump fs mapPath rulesPath = Ok g0 →
  initialize parse g0 = Ok g →
  allTerritories g !! ti = Some t →
  ∃ mapJson t0 psj psj',
    parse (mapRaw g0) = Ok mapJson
    ∧ allTerritories g0 !! ti = Some t0 ∧ fresh_territory t0
    ∧ player_name <$> psj = player_name <$> allPlayers g
    ∧ init_territory mapJson ti t0 psj = Ok (t, psj').
Proof.
  intros Hg0 Hg Ht.
  destruct (ctor_fresh _ _ _ _ _ _ Hg0) as [Hfresh _].
  unfold initialize in Hg. bind_inv Hg mj Hmj.
  bind_inv Hg r Hloop. destruct r as [ts ps]. injection Hg as <-.
  cbn [allTerritories allPlayers] in *.
  destruct (init_loop_spec _ _ _ _ _ _ Hloop Hfresh) as (Hst & Hlen & Hgrow).
  destruct (Forall2_lookup_r _ _ _ _ _ Hst Ht) as (t0 & Ht0 & _).
  destruct (init_loop_step _ _ _ _ _ _ _ _ Hloop Hfresh Ht0)
    as (psj & psj' & t' & Ht' & Hnames & Hstep).
  assert (t' = t) as -> by congruence.
  exists mj, t0, psj, psj'. split; [exact Hmj|]. split; [exact Ht0|].
  split; [exact (Forall_lookup_1 _ _ _ _ Hfresh Ht0)|].
  split; [|exact Hstep].
  rewrite Hnames. symmetry. apply names_preserved; [exact Hlen|].
  intros i pl Hi. destruct (Hgrow i pl Hi) as (pl' & ? & ? & _). eauto.
Qed.

(** X8: after the constructor and [initialize] every Territory holds at
    most one unit: two Parts of one Territory are never both occupied. *)
Theorem at_most_one_unit_per_territory (parse : string → result json)
    (dump : json → string) (fs : string → option string)
    (mapPath rulesPath : string) (g0 g : Game) :
  Game_ctor parse dump fs mapPath rulesPath = Ok g0 →
  initialize parse g0 = Ok g →
  ∀ ti t k1 k2 p1 p2,
    allTerritories g !! ti = Some t →
    parts t !! k1 = Some p1 → parts t !! k2 = Some p2 →
    part_unit p1 ≠ None → part_unit p2 ≠ None → k1 = k2.
Proof.
  intros Hg0 Hg ti t k1 k2 p1 p2 Ht Hp1 Hp2 Hu1 Hu2.
  destruct (initialize_step _ _ _ _ _ _ _ _ _ Hg0 Hg Ht)
    as (mj & t0 & psj & psj' & _ & _ & [_ Hfresh] & _ & Hstep).
  rewrite Forall_lookup in Hfresh.
  assert (parts t = parts t0
          ∨ ∃ i k, parts t = alter (place_unit i) k (parts t0)) as Hparts.
  { apply init_territory_cases in Hstep.
    destruct Hstep as [[-> _] | (n & i & plr & t1 & ps1 & _ & H1 & H2)];
      [now left|].
    destruct H1 as [[-> _] | (k & part & _ & -> & _)];
      destruct H2 as [(_ & -> & _) | (_ & -> & _)]; cbn; eauto. }
  destruct Hparts as [Heq | (i & k & Heq)]; rewrite Heq in Hp1, Hp2.
  - now rewrite (Hfresh _ _ Hp1) in Hu1.
  - rewrite list_lookup_alter in Hp1, Hp2.
    destruct (decide (k = k1)) as [<-|], (decide (k = k2)) as [<-|];
      try reflexivity.
    + now rewrite (Hfresh _ _ Hp2) in Hu2.
    + now rewrite (Hfresh _ _ Hp1) in Hu1.
    + now rewrite (Hfresh _ _ Hp1) in Hu1.
Qed.

Lemma at_most_one_unit_per_territory_witness :
  ∃ g0 g,
    Game_ctor (parse_docs docs) json_dump fs_doc "map.json" "rules.json" = Ok g0
    ∧ initialize (parse_docs docs) g0 = Ok g
    ∧ ∀ ti t k1 k2 p1 p2,
        allTerritories g !! ti = Some t →
        parts t !! k1 = Some p1 → parts t !! k2 = Some p2 →
        part_unit p1 ≠ None → part_unit p2 ≠ None → k1 = k2.
Proof.
  do 2 eexists. split; [vm_compute; reflexivity|].
  split; [vm_compute; reflexivity|].
  eapply (at_most_one_unit_per_territory (parse_docs docs) json_dump fs_doc
           "map.json" "rules.json").
  - vm_compute. reflexivity.
  - vm_compute. reflexivity.
Defined.

(** ** Players that share a name *)

(** The player an iteration credits is the first of its name. *)
Lemma init_territory_credits_first (mapJson : json) (ti : TerritoryPtr)
    (t t' : Territory) (ps ps' : list Player) (i : PlayerPtr) :
  init_territory mapJson ti t ps = Ok (t', ps') → fresh_territory t →
  owner t' = Some i ∨ (∃ k p, parts t' !! k = Some p ∧ part_unit p = Some i) →
  ∃ n plr, list_find (λ p, player_name p = n) ps = Some (i, plr).
Proof.
  intros H [Ho Hp] Hi. rewrite Forall_lookup in Hp.
  apply init_territory_cases in H.
  destruct H as [[-> _] | (n & j & plr & t1 & ps1 & Hfind & H1 & H2)].
  { destruct Hi as [Hi | (k & p & Hk & Hu)]; [congruence|].
    rewrite (Hp _ _ Hk) in Hu. discriminate. }
  exists n, plr. assert (i = j) as ->; [|exact Hfind].
  assert (owner t1 = None
          ∧ ∀ k p, parts t1 !! k = Some p → part_unit p = Some i → i = j)
    as [Ho1 Hp1].
  { destruct H1 as [[-> _] | (k0 & part & Hk0 & -> & _)]; cbn.
    - split; [exact Ho|]. intros k p Hk Hu.
      rewrite (Hp _ _ Hk) in Hu. discriminate.
    - split; [exact Ho|]. intros k p Hk Hu.
      rewrite list_lookup_alter in Hk.
      destruct (decide (k0 = k)) as [<-|].
      + rewrite Hk0 in Hk. injection Hk as <-. cbn in Hu. congruence.
      + rewrite (Hp _ _ Hk) in Hu. discriminate. }
  destruct H2 as [(_ & -> & _) | (_ & -> & _)];
    destruct Hi as [Hi | (k & p & Hk & Hu)]; cbn in *;
    try congruence; eauto.
Qed.

(** X9: [initialize] looks a player up by name and takes the first match,
    so only the first player of each name is ever credited: a player that
    has a unit or a centre after [initialize] is the first player of its
    name in the roster.  The roster can hold one name twice, "public",
    when the map names the pseudo-player as an initial player; the unit
    and the centre then go to the pseudo-player. *)
Theorem only_first_of_a_name_is_credited (parse : string → result json)
    (dump : json → string) (fs : string → option string)
    (mapPath rulesPath : string) (g0 g : Game) :
  Game_ctor parse dump fs mapPath rulesPath = Ok g0 →
  initialize parse g0 = Ok g →
  ∀ i pl, allPlayers g !! i = Some pl →
    units pl ≠ [] ∨ allowBuild pl ≠ [] →
    list_find (λ q, player_name q = player_name pl) (allPlayers g)
    = Some (i, pl).
Proof.
  intros Hg0 Hg i pl Hi Hcred.
  destruct (initialize_spec _ _ _ _ _ _ _ Hg0 Hg) as [_ Hpl].
  destruct (Hpl i pl Hi) as (Hu & Ha & _).
  assert (∃ ti t, allTerritories g !! ti = Some t
            ∧ (owner t = Some i
               ∨ ∃ k p, parts t !! k = Some p ∧ part_unit p = Some i))
    as (ti & t & Ht & Hcase).
  { destruct Hcred as [Hne | Hne].
    - destruct (units pl) as [|ptr us] eqn:Hus; [congruence|].
      assert (ptr ∈ occupied_list i 0 (allTerritories g)) as Hin.
      { rewrite <- Hu. apply list_elem_of_here. }
      apply elem_of_occupied_list in Hin as (j & t & p & _ & Ht & Hp & Hpu).
      exists j, t. split; [exact Ht|]. right. exists ptr.2, p. now split.
    - destruct (allowBuild pl) as [|a bs] eqn:Hbs; [congruence|].
      assert (a ∈ owned_list i 0 (allTerritories g)) as Hin.
      { rewrite <- Ha. apply list_elem_of_here. }
      apply elem_of_owned_list in Hin as (j & t & _ & Ht & Ho).
      exists j, t. split; [exact Ht|]. now left. }
  destruct (initialize_step _ _ _ _ _ _ _ _ _ Hg0 Hg Ht)
    as (mj & t0 & psj & psj' & _ & _ & Hfresh & Hnames & Hstep).
  destruct (init_territory_credits_first _ _ _ _ _ _ _ Hstep Hfresh Hcase)
    as (n & plr & Hfind).
  pose proof (list_find_names n psj (allPlayers g) Hnames) as Heq.
  rewrite Hfind in Heq. cbn in Heq.
  destruct (list_find (λ q, player_name q = n) (allPlayers g))
    as [[i' pl']|] eqn:Hf; [|discriminate].
  cbn in Heq. injection Heq as <-.
  pose proof Hf as Hf'. apply list_find_Some in Hf' as (Hi' & Hn & _).
  assert (pl' = pl) as -> by congruence.
  now rewrite Hn.
Qed.

Lemma only_first_of_a_name_is_credited_witness :
  ∃ g0 g,
    Game_ctor (parse_docs [map_public; rules_doc]) json_dump fs_public
      "map.json" "rules.json" = Ok g0
    ∧ initialize (parse_docs [map_public; rules_doc]) g0 = Ok g
    ∧ ∀ i pl, allPlayers g !! i = Some pl →
        units pl ≠ [] ∨ allowBuild pl ≠ [] →
        list_find (λ q, player_name q = player_name pl) (allPlayers g)
        = Some (i, pl).
Proof.
  do 2 eexists. split; [vm_compute; reflexivity|].
  split; [vm_compute; reflexivity|].
  eapply (only_first_of_a_name_is_credited
           (parse_docs [map_public; rules_doc]) json_dump fs_public
           "map.json" "rules.json").
  - vm_compute. reflexivity.
  - vm_compute. reflexivity.
Defined.

(** On [map_public] the roster holds "public" twice; the pseudo-player at
    index 0 gets the unit and the centre, the player created for the map
    gets nothing. *)
Example public_as_initial_player :
  (λ g, (λ pl, (player_name pl, unitCount pl, centerCount pl, vote pl))
        <$> allPlayers g)
  <$> (match Game_ctor (parse_docs [map_public; rules_doc]) json_dump
               fs_public "map.json" "rules.json"
             ≫= initialize (parse_docs [map_public; rules_doc])
       with Ok g => Some g | Throw _ => None end)
  = Some [("public", 1, 1, true); ("public", 0, 0, false)].
Proof. vm_compute. reflexivity. Qed.

(** ** The entry of the map behind a territory *)

Lemma players_extend_names (ps ps' : list Player) :
  Forall2 player_extends ps ps' → player_name <$> ps' = player_name <$> ps.
Proof.
  intros H. induction H as [|p p' ps ps' (Hn & _) _ IH]; [reflexivity|].
  cbn. now rewrite Hn, IH.
Qed.

Lemma initialize_names (parse : string → result json) (g0 g : Game) :
  initialize parse g0 = Ok g →
  player_name <$> allPlayers g = player_name <$> allPlayers g0.
Proof.
  intros Hg. unfold initialize in Hg. bind_inv Hg mj Hmj.
  bind_inv Hg r Hloop. destruct r as [ts ps]. injection Hg as <-. cbn.
  destruct (init_loop_static _ _ _ _ _ _ Hloop) as [_ Hps].
  now apply players_extend_names.
Qed.

Section Entries.
Variable parse : string → result json.
Variable dump : json → string.
Variable fs : string → option string.
Variables mapPath rulesPath mapFile : string.
Variables g0 g : Game.
Variable mapJson : json.
Hypothesis Hctor : Game_ctor parse dump fs mapPath rulesPath = Ok g0.
Hypothesis Hinit : initialize parse g0 = Ok g.
Hypothesis Hfile : fs mapPath = Some mapFile.
Hypothesis Hparse : parse mapFile = Ok mapJson.
Hypothesis Hround : parse (dump mapJson) = Ok mapJson.
Hypothesis Hkeys : NoDup (items mapJson).*1.

(** The iteration of [initialize] on the territory of an entry reads that
    entry. *)
Lemma entry_step (ti : nat) (name : string) (data : json) :
  items mapJson !! ti = Some (name, data) →
  ∃ t0 t psj psj',
    allTerritories g0 !! ti = Some t0 ∧ fresh_territory t0
    ∧ part_name <$> parts t0 = part_keys data
    ∧ allTerritories g !! ti = Some t
    ∧ player_name <$> psj = player_name <$> allPlayers g
    ∧ json_at mapJson (territory_name t0) = Ok data
    ∧ init_territory mapJson ti t0 psj = Ok (t, psj').
Proof.
  intros Hti.
  destruct (ctor_Ok_inv _ _ _ _ _ _ Hctor)
    as (mf & rf & mj & rj & dt & Hfm & _ & Hpm & _ & Hts & _ & Hraw & _).
  assert (mf = mapFile) as -> by congruence.
  assert (mj = mapJson) as -> by congruence.
  apply build_territories_spec in Hts.
  destruct (Forall2_lookup_l _ _ _ _ _ Hts Hti) as (t0 & Ht0 & Hb).
  destruct Hb as (Hname & _ & _ & Hparts & _). cbn in Hname, Hparts.
  assert (∃ t, allTerritories g !! ti = Some t) as [t Ht].
  { pose proof Hinit as Hg. unfold initialize in Hg. bind_inv Hg mj Hmj.
    bind_inv Hg r Hloop. destruct r as [ts ps]. injection Hg as <-. cbn.
    destruct (init_loop_static _ _ _ _ _ _ Hloop) as [Hst _].
    destruct (Forall2_lookup_l _ _ _ _ _ Hst Ht0) as (t & Ht & _). eauto. }
  destruct (initialize_step _ _ _ _ _ _ _ _ _ Hctor Hinit Ht)
    as (mj & t0' & psj & psj' & Hmj & Ht0' & Hfresh & Hnames & Hstep).
  assert (t0' = t0) as -> by congruence.
  assert (mj = mapJson) as -> by congruence.
  exists t0, t, psj, psj'. do 5 (split; [assumption|]).
  split; [|exact Hstep].
  rewrite Hname. destruct mapJson as [| | | | |ms]; cbn in Hti.
  - discriminate.
  - unfold init_territory in Hstep. discriminate.
  - unfold init_territory in Hstep. discriminate.
  - unfold init_territory in Hstep. discriminate.
  - unfold init_territory in Hstep. discriminate.
  - cbn. now rewrite (member_lookup ms ti name data Hkeys Hti).
Qed.

(** The player an entry names is in every roster with these names. *)
Lemma named_player_index (ti : nat) (name pn : string) (data : json)
    (psj : list Player) :
  items mapJson !! ti = Some (name, data) →
  initPlayer_of data = Some pn →
  player_name <$> psj = player_name <$> allPlayers g →
  ∃ i pl plr,
    list_find (λ q, player_name q = pn) (allPlayers g) = Some (i, pl)
    ∧ list_find (λ q, player_name q = pn) psj = Some (i, plr).
Proof.
  intros Hti Hpn Hnames.
  assert (pn ∈ player_name <$> allPlayers g) as Hin.
  { rewrite (initialize_names _ _ _ Hinit).
    destruct (ctor_players _ _ _ _ _ _ Hctor)
      as (mf' & mj' & players & Hfm' & Hpm' & -> & _ & Hiff & _).
    assert (mj' = mapJson) as -> by congruence.
    cbn. right. apply Hiff. apply list_elem_of_omap.
    exists (name, data). split; [|exact Hpn].
    now apply list_elem_of_lookup_2 in Hti. }
  destruct (list_find (λ q, player_name q = pn) (allPlayers g))
    as [[i pl]|] eqn:Hf.
  2:{ apply list_find_None in Hf.
      apply list_elem_of_fmap in Hin as (q & -> & Hq).
      rewrite Forall_forall in Hf. now destruct (Hf q Hq). }
  pose proof (list_find_names pn psj (allPlayers g) Hnames) as Heq.
  rewrite Hf in Heq.
  destruct (list_find _ psj) as [[i' plr]|]; [|discriminate].
  cbn in Heq. injection Heq as ->. eauto.
Qed.

Lemma initPlayer_of_Some (data : json) (pn : string) :
  initPlayer_of data = Some pn ↔ json_at data "initPlayer" = Ok (JStr pn).
Proof.
  unfold initPlayer_of. split.
  - destruct (json_at data "initPlayer") as [[| | |s| |]|]; try discriminate.
    now intros [= ->].
  - now intros ->.
Qed.

(** The owner of a centre whose entry names a player. *)
Lemma entry_owner (ti : nat) (name pn : string) (data : json) (t : Territory) :
  items mapJson !! ti = Some (name, data) →
  initPlayer_of data = Some pn →
  allTerritories g !! ti = Some t → center t ≠ 0 →
  ∃ i pl,
    list_find (λ q, player_name q = pn) (allPlayers g) = Some (i, pl)
    ∧ owner t = Some i.
Proof.
  intros Hti Hpn Ht Hc.
  destruct (entry_step _ _ _ Hti)
    as (t0 & t' & psj & psj' & Ht0 & Hfresh & _ & Ht' & Hnames & Hdata & Hstep).
  assert (t' = t) as -> by congruence.
  destruct (named_player_index _ _ _ _ _ Hti Hpn Hnames)
    as (i & pl & plr & Hfind & Hfindj).
  apply initPlayer_of_Some in Hpn.
  exists i, pl. split; [exact Hfind|].
  unfold init_territory in Hstep.
  rewrite Hdata in Hstep. cbn in Hstep. rewrite Hpn in Hstep. cbn in Hstep.
  bind_inv Hstep ipart Hipart. bind_inv Hstep partn Hpartn.
  rewrite Hfindj in Hstep.
  destruct (list_find _ (parts t0)) as [[k part]|]; cbn in Hstep;
    destruct (Z.eqb_spec (center t0) 0) as [Hz|_];
    injection Hstep as <- _; cbn in *; congruence.
Qed.

(** The territory of an entry without initial player is left as built. *)
Lemma entry_without_player (ti : nat) (name : string) (data : json) :
  items mapJson !! ti = Some (name, data) →
  json_at data "initPlayer" = Ok JNull →
  allTerritories g !! ti = allTerritories g0 !! ti.
Proof.
  intros Hti Hnull.
  destruct (entry_step _ _ _ Hti)
    as (t0 & t & psj & psj' & Ht0 & _ & _ & Ht & _ & Hdata & Hstep).
  unfold init_territory in Hstep.
  rewrite Hdata in Hstep. cbn in Hstep. rewrite Hnull in Hstep. cbn in Hstep.
  injection Hstep as <- _. congruence.
Qed.

(** A unit stands only on the part its entry names, and belongs to the
    player the entry names. *)
Lemma entry_unit (ti : nat) (name : string) (data : json) (t : Territory)
    (k : nat) (p : Part) (i : PlayerPtr) :
  items mapJson !! ti = Some (name, data) →
  allTerritories g !! ti = Some t → parts t !! k = Some p →
  part_unit p = Some i →
  json_at data "initPart" = Ok (JStr (part_name p))
  ∧ ∃ pn pl,
      initPlayer_of data = Some pn
      ∧ list_find (λ q, player_name q = pn) (allPlayers g) = Some (i, pl).
Proof.
  intros Hti Ht Hp Hu.
  destruct (entry_step _ _ _ Hti)
    as (t0 & t' & psj & psj' & Ht0 & [_ Hfresh] & _ & Ht' & Hnames & Hdata
        & Hstep).
  assert (t' = t) as -> by congruence.
  rewrite Forall_lookup in Hfresh.
  unfold init_territory in Hstep.
  rewrite Hdata in Hstep. cbn in Hstep.
  bind_inv Hstep ip Hip.
  destruct (is_null ip) eqn:Hnull.
  { injection Hstep as <- _. rewrite (Hfresh _ _ Hp) in Hu. discriminate. }
  bind_inv Hstep pn Hpn. bind_inv Hstep ipart Hipart.
  bind_inv Hstep partn Hpartn.
  destruct ip as [| | |s| |]; try discriminate. injection Hpn as ->.
  destruct ipart as [| | |s| |]; try discriminate. injection Hpartn as ->.
  assert (initPlayer_of data = Some pn) as Hof by now apply initPlayer_of_Some.
  destruct (named_player_index _ _ _ _ _ Hti Hof Hnames)
    as (i' & pl & plr & Hfind & Hfindj).
  rewrite Hfindj in Hstep.
  destruct (list_find (λ q, part_name q = partn) (parts t0))
    as [[k0 part]|] eqn:Hfk.
  - apply list_find_Some in Hfk as (Hk0 & Hpart & _).
    assert (parts t = alter (place_unit i') k0 (parts t0)) as Hparts.
    { cbn in Hstep. destruct (center t0 =? 0); now injection Hstep as <- _. }
    rewrite Hparts, list_lookup_alter in Hp.
    destruct (decide (k0 = k)) as [<-|].
    + rewrite Hk0 in Hp. injection Hp as <-. cbn in *.
      injection Hu as <-. rewrite Hpart. split; [exact Hipart|]. eauto.
    + rewrite (Hfresh _ _ Hp) in Hu. discriminate.
  - assert (parts t = parts t0) as Hparts.
    { cbn in Hstep. destruct (center t0 =? 0); now injection Hstep as <- _. }
    rewrite Hparts in Hp. rewrite (Hfresh _ _ Hp) in Hu. discriminate.
Qed.

End Entries.

(** X10: a Territory that is a centre and whose entry names an initial
    player is owned, after [initialize], by the first player of that name,
    and is in that player's build list, whatever the entry gives as
    initial part (a part of the territory, the string "None", any other
    string). *)
Theorem centre_goes_to_named_player (parse : string → result json)
    (dump : json → string) (fs : string → option string)
    (mapPath rulesPath mapFile : string) (g0 g : Game) (mapJson : json)
    (ti : nat) (name pn : string) (data : json) (t : Territory) :
  Game_ctor parse dump fs mapPath rulesPath = Ok g0 →
  initialize parse g0 = Ok g →
  fs mapPath = Some mapFile → parse mapFile = Ok mapJson →
  parse (dump mapJson) = Ok mapJson →
  NoDup (items mapJson).*1 →
  items mapJson !! ti = Some (name, data) →
  initPlayer_of data = Some pn →
  allTerritories g !! ti = Some t → center t ≠ 0 →
  ∃ i pl,
    list_find (λ q, player_name q = pn) (allPlayers g) = Some (i, pl)
    ∧ owner t = Some i ∧ ti ∈ allowBuild pl.
Proof.
  intros Hctor Hinit Hfile Hparse Hround Hkeys Hti Hpn Ht Hc.
  destruct (entry_owner parse dump fs mapPath rulesPath mapFile g0 g mapJson
              Hctor Hinit Hfile Hparse Hround Hkeys ti name pn data t
              Hti Hpn Ht Hc) as (i & pl & Hfind & Ho).
  exists i, pl. split; [exact Hfind|]. split; [exact Ho|].
  destruct (initialize_spec _ _ _ _ _ _ _ Hctor Hinit) as [_ Hpl].
  apply list_find_Some in Hfind as (Hi & _).
  destruct (Hpl i pl Hi) as (_ & -> & _).
  apply elem_of_owned_list. exists ti, t. now repeat split.
Qed.

Lemma centre_goes_to_named_player_witness :
  ∃ g0 g t,
    Game_ctor (parse_docs docs) json_dump fs_doc "map.json" "rules.json" = Ok g0
    ∧ initialize (parse_docs docs) g0 = Ok g
    ∧ allTerritories g !! 1%nat = Some t
    ∧ ∃ i pl,
        list_find (λ q, player_name q = "ENG") (allPlayers g) = Some (i, pl)
        ∧ owner t = Some i ∧ 1%nat ∈ allowBuild pl.
Proof.
  do 3 eexists. split; [vm_compute; reflexivity|].
  split; [vm_compute; reflexivity|]. split; [reflexivity|].
  eapply (centre_goes_to_named_player (parse_docs docs) json_dump fs_doc
            "map.json" "rules.json" (json_dump map_doc) _ _ map_doc 1 "LON").
  - vm_compute. reflexivity.
  - vm_compute. reflexivity.
  - reflexivity.
  - vm_compute. reflexivity.
  - vm_compute. reflexivity.
  - apply (bool_decide_unpack _). vm_compute. exact I.
  - reflexivity.
  - reflexivity.
  - reflexivity.
  - discriminate.
Defined.

(** X11: [initialize] leaves the Territory of an entry whose [initPlayer]
    is null exactly as the constructor built it, with no owner and no
    unit, also when the Territory is a centre and the entry names an
    initial part. *)
Theorem no_initial_player_no_change (parse : string → result json)
    (dump : json → string) (fs : string → option string)
    (mapPath rulesPath mapFile : string) (g0 g : Game) (mapJson : json)
    (ti : nat) (name : string) (data : json) :
  Game_ctor parse dump fs mapPath rulesPath = Ok g0 →
  initialize parse g0 = Ok g →
  fs mapPath = Some mapFile → parse mapFile = Ok mapJson →
  parse (dump mapJson) = Ok mapJson →
  NoDup (items mapJson).*1 →
  items mapJson !! ti = Some (name, data) →
  json_at data "initPlayer" = Ok JNull →
  allTerritories g !! ti = allTerritories g0 !! ti
  ∧ ∀ t, allTerritories g !! ti = Some t →
      owner t = None ∧ Forall (λ p, part_unit p = None) (parts t).
Proof.
  intros Hctor Hinit Hfile Hparse Hround Hkeys Hti Hnull.
  pose proof (entry_without_player parse dump fs mapPath rulesPath mapFile
                g0 g mapJson Hctor Hinit Hfile Hparse Hround Hkeys
                ti name data Hti Hnull) as Heq.
  split; [exact Heq|]. intros t Ht. rewrite Heq in Ht.
  destruct (ctor_fresh _ _ _ _ _ _ Hctor) as [Hfresh _].
  exact (Forall_lookup_1 _ _ _ _ Hfresh Ht).
Qed.

Lemma no_initial_player_no_change_witness :
  ∃ g0 g,
    Game_ctor (parse_docs docs) json_dump fs_doc "map.json" "rules.json" = Ok g0
    ∧ initialize (parse_docs docs) g0 = Ok g
    ∧ allTerritories g !! 0%nat = allTerritories g0 !! 0%nat
    ∧ ∀ t, allTerritories g !! 0%nat = Some t →
        owner t = None ∧ Forall (λ p, part_unit p = None) (parts t).
Proof.
  do 2 eexists. split; [vm_compute; reflexivity|].
  split; [vm_compute; reflexivity|].
  eapply (no_initial_player_no_change (parse_docs docs) json_dump fs_doc
            "map.json" "rules.json" (json_dump map_doc) _ _ map_doc 0 "BEL").
  - vm_compute. reflexivity.
  - vm_compute. reflexivity.
  - reflexivity.
  - vm_compute. reflexivity.
  - vm_compute. reflexivity.
  - apply (bool_decide_unpack _). vm_compute. exact I.
  - reflexivity.
  - reflexivity.
Defined.

(** X12: after [initialize] a unit stands only where the map puts it: an
    occupied Part is the Part its entry names as [initPart], and its unit
    is the first player with the name the entry gives as [initPlayer].
    An [initPart] that names no Part of the Territory (the string "None"
    of the header comment, or a Part of another Territory) places no
    unit. *)
Theorem unit_only_where_map_says (parse : string → result json)
    (dump : json → string) (fs : string → option string)
    (mapPath rulesPath mapFile : string) (g0 g : Game) (mapJson : json)
    (ti : nat) (name : string) (data : json) (t : Territory) :
  Game_ctor parse dump fs mapPath rulesPath = Ok g0 →
  initialize parse g0 = Ok g →
  fs mapPath = Some mapFile → parse mapFile = Ok mapJson →
  parse (dump mapJson) = Ok mapJson →
  NoDup (items mapJson).*1 →
  items mapJson !! ti = Some (name, data) →
  allTerritories g !! ti = Some t →
  (∀ k p i, parts t !! k = Some p → part_unit p = Some i →
     json_at data "initPart" = Ok (JStr (part_name p))
     ∧ ∃ pn pl,
         initPlayer_of data = Some pn
         ∧ list_find (λ q, player_name q = pn) (allPlayers g) = Some (i, pl))
  ∧ ((∀ partn, json_at data "initPart" = Ok (JStr partn) →
        partn ∉ part_keys data) →
     Forall (λ p, part_unit p = None) (parts t)).
Proof.
  intros Hctor Hinit Hfile Hparse Hround Hkeys Hti Ht.
  pose proof (entry_unit parse dump fs mapPath rulesPath mapFile g0 g mapJson
                Hctor Hinit Hfile Hparse Hround Hkeys ti name data t) as Hunit.
  split; [intros k p i; now apply Hunit|].
  intros Hno. apply Forall_lookup. intros k p Hp.
  destruct (part_unit p) as [i|] eqn:Hu; [|reflexivity].
  exfalso. destruct (Hunit k p i Hti Ht Hp Hu) as [Hpart _].
  apply (Hno _ Hpart).
  destruct (entry_step parse dump fs mapPath rulesPath mapFile g0 g mapJson
              Hctor Hinit Hfile Hparse Hround Hkeys ti name data Hti)
    as (t0 & t' & psj & psj' & _ & _ & Hnames & Ht' & _ & _ & Hstep).
  assert (t' = t) as -> by congruence.
  rewrite <- Hnames.
  destruct (init_territory_static _ _ _ _ _ _ Hstep) as [(_ & _ & Hparts) _].
  destruct (Forall2_lookup_r _ _ _ _ _ Hparts Hp) as (p0 & Hp0 & Hn & _).
  rewrite Hn. apply list_elem_of_fmap. exists p0. split; [reflexivity|].
  now apply list_elem_of_lookup_2 in Hp0.
Qed.

Lemma unit_only_where_map_says_witness :
  ∃ g0 g t,
    Game_ctor (parse_docs docs) json_dump fs_doc "map.json" "rules.json" = Ok g0
    ∧ initialize (parse_docs docs) g0 = Ok g
    ∧ allTerritories g !! 3%nat = Some t
    ∧ territory_name t = "UKR"
    ∧ Forall (λ p, part_unit p = None) (parts t).
Proof.
  do 3 eexists. split; [vm_compute; reflexivity|].
  split; [vm_compute; reflexivity|]. split; [reflexivity|].
  split; [reflexivity|].
  eapply (unit_only_where_map_says (parse_docs docs) json_dump fs_doc
            "map.json" "rules.json" (json_dump map_doc) _ _ map_doc 3 "UKR").
  - vm_compute. reflexivity.
  - vm_compute. reflexivity.
  - reflexivity.
  - vm_compute. reflexivity.
  - vm_compute. reflexivity.
  - apply (bool_decide_unpack _). vm_compute. exact I.
  - reflexivity.
  - reflexivity.
  - intros partn [= <-] Hin. apply list_elem_of_In in Hin.
    vm_compute in Hin. destruct Hin as [[=]|[]].
Defined.

(** ** The order of the roster *)

Lemma collect_players_order (its : list (string * json))
    (playerMap : gmap string PlayerPtr) (acc ps : list Player) :
  collect_players its playerMap (publicPlayer :: acc) = Ok ps →
  (∀ n, is_Some (playerMap !! n) ↔ n ∈ player_name <$> acc) →
  player_name <$> ps
  = "public" :: (player_name <$> acc)
    ++ first_occurrences (player_name <$> acc)
         (omap (λ it : string * json, initPlayer_of it.2) its).
Proof.
  revert playerMap acc.
  induction its as [|[name data] rest IH]; intros pm acc H Hpm; cbn in H.
  - injection H as <-. cbn. now rewrite app_nil_r.
  - bind_inv H ip Hip. cbn [omap list_omap]. unfold initPlayer_of at 1.
    cbn [snd]. rewrite Hip.
    destruct (is_null ip) eqn:Hnull.
    { destruct ip; try discriminate. exact (IH _ _ H Hpm). }
    bind_inv H playerName Hname.
    destruct ip as [| | |s| |]; try discriminate. injection Hname as ->.
    cbn [first_occurrences].
    destruct (pm !! playerName) as [i|] eqn:Hlook.
    + rewrite decide_True by (apply Hpm; now exists i).
      exact (IH _ _ H Hpm).
    + rewrite decide_False.
      2:{ intros Hn. apply Hpm in Hn as [? ?]. congruence. }
      change (publicPlayer :: acc ++ [new_player playerName])
        with (publicPlayer :: (acc ++ [new_player playerName])) in H.
      rewrite (IH _ (acc ++ [new_player playerName]) H).
      * rewrite fmap_app, <- app_assoc. reflexivity.
      * intros n. rewrite fmap_app, elem_of_app. cbn.
        rewrite list_elem_of_singleton, lookup_insert_is_Some. split.
        -- intros [->|[_ Hs]]; [now right | left; now apply Hpm].
        -- intros [Hn | ->]; [|now left].
           destruct (decide (playerName = n)) as [->|Hne]; [now left|].
           right. split; [assumption | now apply Hpm].
Qed.

(** X13: the roster lists "public" first and then the initial players of
    the map in the order in which the iteration over the map first meets
    their names, so that the index of a player is 1 plus the number of
    distinct names met before its own. *)
Theorem roster_in_order_of_first_occurrence (parse : string → result json)
    (dump : json → string) (fs : string → option string)
    (mapPath rulesPath : string) (g : Game) :
  Game_ctor parse dump fs mapPath rulesPath = Ok g →
  ∃ mapFile mapJson,
    fs mapPath = Some mapFile ∧ parse mapFile = Ok mapJson
    ∧ player_name <$> allPlayers g
      = "public" :: first_occurrences [] (initPlayers mapJson).
Proof.
  intros Hg.
  destruct (ctor_Ok_inv _ _ _ _ _ _ Hg)
    as (mf & rf & mj & rj & dt & Hfm & _ & Hpm & _ & _ & Hps & _).
  exists mf, mj. split; [exact Hfm|]. split; [exact Hpm|].
  rewrite (collect_players_order _ ∅ [] _ Hps); [reflexivity|].
  intros n. rewrite lookup_empty. cbn. split.
  - intros [? ?]. discriminate.
  - intros Hn. inversion Hn.
Qed.

Lemma roster_in_order_of_first_occurrence_witness :
  ∃ g, Game_ctor (parse_docs docs) json_dump fs_doc "map.json" "rules.json"
       = Ok g
    ∧ ∃ mapFile mapJson,
        fs_doc "map.json" = Some mapFile
        ∧ parse_docs docs mapFile = Ok mapJson
        ∧ player_name <$> allPlayers g
          = "public" :: first_occurrences [] (initPlayers mapJson).
Proof.
  eexists. split; [vm_compute; reflexivity|].
  apply (roster_in_order_of_first_occurrence (parse_docs docs) json_dump
           fs_doc "map.json" "rules.json").
  vm_compute. reflexivity.
Defined.

(** ** The empty map *)

(** X14: on a map without entry (the object [{}] or [null]) the
    constructor builds no Territory and a roster that holds the
    pseudo-player "public" alone, and [initialize] returns the game
    unchanged. *)
Theorem empty_map_loads_nothing (parse : string → result json)
    (dump : json → string) (fs : string → option string)
    (mapPath rulesPath mapFile : string) (mapJson : json) (g0 : Game) :
  Game_ctor parse dump fs mapPath rulesPath = Ok g0 →
  fs mapPath = Some mapFile → parse mapFile = Ok mapJson →
  items mapJson = [] →
  allTerritories g0 = [] ∧ allPlayers g0 = [publicPlayer]
  ∧ ∀ mapJson', parse (mapRaw g0) = Ok mapJson' → initialize parse g0 = Ok g0.
Proof.
  intros Hg0 Hfs Hparse Hitems.
  destruct (ctor_Ok_inv _ _ _ _ _ _ Hg0)
    as (mf & rf & mj & rj & dt & Hfm & _ & Hpm & _ & Hts & Hps & _).
  assert (mf = mapFile) as -> by congruence.
  assert (mj = mapJson) as -> by congruence.
  rewrite Hitems in Hts, Hps. cbn in Hts, Hps.
  injection Hts as Hts. injection Hps as Hps.
  split; [now symmetry|]. split; [now symmetry|].
  intros mj' Hmj'. unfold initialize. rewrite Hmj'. cbn.
  rewrite <- Hts. cbn. destruct g0. cbn in *. now subst.
Qed.

Lemma empty_map_loads_nothing_witness :
  ∃ g0,
    Game_ctor (parse_docs [map_empty; rules_doc]) json_dump fs_empty_map
      "map.json" "rules.json" = Ok g0
    ∧ allTerritories g0 = [] ∧ allPlayers g0 = [publicPlayer]
    ∧ ∀ mapJson', parse_docs [map_empty; rules_doc] (mapRaw g0) = Ok mapJson' →
        initialize (parse_docs [map_empty; rules_doc]) g0 = Ok g0.
Proof.
  eexists. split; [vm_compute; reflexivity|].
  apply (empty_map_loads_nothing (parse_docs [map_empty; rules_doc])
           json_dump fs_empty_map "map.json" "rules.json"
           (json_dump map_empty) map_empty).
  - vm_compute. reflexivity.
  - reflexivity.
  - vm_compute. reflexivity.
  - reflexivity.
Defined.

(** ** Which error the constructor reports *)

Lemma rules_not_loadable_throws (parse : string → result json)
    (dump : json → string) (fs : string → option string)
    (mapPath rulesPath mapFile rulesFile : string) (mapJson rulesJson : json) :
  fs mapPath = Some mapFile → fs rulesPath = Some rulesFile →
  parse mapFile = Ok mapJson → parse rulesFile = Ok rulesJson →
  rules_loadable rulesJson = false →
  ∃ id w, Game_ctor parse dump fs mapPath rulesPath = Throw (type_error id w).
Proof.
  intros Hfm Hfr Hpm Hpr Hrules.
  unfold Game_ctor. rewrite Hfm, Hfr, Hpm, Hpr. cbn.
  unfold rules_loadable, numeric_field in Hrules.
  destruct (json_at rulesJson "winCondition") as [wc|e] eqn:Hwc.
  2:{ destruct rulesJson; try discriminate; cbn in Hwc; injection Hwc as <-;
        eauto. }
  cbn. destruct (get_unsigned 32 wc) as [n|e] eqn:Hn.
  2:{ destruct wc; try discriminate; cbn in Hn; injection Hn as <-; eauto. }
  cbn. assert (is_number wc = true) as Hnum.
  { rewrite <- (get_unsigned_is_Ok 32), Hn. reflexivity. }
  rewrite Hnum in Hrules. cbn in Hrules.
  destruct (json_at rulesJson "buildRule") as [br|e] eqn:Hbr.
  2:{ destruct rulesJson; cbn in Hwc, Hbr; discriminate. }
  cbn. destruct (json_at rulesJson "buildTime") as [bt|e] eqn:Hbt.
  2:{ destruct rulesJson; cbn in Hwc, Hbt; discriminate. }
  cbn. destruct (get_unsigned 32 bt) as [m|e] eqn:Hm.
  - rewrite <- (get_unsigned_is_Ok 32), Hm in Hrules. discriminate.
  - destruct bt; try discriminate; cbn in Hm; injection Hm as <-; eauto.
Qed.

(** X15: the constructor reports the first failure in the order of its
    statements.  A file that cannot be opened gives "Failed to open input
    files" even when the other file holds no JSON; with both files open a
    parse error of the map comes before a parse error of the rules; with
    both files parsed, rules without a numeric [winCondition] or
    [buildTime] give a type error whatever the map holds. *)
Theorem first_error_wins (parse : string → result json)
    (dump : json → string) (fs : string → option string)
    (mapPath rulesPath : string) :
  (fs mapPath = None ∨ fs rulesPath = None →
   Game_ctor parse dump fs mapPath rulesPath
   = Throw (runtime_error "Failed to open input files"))
  ∧ (∀ mapFile rulesFile e,
       fs mapPath = Some mapFile → fs rulesPath = Some rulesFile →
       parse mapFile = Throw e →
       Game_ctor parse dump fs mapPath rulesPath = Throw e)
  ∧ (∀ mapFile rulesFile mapJson e,
       fs mapPath = Some mapFile → fs rulesPath = Some rulesFile →
       parse mapFile = Ok mapJson → parse rulesFile = Throw e →
       Game_ctor parse dump fs mapPath rulesPath = Throw e)
  ∧ (∀ mapFile rulesFile mapJson rulesJson,
       fs mapPath = Some mapFile → fs rulesPath = Some rulesFile →
       parse mapFile = Ok mapJson → parse rulesFile = Ok rulesJson →
       rules_loadable rulesJson = false →
       ∃ id w,
         Game_ctor parse dump fs mapPath rulesPath = Throw (type_error id w)).
Proof.
  split; [apply ctor_missing_file|]. split; [|split].
  - intros mf rf e Hfm Hfr Hpm. unfold Game_ctor.
    now rewrite Hfm, Hfr, Hpm.
  - intros mf rf mj e Hfm Hfr Hpm Hpr. unfold Game_ctor.
    now rewrite Hfm, Hfr, Hpm, Hpr.
  - intros mf rf mj rj. apply rules_not_loadable_throws.
Qed.

Lemma first_error_wins_witness :
  Game_ctor (parse_docs docs) json_dump (two_files None (Some "{"))
    "map.json" "rules.json"
  = Throw (runtime_error "Failed to open input files")
  ∧ ∃ id w,
      Game_ctor (parse_docs [JObj [("LON", JObj [])]; JObj []]) json_dump
        (two_files (Some (json_dump (JObj [("LON", JObj [])])))
                   (Some (json_dump (JObj [])))) "map.json" "rules.json"
      = Throw (type_error id w).
Proof.
  split.
  - apply (first_error_wins (parse_docs docs) json_dump
             (two_files None (Some "{")) "map.json" "rules.json").
    left. reflexivity.
  - eapply (first_error_wins (parse_docs [JObj [("LON", JObj [])]; JObj []])
              json_dump
              (two_files (Some (json_dump (JObj [("LON", JObj [])])))
                         (Some (json_dump (JObj [])))) "map.json" "rules.json");
      vm_compute; reflexivity.
Defined.

(** A missing map beside garbled rules, a garbled map beside garbled
    rules, and rules without [winCondition] beside a map whose territory
    has no [center]. *)
Example errors_in_order :
  stderr (main (parse_docs docs) json_dump Ok (two_files None (Some "{")))
  = "Error: Failed to open input files" +:+ endl
  ∧ stderr (main (parse_docs docs) json_dump Ok
              (two_files (Some "[") (Some "{")))
    = "Error: parse error at line 1, column 1" +:+ endl
  ∧ stderr (main (parse_docs [JObj [("LON", JObj [])]; JObj []]) json_dump Ok
              (two_files (Some (json_dump (JObj [("LON", JObj [])])))
                         (Some (json_dump (JObj [])))))
    = "Error: [json.exception.type_error.302] type must be number, but is null"
      +:+ endl.
Proof. vm_compute. repeat split. Qed.

(** ** Calling [initialize] again *)

(** The territory an iteration returns depends on the roster through the
    names of the players only. *)
Lemma init_territory_names (mapJson : json) (ti : TerritoryPtr)
    (t0 t1 : Territory) (psA psA' psB : list Player) :
  init_territory mapJson ti t0 psA = Ok (t1, psA') →
  player_name <$> psB = player_name <$> psA →
  ∃ psB', init_territory mapJson ti t0 psB = Ok (t1, psB').
Proof.
  intros H Hnames. unfold init_territory in *.
  bind_inv H d Hd. rewrite Hd. cbn.
  bind_inv H ip Hip. rewrite Hip. cbn.
  destruct (is_null ip); [injection H as <- _; eauto|].
  bind_inv H playerName Hname. rewrite Hname. cbn.
  bind_inv H ipart Hipart. rewrite Hipart. cbn.
  bind_inv H initPartName Hpart. rewrite Hpart. cbn.
  pose proof (list_find_names playerName psB psA Hnames) as Heq.
  destruct (list_find _ psA) as [[i plr]|],
           (list_find _ psB) as [[i' plr']|]; try discriminate.
  2:{ injection H as <- _. eauto. }
  cbn in Heq. injection Heq as ->.
  destruct (list_find _ (parts t0)) as [[k part]|]; cbn in *;
    destruct (center t0 =? 0); injection H as <- _; eauto.
Qed.

Lemma place_unit_twice (i : PlayerPtr) (k : nat) (l : list Part) :
  alter (place_unit i) k (alter (place_unit i) k l) = alter (place_unit i) k l.
Proof. rewrite list_alter_alter_eq. now apply list_alter_ext. Qed.

Lemma list_find_placed (n : string) (i : PlayerPtr) (k : nat) (part : Part)
    (l : list Part) :
  list_find (λ p, part_name p = n) l = Some (k, part) →
  list_find (λ p, part_name p = n) (alter (place_unit i) k l)
  = Some (k, place_unit i part).
Proof.
  intros H. apply list_find_Some in H as (Hk & Hn & Hbefore).
  apply list_find_Some. split; [now rewrite list_lookup_alter_eq, Hk|].
  split; [exact Hn|]. intros j q Hj Hlt.
  rewrite list_lookup_alter_ne in Hj by lia. now apply (Hbefore j).
Qed.

(** An iteration run again on the territory it returned returns it again,
    and treats the players as before. *)
Lemma init_territory_settled (mapJson : json) (ti : TerritoryPtr)
    (t0 t1 : Territory) (ps ps' : list Player) :
  init_territory mapJson ti t0 ps = Ok (t1, ps') →
  init_territory mapJson ti t1 ps = Ok (t1, ps').
Proof.
  intros H. unfold init_territory in H.
  bind_inv H d Hd. bind_inv H ip Hip.
  assert (∀ t, territory_name t = territory_name t0 →
            init_territory mapJson ti t ps
            = (if is_null ip then Ok (t, ps)
               else
                 playerName ← get_string ip;
                 ipart ← json_at d "initPart";
                 initPartName ← get_string ipart;
                 match list_find (λ p, player_name p = playerName) ps with
                 | None => Ok (t, ps)
                 | Some (player, _) =>
                     let '(territory1, players1) :=
                       match list_find (λ p, part_name p = initPartName)
                               (parts t) with
                       | Some (k, _) =>
                           (set_parts t (alter (place_unit player) k (parts t)),
                            alter (add_unit (ti, k)) player ps)
                       | None => (t, ps)
                       end in
                     if center territory1 =? 0 then Ok (territory1, players1)
                     else Ok (set_owner territory1 player,
                              alter (add_center ti) player players1)
                 end)) as Hrun.
  { intros t Hn. unfold init_territory. rewrite Hn, Hd. cbn. now rewrite Hip. }
  destruct (is_null ip) eqn:Hnull.
  { injection H as <- <-. now rewrite Hrun by reflexivity. }
  bind_inv H playerName Hname. bind_inv H ipart Hipart.
  bind_inv H initPartName Hpart.
  destruct (list_find _ ps) as [[i plr]|] eqn:Hfind.
  2:{ injection H as <- <-. rewrite Hrun by reflexivity.
      rewrite Hname. cbn. rewrite Hipart. cbn. rewrite Hpart. cbn.
      now rewrite Hfind. }
  destruct (list_find _ (parts t0)) as [[k part]|] eqn:Hfk; cbn in H;
    destruct (center t0 =? 0) eqn:Hc; injection H as <- <-;
    rewrite Hrun by reflexivity;
    rewrite Hname; cbn; rewrite Hipart; cbn; rewrite Hpart; cbn;
    rewrite Hfind; cbn.
  - rewrite (list_find_placed _ i _ _ _ Hfk). cbn. rewrite Hc.
    unfold set_parts. cbn. now rewrite place_unit_twice.
  - rewrite (list_find_placed _ i _ _ _ Hfk). cbn. rewrite Hc.
    unfold set_owner, set_parts. cbn. now rewrite place_unit_twice.
  - rewrite Hfk. cbn. now rewrite Hc.
  - rewrite Hfk. cbn. now rewrite Hc.
Qed.

Lemma init_territory_again (mapJson : json) (ti : TerritoryPtr)
    (t0 t1 : Territory) (psA psA' psB : list Player) :
  init_territory mapJson ti t0 psA = Ok (t1, psA') → fresh_territory t0 →
  player_name <$> psB = player_name <$> psA →
  ∃ psB',
    init_territory mapJson ti t1 psB = Ok (t1, psB')
    ∧ length psB' = length psB
    ∧ ∀ i pl, psB !! i = Some pl →
        ∃ pl', psB' !! i = Some pl' ∧ player_grows i ti t1 pl pl'.
Proof.
  intros H Hfresh Hnames.
  destruct (init_territory_names _ _ _ _ _ _ _ H Hnames) as [psB' HB].
  exists psB'. split; [now apply init_territory_settled in HB|].
  destruct (init_territory_spec _ _ _ _ _ _ HB Hfresh) as (_ & Hlen & Hgrow).
  now split.
Qed.

Lemma init_loop_again (mapJson : json) (ti : TerritoryPtr)
    (ts0 ts1 : list Territory) (psA psA' psB : list Player) :
  init_loop mapJson ti ts0 psA = Ok (ts1, psA') → Forall fresh_territory ts0 →
  player_name <$> psB = player_name <$> psA →
  ∃ psB',
    init_loop mapJson ti ts1 psB = Ok (ts1, psB')
    ∧ length psB' = length psB
    ∧ ∀ i pl, psB !! i = Some pl →
        ∃ pl', psB' !! i = Some pl'
          ∧ units pl' = units pl ++ occupied_list i ti ts1
          ∧ allowBuild pl' = allowBuild pl ++ owned_list i ti ts1
          ∧ (counts_ok pl → counts_ok pl').
Proof.
  revert ti ts1 psA psA' psB.
  induction ts0 as [|t0 ts0 IH]; intros ti ts1 psA psA' psB H Hfresh Hnames;
    cbn in H.
  - injection H as <- <-. exists psB. split; [reflexivity|].
    split; [reflexivity|]. intros i pl Hi. exists pl. cbn.
    rewrite !app_nil_r. do 3 (split; [first [reflexivity | assumption]|]). auto.
  - bind_inv H r1 H1. destruct r1 as [t1 psA1].
    bind_inv H r2 H2. destruct r2 as [ts2 psA2]. injection H as <- <-.
    inversion Hfresh as [|? ? Ht Hts]; subst.
    destruct (init_territory_again _ _ _ _ _ _ _ H1 Ht Hnames)
      as (psB1 & HB1 & Hlen1 & Hg1).
    assert (player_name <$> psB1 = player_name <$> psA1) as Hnames1.
    { transitivity (player_name <$> psB).
      - apply names_preserved; [exact Hlen1|]. intros i pl Hi.
        destruct (Hg1 i pl Hi) as (pl' & ? & ? & _). eauto.
      - rewrite Hnames. symmetry.
        destruct (init_territory_spec _ _ _ _ _ _ H1 Ht) as (_ & Hl & Hg).
        apply names_preserved; [exact Hl|]. intros i pl Hi.
        destruct (Hg i pl Hi) as (pl' & ? & ? & _). eauto. }
    destruct (IH _ _ _ _ _ H2 Hts Hnames1) as (psB2 & HB2 & Hlen2 & Hg2).
    exists psB2. split; [cbn; now rewrite HB1; cbn; rewrite HB2|].
    split; [congruence|]. intros i pl Hi.
    destruct (Hg1 i pl Hi) as (pl1 & Hi1 & _ & _ & _ & Hu1 & Ha1 & Hc1).
    destruct (Hg2 i pl1 Hi1) as (pl2 & Hi2 & Hu2 & Ha2 & Hc2).
    exists pl2. split; [exact Hi2|]. cbn [occupied_list owned_list].
    rewrite Hu2, Hu1, Ha2, Ha1, <- !app_assoc.
    do 2 (split; [reflexivity|]). auto.
Qed.

(** X16: [initialize] is not idempotent.  A second call on the game the
    first call returned succeeds and leaves the Territories as they are,
    and credits every unit and every centre a second time: the [units]
    and [allowBuild] of every player are doubled, and the counters count
    twice what the player occupies and owns. *)
Theorem initialize_again_doubles (parse : string → result json)
    (dump : json → string) (fs : string → option string)
    (mapPath rulesPath : string) (g0 g : Game) :
  Game_ctor parse dump fs mapPath rulesPath = Ok g0 →
  initialize parse g0 = Ok g →
  ∃ g2,
    initialize parse g = Ok g2
    ∧ allTerritories g2 = allTerritories g
    ∧ ∀ i pl, allPlayers g !! i = Some pl →
        ∃ pl2, allPlayers g2 !! i = Some pl2
          ∧ units pl2 = units pl ++ units pl
          ∧ allowBuild pl2 = allowBuild pl ++ allowBuild pl
          ∧ unitCount pl2 = wrap_int (2 * Z.of_nat (parts_occupied g i))
          ∧ centerCount pl2 = wrap_int (2 * Z.of_nat (territories_owned g i)).
Proof.
  intros Hg0 Hg.
  destruct (ctor_fresh _ _ _ _ _ _ Hg0) as [Hfresh _].
  destruct (initialize_spec _ _ _ _ _ _ _ Hg0 Hg) as [_ Hpl].
  pose proof (initialize_names _ _ _ Hg) as Hnames.
  unfold initialize in Hg. bind_inv Hg mj Hmj.
  bind_inv Hg r Hloop. destruct r as [ts ps]. injection Hg as <-.
  cbn [allTerritories allPlayers] in *.
  destruct (init_loop_again _ _ _ _ _ _ ps Hloop Hfresh Hnames)
    as (ps2 & Hloop2 & Hlen2 & Hgrow).
  eexists. split.
  { unfold initialize. cbn. rewrite Hmj. cbn. rewrite Hloop2. reflexivity. }
  cbn. split; [reflexivity|]. intros i pl Hi.
  destruct (Hgrow i pl Hi) as (pl2 & Hi2 & Hu2 & Ha2 & Hc2).
  destruct (Hpl i pl Hi) as (Hu & Ha & Hc).
  exists pl2. split; [exact Hi2|].
  rewrite <- Hu in Hu2. rewrite <- Ha in Ha2.
  split; [exact Hu2|]. split; [exact Ha2|].
  destruct (Hc2 Hc) as [Hcu Hcc].
  unfold parts_occupied, territories_owned. cbn.
  rewrite <- length_occupied_list with (ti := 0%nat), <- Hu.
  rewrite <- length_owned_list with (ti := 0%nat), <- Ha.
  rewrite Hcu, Hcc, Hu2, Ha2, !length_app. split; f_equal; lia.
Qed.

Lemma initialize_again_doubles_witness :
  ∃ g0 g g2,
    Game_ctor (parse_docs docs) json_dump fs_doc "map.json" "rules.json" = Ok g0
    ∧ initialize (parse_docs docs) g0 = Ok g
    ∧ initialize (parse_docs docs) g = Ok g2
    ∧ allTerritories g2 = allTerritories g
    ∧ ∀ i pl, allPlayers g !! i = Some pl →
        ∃ pl2, allPlayers g2 !! i = Some pl2
          ∧ units pl2 = units pl ++ units pl
          ∧ allowBuild pl2 = allowBuild pl ++ allowBuild pl
          ∧ unitCount pl2 = wrap_int (2 * Z.of_nat (parts_occupied g i))
          ∧ centerCount pl2
            = wrap_int (2 * Z.of_nat (territories_owned g i)).
Proof.
  destruct (initialize_again_doubles (parse_docs docs) json_dump fs_doc
              "map.json" "rules.json" _ _
              ltac:(vm_compute; reflexivity) ltac:(vm_compute; reflexivity))
    as (g2 & H2 & Hts & Hpl).
  do 3 eexists. split; [vm_compute; reflexivity|].
  split; [vm_compute; reflexivity|].
  split; [exact H2|]. split; [exact Hts | exact Hpl].
Defined.

(** The header map initialised twice: ENG and RUS hold one Part and own
    one Territory each, and their counters say 2. *)
Example counters_after_two_calls :
  (λ g, (λ pl, (player_name pl, unitCount pl, centerCount pl,
                parts_occupied g 1, parts_occupied g 2)) <$> allPlayers g)
  <$> (match Game_ctor (parse_docs docs) json_dump fs_doc
               "map.json" "rules.json"
             ≫= initialize (parse_docs docs)
       with
       | Ok g => match initialize (parse_docs docs) g with
                 | Ok g2 => Some g2
                 | Throw _ => None
                 end
       | Throw _ => None
       end)
  = Some [("public", 0, 0, 1%nat, 1%nat); ("ENG", 2, 2, 1%nat, 1%nat);
          ("RUS", 2, 2, 1%nat, 1%nat)].
Proof. vm_compute. reflexivity. Qed.

(** ** Counters and occupancy after initialisation, and after further calls *)

Lemma length_join_replicate {A} (n : nat) (l : list A) :
  length (mjoin (replicate n l)) = (n * length l)%nat.
Proof.
  induction n as [|n IH]; [reflexivity|].
  cbn [replicate]. change (mjoin (l :: replicate n l))
    with (l ++ mjoin (replicate n l)).
  rewrite length_app, IH. reflexivity.
Qed.

Lemma elem_of_join_replicate {A} (n : nat) (l : list A) (x : A) :
  x ∈ mjoin (replicate (S n) l) ↔ x ∈ l.
Proof.
  induction n as [|n IH].
  - cbn. now rewrite app_nil_r.
  - change (mjoin (replicate (S (S n)) l))
      with (l ++ mjoin (replicate (S n) l)).
    rewrite elem_of_app, IH. tauto.
Qed.

(** One more call of [initialize] on a game that has the board, the raw
    map and the player names of an initialised game: the board stays, and
    every player is credited once more with what it holds. *)
Lemma initialize_on_settled (parse : string → result json)
    (dump : json → string) (fs : string → option string)
    (mapPath rulesPath : string) (g0 g h : Game) :
  Game_ctor parse dump fs mapPath rulesPath = Ok g0 →
  initialize parse g0 = Ok g →
  allTerritories h = allTerritories g → mapRaw h = mapRaw g →
  player_name <$> allPlayers h = player_name <$> allPlayers g →
  ∃ h',
    initialize parse h = Ok h'
    ∧ allTerritories h' = allTerritories g ∧ mapRaw h' = mapRaw g
    ∧ player_name <$> allPlayers h' = player_name <$> allPlayers g
    ∧ ∀ i pl, allPlayers h !! i = Some pl →
        ∃ pl', allPlayers h' !! i = Some pl'
          ∧ units pl' = units pl ++ occupied_list i 0 (allTerritories g)
          ∧ allowBuild pl' = allowBuild pl ++ owned_list i 0 (allTerritories g)
          ∧ (counts_ok pl → counts_ok pl').
Proof.
  intros Hg0 Hg Hts Hraw Hnames.
  destruct (ctor_fresh _ _ _ _ _ _ Hg0) as [Hfresh _].
  pose proof (initialize_names _ _ _ Hg) as Hn0.
  unfold initialize in Hg. bind_inv Hg mj Hmj.
  bind_inv Hg r Hloop. destruct r as [ts ps]. injection Hg as <-.
  cbn [allTerritories allPlayers mapRaw] in *.
  destruct (init_loop_again _ _ _ _ _ _ (allPlayers h) Hloop Hfresh)
    as (ps2 & Hloop2 & Hlen2 & Hgrow); [now rewrite Hnames, Hn0|].
  assert (∃ h', initialize parse h = Ok h' ∧ allTerritories h' = ts
                ∧ allPlayers h' = ps2 ∧ mapRaw h' = mapRaw g0)
    as (h' & Hh' & Ht' & Hp' & Hr').
  { unfold initialize. rewrite Hraw, Hmj. cbn. rewrite Hts, Hloop2. cbn.
    eexists. split; [reflexivity|]. cbn. auto. }
  exists h'. split; [exact Hh'|]. split; [exact Ht'|]. split; [exact Hr'|].
  split.
  - rewrite (initialize_names _ _ _ Hh'). exact Hnames.
  - rewrite Hp'. exact Hgrow.
Qed.

Lemma initialize_times_settled (parse : string → result json)
    (dump : json → string) (fs : string → option string)
    (mapPath rulesPath : string) (g0 g : Game) :
  Game_ctor parse dump fs mapPath rulesPath = Ok g0 →
  initialize parse g0 = Ok g →
  ∀ n h,
    allTerritories h = allTerritories g → mapRaw h = mapRaw g →
    player_name <$> allPlayers h = player_name <$> allPlayers g →
    ∃ hn,
      initialize_times parse n h = Ok hn
      ∧ allTerritories hn = allTerritories g
      ∧ length (allPlayers hn) = length (allPlayers h)
      ∧ ∀ i pl, allPlayers h !! i = Some pl →
          ∃ pln, allPlayers hn !! i = Some pln
            ∧ units pln
              = units pl
                ++ mjoin (replicate n (occupied_list i 0 (allTerritories g)))
            ∧ allowBuild pln
              = allowBuild pl
                ++ mjoin (replicate n (owned_list i 0 (allTerritories g)))
            ∧ (counts_ok pl → counts_ok pln).
Proof.
  intros Hg0 Hg n. induction n as [|n IH]; intros h Hts Hraw Hnames.
  - exists h. split; [reflexivity|]. split; [exact Hts|].
    split; [reflexivity|]. intros i pl Hi. exists pl. cbn.
    rewrite !app_nil_r. auto.
  - destruct (initialize_on_settled _ _ _ _ _ _ _ h Hg0 Hg Hts Hraw Hnames)
      as (h' & Hh' & Hts' & Hraw' & Hnames' & Hgrow).
    destruct (IH h' Hts' Hraw' Hnames') as (hn & Hhn & Htn & Hlen & Hgrown).
    exists hn. split; [cbn; now rewrite Hh'|]. split; [exact Htn|].
    split.
    { rewrite Hlen. rewrite <- (length_fmap player_name (allPlayers h')),
        <- (length_fmap player_name (allPlayers h)). congruence. }
    intros i pl Hi.
    destruct (Hgrow i pl Hi) as (pl' & Hi' & Hu' & Ha' & Hc').
    destruct (Hgrown i pl' Hi') as (pln & Hin & Hun & Han & Hcn).
    exists pln. split; [exact Hin|].
    cbn [replicate].
    change (mjoin (occupied_list i 0 (allTerritories g)
                   :: replicate n (occupied_list i 0 (allTerritories g))))
      with (occupied_list i 0 (allTerritories g)
            ++ mjoin (replicate n (occupied_list i 0 (allTerritories g)))).
    change (mjoin (owned_list i 0 (allTerritories g)
                   :: replicate n (owned_list i 0 (allTerritories g))))
      with (owned_list i 0 (allTerritories g)
            ++ mjoin (replicate n (owned_list i 0 (allTerritories g)))).
    rewrite Hun, Hu', Han, Ha', <- !app_assoc.
    do 2 (split; [reflexivity|]). auto.
Qed.

(** The game after the first call of [initialize] and [n] further calls:
    the board of the first call, and the vectors of the first call [n + 1]
    times over. *)
Lemma initialize_times_spec (parse : string → result json)
    (dump : json → string) (fs : string → option string)
    (mapPath rulesPath : string) (g0 g : Game) (n : nat) :
  Game_ctor parse dump fs mapPath rulesPath = Ok g0 →
  initialize parse g0 = Ok g →
  ∃ gn,
    initialize_times parse n g = Ok gn
    ∧ allTerritories gn = allTerritories g
    ∧ length (allPlayers gn) = length (allPlayers g)
    ∧ ∀ i pl, allPlayers g !! i = Some pl →
        ∃ pln, allPlayers gn !! i = Some pln
          ∧ units pln = mjoin (replicate (S n) (units pl))
          ∧ allowBuild pln = mjoin (replicate (S n) (allowBuild pl))
          ∧ counts_ok pln.
Proof.
  intros Hg0 Hg.
  destruct (initialize_spec _ _ _ _ _ _ _ Hg0 Hg) as [_ Hpl].
  destruct (initialize_times_settled _ _ _ _ _ _ _ Hg0 Hg n g)
    as (gn & Hgn & Hts & Hlen & Hgrow); try reflexivity.
  exists gn. split; [exact Hgn|]. split; [exact Hts|]. split; [exact Hlen|].
  intros i pl Hi.
  destruct (Hgrow i pl Hi) as (pln & Hin & Hu & Ha & Hc).
  destruct (Hpl i pl Hi) as (Hu1 & Ha1 & Hc1).
  exists pln. split; [exact Hin|].
  rewrite Hu, Ha, <- Hu1, <- Ha1. do 2 (split; [reflexivity|]). auto.
Qed.

(** C6: after the constructor and the first call of [initialize], the
    [unitCount] of every player is the number of Parts whose unit pointer
    is that player, which is the length of its [units] vector, every entry
    of which points back to the player; its [centerCount] is the number of
    Territories whose owner it is.  The counters are [int]s: the map has
    at most [INT_MAX] territories.  A further call of [initialize], the
    one operation the source defines on an initialised game, succeeds,
    leaves the board as it is and credits every unit and centre once
    more: after [n] further calls [unitCount] is, as an [int], [n + 1]
    times the number of Parts the player occupies, which is the length of
    [units], whose entries still point back to the player, and
    [centerCount] is [n + 1] times the number of Territories it owns. *)
Theorem counts_match_board (parse : string → result json) (dump : json → string)
    (fs : string → option string) (mapPath rulesPath : string) (g0 g : Game) :
  Game_ctor parse dump fs mapPath rulesPath = Ok g0 →
  initialize parse g0 = Ok g →
  Z.of_nat (length (allTerritories g)) ≤ INT_MAX →
  (∀ i pl, allPlayers g !! i = Some pl →
     unitCount pl = Z.of_nat (parts_occupied g i)
     ∧ parts_occupied g i = length (units pl)
     ∧ (∀ ptr, ptr ∈ units pl →
          ∃ p, part_at g ptr = Some p ∧ part_unit p = Some i)
     ∧ centerCount pl = Z.of_nat (territories_owned g i))
  ∧ ∀ n, ∃ gn,
      initialize_times parse n g = Ok gn
      ∧ allTerritories gn = allTerritories g
      ∧ ∀ i pl, allPlayers gn !! i = Some pl →
          unitCount pl
          = wrap_int (Z.of_nat (S n) * Z.of_nat (parts_occupied gn i))
          ∧ length (units pl) = (S n * parts_occupied gn i)%nat
          ∧ (∀ ptr, ptr ∈ units pl →
               ∃ p, part_at gn ptr = Some p ∧ part_unit p = Some i)
          ∧ centerCount pl
            = wrap_int (Z.of_nat (S n) * Z.of_nat (territories_owned gn i)).
Proof.
  intros Hg0 Hg Hmax.
  destruct (initialize_spec _ _ _ _ _ _ _ Hg0 Hg) as [Hst Hpl].
  assert (∀ i pl, allPlayers g !! i = Some pl →
            parts_occupied g i = length (units pl)
            ∧ territories_owned g i = length (allowBuild pl)
            ∧ ∀ ptr, ptr ∈ units pl →
                ∃ p, part_at g ptr = Some p ∧ part_unit p = Some i) as Hboard.
  { intros i pl Hi. destruct (Hpl i pl Hi) as (Hu & Ha & _).
    split; [unfold parts_occupied; now rewrite Hu, length_occupied_list|].
    split; [unfold territories_owned; now rewrite Ha, length_owned_list|].
    intros ptr Hptr. rewrite Hu in Hptr.
    apply elem_of_occupied_list in Hptr as (j & t & p & Hj & Ht & Hp & Hpu).
    exists p. split; [|exact Hpu]. unfold part_at.
    cbn in Hj. rewrite Hj, Ht. exact Hp. }
  split.
  - intros i pl Hi.
    destruct (Hpl i pl Hi) as (Hu & Ha & Hcu & Hcc).
    destruct (Hboard i pl Hi) as (Hocc & Hown & Hback).
    pose proof (occupied_list_bound i 0 _ _ _ Hst) as Hb1.
    pose proof (owned_list_bound i 0 (allTerritories g)) as Hb2.
    rewrite <- Hu in Hb1. rewrite <- Ha in Hb2.
    unfold INT_MAX in Hmax.
    split; [|split; [exact Hocc|split; [exact Hback|]]].
    + rewrite Hcu, Hocc. apply wrap_int_small. unfold INT_MAX. lia.
    + rewrite Hcc, Hown. apply wrap_int_small. unfold INT_MAX. lia.
  - intros n.
    destruct (initialize_times_spec _ _ _ _ _ _ _ n Hg0 Hg)
      as (gn & Hgn & Hts & Hlen & Hgrow).
    exists gn. split; [exact Hgn|]. split; [exact Hts|].
    intros i pln Hin.
    assert (is_Some (allPlayers g !! i)) as [pl Hi].
    { apply lookup_lt_is_Some. rewrite <- Hlen. now apply lookup_lt_Some in Hin. }
    destruct (Hgrow i pl Hi) as (pln' & Hin' & Hu & Ha & Hcu & Hcc).
    assert (pln' = pln) as -> by congruence.
    destruct (Hboard i pl Hi) as (Hocc & Hown & Hback).
    assert (parts_occupied gn i = parts_occupied g i) as ->
      by (unfold parts_occupied; now rewrite Hts).
    assert (territories_owned gn i = territories_owned g i) as ->
      by (unfold territories_owned; now rewrite Hts).
    split; [|split; [|split]].
    + rewrite Hcu, Hu, length_join_replicate, Hocc. f_equal. lia.
    + now rewrite Hu, length_join_replicate, Hocc.
    + intros ptr Hptr. rewrite Hu, elem_of_join_replicate in Hptr.
      unfold part_at. rewrite Hts. exact (Hback ptr Hptr).
    + rewrite Hcc, Ha, length_join_replicate, Hown. f_equal. lia.
Qed.

Lemma counts_match_board_witness :
  ∃ g0 g,
    Game_ctor (parse_docs docs) json_dump fs_doc "map.json" "rules.json" = Ok g0
    ∧ initialize (parse_docs docs) g0 = Ok g
    ∧ (∀ i pl, allPlayers g !! i = Some pl →
         unitCount pl = Z.of_nat (parts_occupied g i)
         ∧ parts_occupied g i = length (units pl)
         ∧ (∀ ptr, ptr ∈ units pl →
              ∃ p, part_at g ptr = Some p ∧ part_unit p = Some i)
         ∧ centerCount pl = Z.of_nat (territories_owned g i))
    ∧ ∀ n, ∃ gn,
        initialize_times (parse_docs docs) n g = Ok gn
        ∧ allTerritories gn = allTerritories g
        ∧ ∀ i pl, allPlayers gn !! i = Some pl →
            unitCount pl
            = wrap_int (Z.of_nat (S n) * Z.of_nat (parts_occupied gn i))
            ∧ length (units pl) = (S n * parts_occupied gn i)%nat
            ∧ (∀ ptr, ptr ∈ units pl →
                 ∃ p, part_at gn ptr = Some p ∧ part_unit p = Some i)
            ∧ centerCount pl
              = wrap_int (Z.of_nat (S n)
                          * Z.of_nat (territories_owned gn i)).
Proof.
  do 2 eexists. split; [vm_compute; reflexivity|].
  split; [vm_compute; reflexivity|].
  eapply (counts_match_board (parse_docs docs) json_dump fs_doc
            "map.json" "rules.json").
  - vm_compute. reflexivity.
  - vm_compute. reflexivity.
  - vm_compute. discriminate.
Defined.

(** The header map initialised twice.  After the first call ENG holds the
    one Part LON_C and owns the one Territory LON, and its counters say 1.
    The second call leaves the board as it is, ENG still holds one Part and
    owns one Territory, and its counters say 2: the equalities of the
    invariant do not hold of the game the second call returns. *)
Lemma second_initialize_miscounts :
  ∃ g0 g g2,
    Game_ctor (parse_docs docs) json_dump fs_doc "map.json" "rules.json" = Ok g0
    ∧ initialize (parse_docs docs) g0 = Ok g
    ∧ initialize (parse_docs docs) g = Ok g2
    ∧ (λ pl, (player_name pl, unitCount pl, centerCount pl))
        <$> allPlayers g !! 1%nat = Some ("ENG", 1, 1)
    ∧ parts_occupied g 1 = 1%nat ∧ territories_owned g 1 = 1%nat
    ∧ (λ pl, (player_name pl, unitCount pl, centerCount pl, units pl))
        <$> allPlayers g2 !! 1%nat
      = Some ("ENG", 2, 2, [(1, 0)%nat; (1, 0)%nat])
    ∧ parts_occupied g2 1 = 1%nat ∧ territories_owned g2 1 = 1%nat
    ∧ ¬ (∀ i pl, allPlayers g2 !! i = Some pl →
           unitCount pl = Z.of_nat (parts_occupied g2 i)
           ∧ parts_occupied g2 i = length (units pl)
           ∧ (∀ ptr, ptr ∈ units pl →
                ∃ p, part_at g2 ptr = Some p ∧ part_unit p = Some i)
           ∧ centerCount pl = Z.of_nat (territories_owned g2 i)).
Proof.
  do 3 eexists. split; [vm_compute; reflexivity|].
  split; [vm_compute; reflexivity|].
  split; [vm_compute; reflexivity|].
  split; [vm_compute; reflexivity|].
  split; [vm_compute; reflexivity|].
  split; [vm_compute; reflexivity|].
  split; [vm_compute; reflexivity|].
  split; [vm_compute; reflexivity|].
  split; [vm_compute; reflexivity|].
  intros H. destruct (H 1%nat _ eq_refl) as (Hu & _).
  vm_compute in Hu. discriminate.
Qed.

(** The counters of the header map: ENG holds LON_C and owns LON; RUS
    holds STP_SC and owns STP, and neither holds nor owns UKR. *)
Example counters_of_the_header_map :
  (λ g, (λ pl, (player_name pl, unitCount pl, centerCount pl,
                units pl, allowBuild pl)) <$> allPlayers g)
  <$> (match Game_ctor (parse_docs docs) json_dump fs_doc
               "map.json" "rules.json" ≫= initialize (parse_docs docs)
       with Ok g => Some g | Throw _ => None end)
  = Some [("public", 0, 0, [], []);
          ("ENG", 1, 1, [(1, 0)%nat], [1%nat]);
          ("RUS", 1, 1, [(2, 2)%nat], [2%nat])].
Proof. vm_compute. reflexivity. Qed.



